(** * werf: stages storage manager and helm maintenance helper

    A shallow embedding of
      - [pkg/storage/manager] (the storage manager: stage description
        resolver, fetch pipeline, digest index, final repo replication,
        stage selection, unique id generation), and
      - [pkg/deploy/helm/maintenance_helper] (helm 2 / helm 3 release
        listing and lookup),
    followed by the properties proved about them.

    Conventions.  A Go [error] value is an inhabitant of [error]; a
    possibly-nil [error] is an [option error].  A possibly-nil pointer
    [*T] is an [option T].  A Go multiple return [(v, err)] is a pair.
    Every call that leaves the package (a storage backend, the container
    runtime, the manifest cache, the lock manager, the clock) acts on an
    abstract [World] and is recorded in a trace of [Event]s, so that
    "calls X" and "does not call X" are statements about the trace.
    Logging through logboek has no influence on results and is left out;
    [LogProcess(..).DoError(f)] hands back the error of [f] as it is. *)

From stdpp Require Import base strings list gmap sorting.
From Stdlib Require Import ZArith Lia DecimalString String.

Local Open Scope Z_scope.
Local Open Scope string_scope.

(* ===================================================================== *)
(** * Go runtime helpers *)
(* ===================================================================== *)

(** [s[k:]] on a Go string (a byte sequence). *)
Definition slice_from (k : nat) (s : string) : string :=
  String.substring k (String.length s - k) s.

(** [strings.HasSuffix]:
    [len(s) >= len(suffix) && s[len(s)-len(suffix):] == suffix]. *)
Definition HasSuffix (s suffix : string) : bool :=
  (String.length suffix <=? String.length s)%nat
  && String.eqb (slice_from (String.length s - String.length suffix) s) suffix.

(** The verb [%d] of package fmt on an integer. *)
Definition fmt_d (z : Z) : string := NilZero.string_of_int (Z.to_int z).

(** Two's complement wrap-around of [int64] arithmetic. *)
Definition wrap64 (z : Z) : Z :=
  (z + 2 ^ 63) mod 2 ^ 64 - 2 ^ 63.

(* ===================================================================== *)
(** * Errors *)
(* ===================================================================== *)

(** The error values the code distinguishes by identity, and every
    other error ([fmt.Errorf] results, errors made by backends), of which
    only the text matters. *)
Inductive error : Type :=
| ErrShouldResetStagesStorageCache
| ErrStageNotFound
| ErrBrokenImage
| Errorf (msg : string).

(* ===================================================================== *)
(** * Package image: stage identifiers and descriptions *)
(* ===================================================================== *)

Record StageID := mkStageID {
  Digest : string;
  UniqueID : Z;
}.

(** Modelled from the spec: [image.StageID.IsEqual] is declared in
    pkg/image, outside the sources at hand; the spec says of StageID that
    "Equality is pairwise". *)
Definition IsEqual (a b : StageID) : bool :=
  String.eqb (Digest a) (Digest b) && Z.eqb (UniqueID a) (UniqueID b).

(** [image.Info], with the fields the manager reads and writes. *)
Record Info := mkInfo {
  Name : string;
  Repository : string;
  Tag : string;
  RepoDigest : string;
  ID : string;
  ParentID : string;
  Labels : gmap string string;
  Size : Z;
  CreatedAtUnixNano : Z;
}.

(** [image.StageDescription]; both pointers are set in every description
    that backends and the manifest cache hand out. *)
Record StageDescription := mkStageDescription {
  descStageID : StageID;
  descInfo : Info;
}.

(* ===================================================================== *)
(** * What other packages provide *)
(* ===================================================================== *)

(** Constants and pure functions of other packages that the code under
    study only uses: the text of [storage.ErrBrokenImage], the address
    [storage.LocalStorageAddress], [image.StageID.String],
    [container_runtime.ImageLockName], the verb [%q] of package fmt, and
    whether [yaml.Marshal] fails on a description. *)
Class Foreign := {
  ErrBrokenImageText : string;
  LocalStorageAddress : string;
  StageID_String : StageID -> string;
  ImageLockName : string -> string;
  fmt_q : string -> string;
  yaml_Marshal : StageDescription -> string * option error;
}.

(* ===================================================================== *)
(** * Error texts and the predicates on them *)
(* ===================================================================== *)

(** [err.Error()]. *)
Definition Error `{Foreign} (e : error) : string :=
  match e with
  | ErrShouldResetStagesStorageCache => "should reset storage cache"
  | ErrStageNotFound => "stage not found"
  | ErrBrokenImage => ErrBrokenImageText
  | Errorf msg => msg
  end.

(** [err == sentinel] on interface values: identity of the error object.
    A value made by [fmt.Errorf] is never identical to a package-level
    variable. *)
Definition same_error (err : option error) (sentinel : error) : bool :=
  match err, sentinel with
  | Some ErrShouldResetStagesStorageCache, ErrShouldResetStagesStorageCache => true
  | Some ErrStageNotFound, ErrStageNotFound => true
  | Some ErrBrokenImage, ErrBrokenImage => true
  | _, _ => false
  end.

Definition IsStageNotFound `{Foreign} (err : option error) : bool :=
  match err with
  | Some e => HasSuffix (Error e) (Error ErrStageNotFound)
  | None => false
  end.

Definition ShouldResetStagesStorageCache `{Foreign} (err : option error) : bool :=
  match err with
  | Some e => HasSuffix (Error e) (Error ErrShouldResetStagesStorageCache)
  | None => false
  end.

(* ===================================================================== *)
(** * Package maintenance_helper *)
(* ===================================================================== *)

Module maintenance_helper.

(** A release record of the helm release storage ([v2_rspb.Release],
    [v3_rspb.Release]); [Version] is the revision number. *)
Record Release := mkRelease {
  Name : string;
  Version : Z;
  Namespace : string;
  Manifest : string;
}.

(** [v2_driver.NewConfigMaps] and [v2_driver.NewSecrets] over the
    namespace of the helper. *)
Inductive Driver : Type :=
  | ConfigMaps (namespace : string)
  | Secrets (namespace : string).

(** [v2_storage.Init(drv)]. *)
Record Storage := mkStorage { StorageDriver : Driver }.

(** What a release storage answers when it is listed: it cannot be
    reached, or it holds these records, in the order it lists them. *)
Inductive Backend : Type :=
  | Unreachable (e : error)
  | Holds (records : list Release).

(** The cluster: the helm 2 storage behind each driver and the helm 3
    storage behind [v3ActionConfig.Releases]. *)
Record Cluster := mkCluster {
  v2Releases : Driver -> Backend;
  v3Releases : Backend;
}.

(** The listing of a release storage through a filter, the common core of
    [ListReleases] (filter always true) and [ListFilterAll]. *)
Definition DriverList (b : Backend) (filter : Release -> bool) : list Release * option error :=
  match b with
  | Unreachable e => ([], Some e)
  | Holds records => (List.filter filter records, None)
  end.

Definition ListReleases (b : Backend) : list Release * option error :=
  DriverList b (fun _ => true).

Definition ListFilterAll (b : Backend) (filter : Release -> bool) : list Release * option error :=
  DriverList b filter.

Record Helm2ReleaseData := mkHelm2ReleaseData { Release_ : Release }.

Record MaintenanceHelper := mkMaintenanceHelper {
  Helm2ReleaseStorageNamespace : string;
  Helm2ReleaseStorageType : string;
  v2Storage : option Storage;
}.

Definition set_v2Storage (helper : MaintenanceHelper) (st : Storage) : MaintenanceHelper :=
  {| Helm2ReleaseStorageNamespace := Helm2ReleaseStorageNamespace helper;
     Helm2ReleaseStorageType := Helm2ReleaseStorageType helper;
     v2Storage := Some st |}.

(** [initHelm2Storage]: the helper after the call, and what it returns. *)
Definition initHelm2Storage `{Foreign} (helper : MaintenanceHelper)
  : MaintenanceHelper * (option Storage * option error) :=
  match v2Storage helper with
  | Some st => (helper, (Some st, None))
  | None =>
    if String.eqb (Helm2ReleaseStorageType helper) "configmap" then
      let st := mkStorage (ConfigMaps (Helm2ReleaseStorageNamespace helper)) in
      (set_v2Storage helper st, (Some st, None))
    else if String.eqb (Helm2ReleaseStorageType helper) "secret" then
      let st := mkStorage (Secrets (Helm2ReleaseStorageNamespace helper)) in
      (set_v2Storage helper st, (Some st, None))
    else
      (helper, (None, Some (Errorf ("unknown helm 2 release v2Storage type "
                                      ++ fmt_q (Helm2ReleaseStorageType helper)))))
  end.

(** The inner loop of [AppendUniqReleases]: is [name] already in [res]? *)
Fixpoint containsName (res : list string) (name : string) : bool :=
  match res with
  | [] => false
  | n :: rest => if String.eqb n name then true else containsName rest name
  end.

(** One round of the outer loop. *)
Definition appendUniq (res : list string) (rel : Release) : list string :=
  if containsName res (Name rel) then res else (res ++ [Name rel])%list.

(** The loop labelled [AppendUniqReleases], from [var res []string]. *)
Definition AppendUniqReleases (releases : list Release) : list string :=
  fold_left appendUniq releases [].

Definition GetHelm3ReleasesList (c : Cluster) (helper : MaintenanceHelper)
  : list string * option error :=
  let '(releases, err) := ListReleases (v3Releases c) in
  match err with
  | Some e => ([], Some e)
  | None => (AppendUniqReleases releases, None)
  end.

Definition GetHelm2ReleasesList `{Foreign} (c : Cluster) (helper : MaintenanceHelper)
  : MaintenanceHelper * (list string * option error) :=
  let '(helper, (storage, err)) := initHelm2Storage helper in
  match storage, err with
  | _, Some e => (helper, ([], Some e))
  | None, None => (helper, ([], None)) (* not reached: no error, a storage *)
  | Some storage, None =>
    let '(releases, err) := ListReleases (v2Releases c (StorageDriver storage)) in
    match err with
    | Some e => (helper, ([], Some e))
    | None => (helper, (AppendUniqReleases releases, None))
    end
  end.

Section ReleaseData.
(** [v2_releaseutil.SortByRevision], which sorts in place with
    [sort.Sort] by [Version]; what is known about it is stated where
    it is used. *)
Variable SortByRevision : list Release -> list Release.

(** [v2_releaseutil.Reverse(list, sortFn)]: sort, then swap end for end. *)
Definition Reverse (releases : list Release)
    (sortFn : list Release -> list Release) : list Release :=
  rev (sortFn releases).

Definition GetHelm2ReleaseData `{Foreign} (c : Cluster) (helper : MaintenanceHelper)
    (releaseName : string)
  : MaintenanceHelper * (option Helm2ReleaseData * option error) :=
  let '(helper, (storage, err)) := initHelm2Storage helper in
  match storage, err with
  | _, Some e => (helper, (None, Some e))
  | None, None => (helper, (None, None)) (* not reached: no error, a storage *)
  | Some storage, None =>
    let '(releases, err) :=
      ListFilterAll (v2Releases c (StorageDriver storage))
                    (fun rel => String.eqb (Name rel) releaseName) in
    match err with
    | Some e => (helper, (None, Some e))
    | None =>
      if (List.length releases =? 0)%nat then
        (helper, (None, Some (Errorf "release not found")))
      else
        match Reverse releases SortByRevision with
        | first :: _ => (helper, (Some (mkHelm2ReleaseData first), None))
        | [] => (helper, (None, None)) (* not reached when the sort keeps the length *)
        end
    end
  end.
End ReleaseData.

(** The order of a sort by revision: the revision of [a] is not above
    that of [b]. *)
Definition revision_le (a b : Release) : Prop := Version a <= Version b.

(** What "each distinct name once, in order of first occurrence" asks
    of a list of names: the head stays, its later copies go. *)
Fixpoint firstOccurrences (names : list string) : list string :=
  match names with
  | [] => []
  | n :: rest => n :: List.filter (fun x => negb (String.eqb x n)) (firstOccurrences rest)
  end.

End maintenance_helper.

(* ===================================================================== *)
(** * Package manager: interfaces, state and effects *)
(* ===================================================================== *)

(** A reading of the wall clock ([time.Time]): seconds since the epoch
    and the nanosecond within the second. *)
Record Time := mkTime {
  Unix : Z;
  Nanosecond : Z;
}.

(** [StagesList]; the mutex has no part in a sequential run. *)
Record StagesList := mkStagesList { StageIDs : list StageID }.

Definition NewStagesList (stageIDs : list StageID) : StagesList :=
  mkStagesList stageIDs.

(** The loop of [GetStageIDs] copies the slice element by element. *)
Definition GetStageIDs (stages : StagesList) : list StageID :=
  fold_left (fun res stg => (res ++ [stg])%list) (StageIDs stages) [].

(** The loop of [AddStageID]: [true] when it returned from inside. *)
Fixpoint AddStageID_found (stageIDs : list StageID) (stageID : StageID) : bool :=
  match stageIDs with
  | [] => false
  | stg :: rest => if IsEqual stg stageID then true else AddStageID_found rest stageID
  end.

Definition AddStageID (stages : StagesList) (stageID : StageID) : StagesList :=
  if AddStageID_found (StageIDs stages) stageID then stages
  else mkStagesList (StageIDs stages ++ [stageID])%list.

Record getStageDescriptionOptions := mkOptions {
  AllowStagesStorageCacheReset : bool;
  WithLocalManifestCache : bool;
}.

Section Manager.
(** The state behind every collaborator, the handles of image objects
    and of locks, and the conveyor handed through to the stage. *)
Context {World Image LockHandle Conveyor : Type}.
Context `{FOREIGN : Foreign}.

(** [storage.StagesStorage], the methods the manager calls here. *)
Record StagesStorage := mkStagesStorage {
  Address : string;
  StorageString : string;
  ConstructStageImageName : string -> string -> Z -> string;
  GetStagesIDs : string -> World -> (list StageID * option error) * World;
  GetStagesIDsByDigest :
    string -> string -> World -> (list StageID * option error) * World;
  GetStageDescription :
    string -> string -> Z -> World -> (option StageDescription * option error) * World;
  RejectStage : string -> string -> Z -> World -> option error * World;
  ShouldFetchImage : Image -> World -> (bool * option error) * World;
  FetchImage : Image -> World -> option error * World;
  StoreImage : Image -> World -> option error * World;
}.

(** [container_runtime.ContainerRuntime]; the flag tells whether the
    value is a [*LocalDockerServerRuntime], which a type assertion in
    the fetch pipeline demands. *)
Record ContainerRuntime := mkContainerRuntime {
  IsLocalDockerServerRuntime : bool;
  RenameImage : Image -> string -> bool -> World -> option error * World;
  RefreshImageObject : Image -> World -> option error * World;
}.

(** [stage.Interface]. *)
Record Stage := mkStage {
  StageName : string;
  GetDigest : string;
  LogDetailedName : string;
  GetImage : Image;
  Stage_SelectSuitableStage :
    Conveyor -> list StageDescription -> World
    -> (option StageDescription * option error) * World;
}.

(** [storage.LockManager]. *)
Record LockManager := mkLockManager {
  LockStageCache : string -> string -> World -> (LockHandle * option error) * World;
  Unlock : LockHandle -> World -> option error * World;
}.

(** [storage.StagesStorageCache], the index from digest to stage ids. *)
Record StagesStorageCache := mkStagesStorageCache {
  CacheString : string;
  Cache_GetStagesByDigest :
    string -> string -> World -> (bool * list StageID * option error) * World;
  Cache_StoreStagesByDigest :
    string -> string -> list StageID -> World -> option error * World;
}.

(** Package-level objects of other packages: the manifest cache
    [image.CommonManifestCache], the access tracker
    [lrumeta.CommonLRUImagesCache], [werf.AcquireHostLock], image
    objects of package container_runtime, and [time.Now]. *)
Class Externals := {
  GetImageInfo : string -> string -> World -> (option Info * option error) * World;
  StoreImageInfo : string -> Info -> World -> option error * World;
  AccessImage : string -> World -> option error * World;
  AcquireHostLock : string -> bool -> World -> (bool * LockHandle * option error) * World;
  NewStageImage : string -> World -> Image * World;
  ImageName : Image -> World -> string;
  ImageGetStageDescription : Image -> World -> option StageDescription;
  ImageSetStageDescription : Image -> StageDescription -> World -> World;
  TimeNow : World -> Time * World;
}.
Context `{EXTERNALS : Externals}.

(** One entry per call that leaves the package. *)
Inductive Event : Type :=
| EvGetStagesIDs (st : StagesStorage) (project : string)
| EvGetStagesIDsByDigest (st : StagesStorage) (project digest : string)
| EvGetStageDescription (st : StagesStorage) (project digest : string) (uniqueID : Z)
| EvRejectStage (st : StagesStorage) (project digest : string) (uniqueID : Z)
| EvShouldFetchImage (st : StagesStorage) (img : Image)
| EvFetchImage (st : StagesStorage) (img : Image)
| EvStoreImage (st : StagesStorage) (img : Image)
| EvRenameImage (img : Image) (newName : string) (removeOld : bool)
| EvRefreshImageObject (img : Image)
| EvNewStageImage (name : string)
| EvSetStageDescription (img : Image) (desc : StageDescription)
| EvGetImageInfo (storageName imageName : string)
| EvStoreImageInfo (storageName : string) (info : Info)
| EvAccessImage (imageName : string)
| EvAcquireHostLock (lockName : string) (shared : bool)
| EvLockStageCache (project digest : string)
| EvUnlock (lock : LockHandle)
| EvCacheGetStagesByDigest (project digest : string)
| EvCacheStoreStagesByDigest (project digest : string) (ids : list StageID)
| EvSelectSuitableStage (stages : list StageDescription)
| EvTimeNow.

(** [StorageManager], the fields set once by [NewStorageManager]. *)
Record StorageManager := mkStorageManager {
  ProjectName : string;
  StorageLockManager : LockManager;
  m_StagesStorageCache : StagesStorageCache;
  m_StagesStorage : StagesStorage;
  FinalStagesStorage : option StagesStorage;
  CacheStagesStorageList : list StagesStorage;
  SecondaryStagesStorageList : list StagesStorage;
}.

(** What a run acts on: the world, the trace of calls, and the two
    fields of the manager that change, [SharedHostImagesLocks] and
    [FinalStagesListCache] (nil until first use). *)
Record State := mkState {
  world : World;
  trace : list Event;
  SharedHostImagesLocks : list LockHandle;
  FinalStagesListCache : option StagesList;
}.

(** A call either returns or panics (nil dereference, failed type
    assertion, explicit [panic]). *)
Inductive Outcome (A : Type) : Type :=
| Returned (a : A)
| Panicked.
Global Arguments Returned {A} a.
Global Arguments Panicked {A}.

Definition M (A : Type) : Type := State -> Outcome A * State.

#[export] Instance M_ret : MRet M := fun A a s => (Returned a, s).

#[export] Instance M_bind : MBind M := fun A B f m s =>
  match m s with
  | (Returned a, s') => f a s'
  | (Panicked, s') => (Panicked, s')
  end.

Definition panic {A} : M A := fun s => (Panicked, s).

(** Dereference of a pointer. *)
Definition deref {A} (p : option A) : M A :=
  match p with
  | Some a => mret a
  | None => panic
  end.

(** A call into another package: it acts on the world and is logged. *)
Definition call {A} (ev : Event) (f : World -> A * World) : M A := fun s =>
  let '(a, w) := f (world s) in
  (Returned a,
   mkState w (trace s ++ [ev])%list (SharedHostImagesLocks s) (FinalStagesListCache s)).

(** A read of an object of another package. *)
Definition observe {A} (f : World -> A) : M A := fun s => (Returned (f (world s)), s).

Definition get_FinalStagesListCache : M (option StagesList) := fun s =>
  (Returned (FinalStagesListCache s), s).

Definition set_FinalStagesListCache (l : option StagesList) : M unit := fun s =>
  (Returned tt, mkState (world s) (trace s) (SharedHostImagesLocks s) l).

Definition append_SharedHostImagesLocks (lock : LockHandle) : M unit := fun s =>
  (Returned tt,
   mkState (world s) (trace s) (SharedHostImagesLocks s ++ [lock])%list (FinalStagesListCache s)).

(** [defer cleanup] in front of [body]: the cleanup runs when the body
    is left, by return or by panic. *)
Definition defer {A} (cleanup : M unit) (body : M A) : M A := fun s =>
  let '(r, s1) := body s in
  let '(_, s2) := cleanup s1 in
  (r, s2).

(** [stg.GetImage().GetStageDescription().StageID], then read through. *)
Definition StageIDOf (stg : Stage) : M StageID :=
  desc ← observe (ImageGetStageDescription (GetImage stg));
  d ← deref desc;
  mret (descStageID d).

(* =================================================================== *)
(** ** Manifest cache and rebranding *)

Definition getStageDescriptionFromLocalManifestCache (projectName : string)
    (stageID : StageID) (stagesStorage : StagesStorage)
  : M (option StageDescription * option error) :=
  let stageImageName :=
    ConstructStageImageName stagesStorage projectName (Digest stageID) (UniqueID stageID) in
  '(imgInfo, err) ← call (EvGetImageInfo (StorageString stagesStorage) stageImageName)
                         (GetImageInfo (StorageString stagesStorage) stageImageName);
  match err, imgInfo with
  | Some e, _ =>
    mret (None, Some (Errorf ("error getting image " +:+ stageImageName +:+ " info: "
                                +:+ Error e)))
  | None, Some info =>
    mret (Some (mkStageDescription (mkStageID (Digest stageID) (UniqueID stageID)) info),
          None)
  | None, None => mret (None, None)
  end.

Definition storeStageDescriptionIntoLocalManifestCache (projectName : string)
    (stageID : StageID) (stagesStorage : StagesStorage) (stageDesc : StageDescription)
  : M (option error) :=
  let stageImageName :=
    ConstructStageImageName stagesStorage projectName (Digest stageID) (UniqueID stageID) in
  err ← call (EvStoreImageInfo (StorageString stagesStorage) (descInfo stageDesc))
             (StoreImageInfo (StorageString stagesStorage) (descInfo stageDesc));
  match err with
  | Some e =>
    mret (Some (Errorf ("error storing image " +:+ stageImageName +:+ " info: " +:+ Error e)))
  | None => mret None
  end.

Definition convertStageDescriptionForStagesStorage (stageDesc : StageDescription)
    (stagesStorage : StagesStorage) : StageDescription :=
  {| descStageID :=
       {| Digest := Digest (descStageID stageDesc);
          UniqueID := UniqueID (descStageID stageDesc) |};
     descInfo :=
       {| Name := Address stagesStorage +:+ ":" +:+ Digest (descStageID stageDesc)
                  +:+ "-" +:+ fmt_d (UniqueID (descStageID stageDesc));
          Repository := Address stagesStorage;
          Tag := Tag (descInfo stageDesc);
          RepoDigest := RepoDigest (descInfo stageDesc);
          ID := ID (descInfo stageDesc);
          ParentID := ParentID (descInfo stageDesc);
          Labels := Labels (descInfo stageDesc);
          Size := Size (descInfo stageDesc);
          CreatedAtUnixNano := CreatedAtUnixNano (descInfo stageDesc) |} |}.

(* =================================================================== *)
(** ** The stage description resolver *)

(** What a piece of a function body hands on: [Some r] when it executed
    [return r], [None] when control goes on to what follows. *)
Definition Returns (A : Type) : Type := option A.

(** The body of the loop over [cacheStagesStorageList]. *)
Definition getStageDescription_cache (projectName : string) (stageID : StageID)
    (stagesStorage : StagesStorage) (opts : getStageDescriptionOptions)
    (cacheStagesStorage : StagesStorage)
  : M (Returns (option StageDescription * option error)) :=
  r ← (if WithLocalManifestCache opts then
         '(stageDesc, err) ← getStageDescriptionFromLocalManifestCache
                               projectName stageID cacheStagesStorage;
         match err, stageDesc with
         | Some e, _ =>
           mret (Some (None, Some (Errorf ("error getting stage " +:+ StageID_String stageID
                   +:+ " description from the local manifest cache: " +:+ Error e))))
         | None, Some d =>
           mret (Some (Some (convertStageDescriptionForStagesStorage d stagesStorage), None))
         | None, None => mret None
         end
       else mret None);
  match r with
  | Some res => mret (Some res)
  | None =>
    '(stageDesc, err) ← call (EvGetStageDescription cacheStagesStorage projectName
                                (Digest stageID) (UniqueID stageID))
                             (GetStageDescription cacheStagesStorage projectName
                                (Digest stageID) (UniqueID stageID));
    match err, stageDesc with
    | Some _, _ => mret None
    | None, None => mret None
    | None, Some d =>
      r ← (if WithLocalManifestCache opts then
             err ← storeStageDescriptionIntoLocalManifestCache
                     projectName stageID cacheStagesStorage d;
             match err with
             | Some e =>
               mret (Some (None, Some (Errorf ("error storing stage "
                       +:+ StageID_String stageID
                       +:+ " description into local manifest cache: " +:+ Error e))))
             | None => mret None
             end
           else mret None);
      match r with
      | Some res => mret (Some res)
      | None =>
        mret (Some (Some (convertStageDescriptionForStagesStorage d stagesStorage), None))
      end
    end
  end.

(** The loop over [cacheStagesStorageList]. *)
Fixpoint getStageDescription_caches (projectName : string) (stageID : StageID)
    (stagesStorage : StagesStorage) (opts : getStageDescriptionOptions)
    (cacheStagesStorageList : list StagesStorage)
  : M (Returns (option StageDescription * option error)) :=
  match cacheStagesStorageList with
  | [] => mret None
  | cacheStagesStorage :: rest =>
    r ← getStageDescription_cache projectName stageID stagesStorage opts cacheStagesStorage;
    match r with
    | Some res => mret (Some res)
    | None => getStageDescription_caches projectName stageID stagesStorage opts rest
    end
  end.

(** Everything of [getStageDescription] before the tier itself is
    asked: the manifest cache for the tier, then the cache tiers. *)
Definition getStageDescription_lookups (projectName : string) (stageID : StageID)
    (stagesStorage : StagesStorage) (cacheStagesStorageList : list StagesStorage)
    (opts : getStageDescriptionOptions)
  : M (Returns (option StageDescription * option error)) :=
  r ← (if WithLocalManifestCache opts then
         '(stageDesc, err) ← getStageDescriptionFromLocalManifestCache
                               projectName stageID stagesStorage;
         match err, stageDesc with
         | Some e, _ =>
           mret (Some (None, Some (Errorf ("error getting stage " +:+ StageID_String stageID
                   +:+ " description from " +:+ StorageString stagesStorage +:+ ": "
                   +:+ Error e))))
         | None, Some d => mret (Some (Some d, None))
         | None, None => mret None
         end
       else mret None);
  match r with
  | Some res => mret (Some res)
  | None =>
    getStageDescription_caches projectName stageID stagesStorage opts cacheStagesStorageList
  end.

(** The last statement of [getStageDescription]: the tier is asked. *)
Definition getStageDescription_tier (projectName : string) (stageID : StageID)
    (stagesStorage : StagesStorage) (opts : getStageDescriptionOptions)
  : M (option StageDescription * option error) :=
  '(stageDesc, err) ← call (EvGetStageDescription stagesStorage projectName
                              (Digest stageID) (UniqueID stageID))
                           (GetStageDescription stagesStorage projectName
                              (Digest stageID) (UniqueID stageID));
  if same_error err ErrBrokenImage then
    if AllowStagesStorageCacheReset opts then
      let stageImageName :=
        ConstructStageImageName stagesStorage projectName (Digest stageID) (UniqueID stageID) in
      err ← call (EvRejectStage stagesStorage projectName (Digest stageID) (UniqueID stageID))
                 (RejectStage stagesStorage projectName (Digest stageID) (UniqueID stageID));
      match err with
      | Some e =>
        mret (None, Some (Errorf ("unable to reject stage " +:+ StageID_String stageID
                +:+ " image " +:+ stageImageName +:+ " in the stages storage "
                +:+ StorageString stagesStorage +:+ ": " +:+ Error e)))
      | None => mret (None, Some ErrShouldResetStagesStorageCache)
      end
    else mret (None, None)
  else
    match err, stageDesc with
    | Some e, _ =>
      mret (None, Some (Errorf ("error getting digest " +:+ fmt_q (Digest stageID)
              +:+ " uniqueID " +:+ fmt_d (UniqueID stageID) +:+ " stage info from "
              +:+ StorageString stagesStorage +:+ ": " +:+ Error e)))
    | None, Some d =>
      if WithLocalManifestCache opts then
        err ← storeStageDescriptionIntoLocalManifestCache projectName stageID stagesStorage d;
        match err with
        | Some e =>
          mret (None, Some (Errorf ("error storing stage " +:+ StageID_String stageID
                  +:+ " description into local manifest cache: " +:+ Error e)))
        | None => mret (Some d, None)
        end
      else mret (Some d, None)
    | None, None =>
      if AllowStagesStorageCacheReset opts
      then mret (None, Some ErrShouldResetStagesStorageCache)
      else mret (None, None)
    end.

Definition getStageDescription (projectName : string) (stageID : StageID)
    (stagesStorage : StagesStorage) (cacheStagesStorageList : list StagesStorage)
    (opts : getStageDescriptionOptions)
  : M (option StageDescription * option error) :=
  r ← getStageDescription_lookups projectName stageID stagesStorage
        cacheStagesStorageList opts;
  match r with
  | Some res => mret res
  | None => getStageDescription_tier projectName stageID stagesStorage opts
  end.

(* =================================================================== *)
(** ** The digest index *)

Definition getWithLocalManifestCacheOption (m : StorageManager) : bool :=
  negb (String.eqb (Address (m_StagesStorage m)) LocalStorageAddress).

(** A [[]*image.StageDescription] whose entries may be nil. *)
Definition StageDescriptionPtrs : Type := list (option StageDescription).

(** The loop of [getStagesByDigestFromCache]; [stages] is the slice
    built so far. *)
Fixpoint getStagesByDigestFromCache_loop (m : StorageManager)
    (cacheStagesIDs : list StageID) (stages : StageDescriptionPtrs)
  : M (Returns (bool * StageDescriptionPtrs * option error) * StageDescriptionPtrs) :=
  match cacheStagesIDs with
  | [] => mret (None, stages)
  | stageID :: rest =>
    '(stageDesc, err) ← getStageDescription (ProjectName m) stageID (m_StagesStorage m)
                          (CacheStagesStorageList m)
                          (mkOptions true (getWithLocalManifestCacheOption m));
    match err with
    | Some e =>
      mret (Some (false, [], Some (Errorf ("unable to get stage "
              +:+ fmt_q (StageID_String stageID) +:+ " description: " +:+ Error e))),
            stages)
    | None => getStagesByDigestFromCache_loop m rest (stages ++ [stageDesc])%list
    end
  end.

Definition getStagesByDigestFromCache (m : StorageManager) (stageName stageDigest : string)
  : M (bool * StageDescriptionPtrs * option error) :=
  '(cacheExists, cacheStagesIDs, err) ←
    call (EvCacheGetStagesByDigest (ProjectName m) stageDigest)
         (Cache_GetStagesByDigest (m_StagesStorageCache m) (ProjectName m) stageDigest);
  let err :=
    match err with
    | Some e => Some (Errorf ("error getting project " +:+ ProjectName m +:+ " stage "
                                +:+ stageDigest +:+ " images from storage cache: "
                                +:+ Error e))
    | None => None
    end in
  '(r, stages) ← getStagesByDigestFromCache_loop m cacheStagesIDs [];
  match r with
  | Some res => mret res
  | None => mret (cacheExists, stages, err)
  end.

Definition getStagesIDsByDigestFromStagesStorage (m : StorageManager)
    (stageName stageDigest : string) (stagesStorage : StagesStorage)
  : M (list StageID * option error) :=
  '(stageIDs, err) ← call (EvGetStagesIDsByDigest stagesStorage (ProjectName m) stageDigest)
                          (GetStagesIDsByDigest stagesStorage (ProjectName m) stageDigest);
  match err with
  | Some e =>
    mret ([], Some (Errorf ("error getting project " +:+ StorageString (m_StagesStorage m)
                              +:+ " stage " +:+ stageDigest +:+ " images from storage: "
                              +:+ Error e)))
  | None => mret (stageIDs, None)
  end.

(** The loop of [getStagesDescriptions]; [stages] is the slice built
    so far. *)
Fixpoint getStagesDescriptions_loop (m : StorageManager) (stagesStorage : StagesStorage)
    (cacheStagesStorageList : list StagesStorage) (stageIDs : list StageID)
    (stages : list StageDescription)
  : M (list StageDescription * option error) :=
  match stageIDs with
  | [] => mret (stages, None)
  | stageID :: rest =>
    '(stageDesc, err) ← getStageDescription (ProjectName m) stageID stagesStorage
                          cacheStagesStorageList
                          (mkOptions false (getWithLocalManifestCacheOption m));
    match err, stageDesc with
    | Some e, _ => mret ([], Some e)
    | None, None =>
      getStagesDescriptions_loop m stagesStorage cacheStagesStorageList rest stages
    | None, Some d =>
      getStagesDescriptions_loop m stagesStorage cacheStagesStorageList rest
                                 (stages ++ [d])%list
    end
  end.

Definition getStagesDescriptions (m : StorageManager) (stageIDs : list StageID)
    (stagesStorage : StagesStorage) (cacheStagesStorageList : list StagesStorage)
  : M (list StageDescription * option error) :=
  getStagesDescriptions_loop m stagesStorage cacheStagesStorageList stageIDs [].

(** The body of [atomicGetStagesByDigestWithStagesStorageCacheStore]
    after the lock is taken and its release deferred. *)
Definition atomicGetStagesByDigestWithStagesStorageCacheStore_locked (m : StorageManager)
    (stageName stageDigest : string)
  : M (list StageDescription * option error) :=
  '(stageIDs, err) ← getStagesIDsByDigestFromStagesStorage m stageName stageDigest
                       (m_StagesStorage m);
  match err with
  | Some e =>
    mret ([], Some (Errorf ("unable to get stages ids from "
            +:+ StorageString (m_StagesStorage m) +:+ " by digest " +:+ stageDigest
            +:+ " for stage " +:+ stageName +:+ ": " +:+ Error e)))
  | None =>
    '(validStages, err) ← getStagesDescriptions m stageIDs (m_StagesStorage m)
                            (CacheStagesStorageList m);
    match err with
    | Some e =>
      mret ([], Some (Errorf ("unable to get stage descriptions by ids from "
              +:+ StorageString (m_StagesStorage m) +:+ ": " +:+ Error e)))
    | None =>
      let validStageIDs :=
        fold_left (fun ids stage => (ids ++ [descStageID stage])%list) validStages [] in
      err ← call (EvCacheStoreStagesByDigest (ProjectName m) stageDigest validStageIDs)
                 (Cache_StoreStagesByDigest (m_StagesStorageCache m) (ProjectName m)
                    stageDigest validStageIDs);
      match err with
      | Some e =>
        mret ([], Some (Errorf ("error storing stage " +:+ stageName
                +:+ " images by digest " +:+ stageDigest +:+ " into storage cache: "
                +:+ Error e)))
      | None => mret (validStages, None)
      end
    end
  end.

Definition atomicGetStagesByDigestWithStagesStorageCacheStore (m : StorageManager)
    (stageName stageDigest : string)
  : M (list StageDescription * option error) :=
  '(lock, err) ← call (EvLockStageCache (ProjectName m) stageDigest)
                      (LockStageCache (StorageLockManager m) (ProjectName m) stageDigest);
  match err with
  | Some e =>
    mret ([], Some (Errorf ("error locking project " +:+ ProjectName m +:+ " stage "
                              +:+ stageDigest +:+ " cache: " +:+ Error e)))
  | None =>
    defer (_ ← call (EvUnlock lock) (Unlock (StorageLockManager m) lock); mret tt)
          (atomicGetStagesByDigestWithStagesStorageCacheStore_locked m stageName stageDigest)
  end.

Definition GetStagesByDigest (m : StorageManager) (stageName stageDigest : string)
  : M (StageDescriptionPtrs * option error) :=
  '(cacheExists, cacheStages, err) ← getStagesByDigestFromCache m stageName stageDigest;
  match err with
  | Some e =>
    mret ([], Some (Errorf ("unable to get " +:+ stageName +:+ " stages by digest "
                              +:+ fmt_q stageDigest +:+ " from cache: " +:+ Error e)))
  | None =>
    if (cacheExists : bool) then mret (cacheStages, None)
    else
      '(stages, err) ← atomicGetStagesByDigestWithStagesStorageCacheStore
                         m stageName stageDigest;
      mret (Some <$> stages, err)
  end.

(* =================================================================== *)
(** ** The fetch pipeline *)

Definition LockStageImage (m : StorageManager) (imageName : string) : M (option error) :=
  let imageLockName := ImageLockName imageName in
  '(_, lock, err) ← call (EvAcquireHostLock imageLockName true)
                         (AcquireHostLock imageLockName true);
  match err with
  | Some e =>
    mret (Some (Errorf ("error locking " +:+ fmt_q imageLockName +:+ " shared lock: "
                          +:+ Error e)))
  | None =>
    _ ← append_SharedHostImagesLocks lock;
    mret None
  end.

Definition doFetchStage (projectName : string) (stagesStorage : StagesStorage)
    (stageID : StageID) (dockerImage : Image) : M (option error) :=
  err ← ('(freshStageDescription, err) ←
           call (EvGetStageDescription stagesStorage projectName
                   (Digest stageID) (UniqueID stageID))
                (GetStageDescription stagesStorage projectName
                   (Digest stageID) (UniqueID stageID));
         match err, freshStageDescription with
         | Some e, _ =>
           mret (Some (Errorf ("unable to get stage description: " +:+ Error e)))
         | None, None => mret (Some ErrStageNotFound)
         | None, Some d =>
           _ ← call (EvSetStageDescription dockerImage d)
                    (fun w => (tt, ImageSetStageDescription dockerImage d w));
           mret None
         end);
  match err with
  | Some e => mret (Some e)
  | None =>
    err ← call (EvFetchImage stagesStorage dockerImage) (FetchImage stagesStorage dockerImage);
    match err with
    | Some e =>
      name ← observe (ImageName dockerImage);
      mret (Some (Errorf ("unable to fetch stage " +:+ StageID_String stageID +:+ " image "
                            +:+ name +:+ ": " +:+ Error e)))
    | None => mret None
    end
  end.

Definition copyStageIntoStagesStorage (projectName : string) (stageID : StageID)
    (dockerImage : Image) (stagesStorage : StagesStorage)
    (containerRuntime : ContainerRuntime) : M (option error) :=
  let targetStagesStorageImageName :=
    ConstructStageImageName stagesStorage projectName (Digest stageID) (UniqueID stageID) in
  err ← call (EvRenameImage dockerImage targetStagesStorageImageName false)
             (RenameImage containerRuntime dockerImage targetStagesStorageImageName false);
  match err with
  | Some e =>
    name ← observe (ImageName dockerImage);
    mret (Some (Errorf ("unable to rename image " +:+ name +:+ " to "
                          +:+ targetStagesStorageImageName +:+ ": " +:+ Error e)))
  | None =>
    err ← call (EvStoreImage stagesStorage dockerImage) (StoreImage stagesStorage dockerImage);
    match err with
    | Some e =>
      mret (Some (Errorf ("unable to store stage " +:+ StageID_String stageID
              +:+ " into the cache stages storage " +:+ StorageString stagesStorage
              +:+ ": " +:+ Error e)))
    | None =>
      desc ← observe (ImageGetStageDescription dockerImage);
      d ← deref desc;
      err ← storeStageDescriptionIntoLocalManifestCache projectName stageID stagesStorage
              (convertStageDescriptionForStagesStorage d stagesStorage);
      match err with
      | Some e =>
        mret (Some (Errorf ("error storing stage " +:+ targetStagesStorageImageName
                +:+ " description into local manifest cache: " +:+ Error e)))
      | None =>
        err ← call (EvAccessImage targetStagesStorageImageName)
                   (AccessImage targetStagesStorageImageName);
        match err with
        | Some e =>
          mret (Some (Errorf ("error accessing last recently used images cache for "
                  +:+ targetStagesStorageImageName +:+ ": " +:+ Error e)))
        | None => mret None
        end
      end
    end
  end.

(** The closure [fetchStageFromCache] of [FetchStage]. *)
Definition fetchStageFromCache (m : StorageManager) (containerRuntime : ContainerRuntime)
    (stg : Stage) (stagesStorage : StagesStorage) : M (option Image * option error) :=
  stageID ← StageIDOf stg;
  let imageName :=
    ConstructStageImageName stagesStorage (ProjectName m) (Digest stageID) (UniqueID stageID) in
  if negb (IsLocalDockerServerRuntime containerRuntime) then panic
  else
    dockerImage ← call (EvNewStageImage imageName) (NewStageImage imageName);
    '(shouldFetch, err) ← call (EvShouldFetchImage stagesStorage dockerImage)
                               (ShouldFetchImage stagesStorage dockerImage);
    match err with
    | Some e =>
      mret (None, Some (Errorf ("error checking should fetch image from cache repo "
              +:+ StorageString stagesStorage +:+ ": " +:+ Error e)))
    | None =>
      r ← (if (shouldFetch : bool) then
             err ← doFetchStage (ProjectName m) stagesStorage stageID dockerImage;
             if IsStageNotFound err then mret (Some (None, err))
             else
               match err with
               | Some e => mret (Some (None, Some e))
               | None =>
                 desc ← observe (ImageGetStageDescription dockerImage);
                 d ← deref desc;
                 err ← storeStageDescriptionIntoLocalManifestCache (ProjectName m) stageID
                         stagesStorage d;
                 match err with
                 | Some e =>
                   mret (Some (None, Some (Errorf ("error storing stage " +:+ imageName
                           +:+ " description into local manifest cache: " +:+ Error e))))
                 | None => mret None
                 end
               end
           else mret None);
      match r with
      | Some res => mret res
      | None =>
        name ← observe (ImageName dockerImage);
        err ← call (EvAccessImage name) (AccessImage name);
        match err with
        | Some e =>
          name ← observe (ImageName dockerImage);
          mret (None, Some (Errorf ("error accessing last recently used images cache for "
                  +:+ name +:+ ": " +:+ Error e)))
        | None => mret (Some dockerImage, None)
        end
      end
    end.

(** The closure [prepareCacheStageAsPrimary] of [FetchStage];
    [fetchedDockerImage] is the variable of [FetchStage] it captures. *)
Definition prepareCacheStageAsPrimary (m : StorageManager)
    (containerRuntime : ContainerRuntime) (fetchedDockerImage : option Image)
    (cacheDockerImage : Image) (primaryStage : Stage) : M (option error) :=
  stageID ← StageIDOf primaryStage;
  let primaryImageName :=
    ConstructStageImageName (m_StagesStorage m) (ProjectName m)
                            (Digest stageID) (UniqueID stageID) in
  err ← call (EvRenameImage cacheDockerImage primaryImageName false)
             (RenameImage containerRuntime cacheDockerImage primaryImageName false);
  match err with
  | Some e =>
    img ← deref fetchedDockerImage;
    name ← observe (ImageName img);
    mret (Some (Errorf ("unable to rename image " +:+ name +:+ " to " +:+ primaryImageName
                          +:+ ": " +:+ Error e)))
  | None =>
    err ← call (EvRefreshImageObject (GetImage primaryStage))
               (RefreshImageObject containerRuntime (GetImage primaryStage));
    match err with
    | Some e =>
      name ← observe (ImageName (GetImage primaryStage));
      mret (Some (Errorf ("unable to refresh stage image " +:+ name +:+ ": " +:+ Error e)))
    | None =>
      desc ← observe (ImageGetStageDescription cacheDockerImage);
      d ← deref desc;
      err ← storeStageDescriptionIntoLocalManifestCache (ProjectName m) stageID
              (m_StagesStorage m)
              (convertStageDescriptionForStagesStorage d (m_StagesStorage m));
      match err with
      | Some e =>
        mret (Some (Errorf ("error storing stage " +:+ primaryImageName
                +:+ " description into local manifest cache: " +:+ Error e)))
      | None =>
        err ← call (EvAccessImage primaryImageName) (AccessImage primaryImageName);
        match err with
        | Some e =>
          mret (Some (Errorf ("error accessing last recently used images cache for "
                  +:+ primaryImageName +:+ ": " +:+ Error e)))
        | None => mret None
        end
      end
    end
  end.

(** The loop of [FetchStage] over [m.CacheStagesStorageList]: the image
    fetched, if any tier served it, and the tiers to refill. *)
Fixpoint FetchStage_caches (m : StorageManager) (containerRuntime : ContainerRuntime)
    (stg : Stage) (cacheStagesStorageList : list StagesStorage)
    (cacheStagesStorageListToRefill : list StagesStorage)
  : M (option Image * list StagesStorage) :=
  match cacheStagesStorageList with
  | [] => mret (None, cacheStagesStorageListToRefill)
  | cacheStagesStorage :: rest =>
    '(cacheDockerImage, err) ← fetchStageFromCache m containerRuntime stg cacheStagesStorage;
    match err with
    | Some _ =>
      FetchStage_caches m containerRuntime stg rest
        (cacheStagesStorageListToRefill ++ [cacheStagesStorage])%list
    | None =>
      img ← deref cacheDockerImage;
      err ← prepareCacheStageAsPrimary m containerRuntime None img stg;
      match err with
      | Some _ =>
        FetchStage_caches m containerRuntime stg rest
          (cacheStagesStorageListToRefill ++ [cacheStagesStorage])%list
      | None => mret (Some img, cacheStagesStorageListToRefill)
      end
    end
  end.

(** The fetch from the primary tier, taken when [fetchedDockerImage]
    is still nil after the loop: [inl err] when [FetchStage] returns
    [err] from here, [inr img] when it goes on with [img]. *)
Definition FetchStage_primary (m : StorageManager) (stg : Stage)
  : M (option error + Image) :=
  stageID ← StageIDOf stg;
  let dockerImage := GetImage stg in
  err ← doFetchStage (ProjectName m) (m_StagesStorage m) stageID dockerImage;
  if same_error err ErrStageNotFound then
    mret (inl (Some ErrShouldResetStagesStorageCache))
  else if same_error err ErrBrokenImage then
    err ← call (EvRejectStage (m_StagesStorage m) (ProjectName m)
                  (Digest stageID) (UniqueID stageID))
               (RejectStage (m_StagesStorage m) (ProjectName m)
                  (Digest stageID) (UniqueID stageID));
    match err with
    | Some e =>
      name ← observe (ImageName (GetImage stg));
      mret (inl (Some (Errorf ("unable to reject stage " +:+ LogDetailedName stg
              +:+ " image " +:+ name +:+ " in the stages storage "
              +:+ StorageString (m_StagesStorage m) +:+ ": " +:+ Error e))))
    | None => mret (inl (Some ErrShouldResetStagesStorageCache))
    end
  else
    match err with
    | Some e =>
      mret (inl (Some (Errorf ("unable to fetch stage " +:+ StageID_String stageID
              +:+ " from stages storage " +:+ StorageString (m_StagesStorage m)
              +:+ ": " +:+ Error e))))
    | None => mret (inr dockerImage)
    end.

(** The loop of [FetchStage] over the tiers to refill; a failure is
    logged as a warning and nothing else. *)
Fixpoint FetchStage_refill (m : StorageManager) (containerRuntime : ContainerRuntime)
    (stg : Stage) (fetchedDockerImage : Image)
    (cacheStagesStorageListToRefill : list StagesStorage) : M unit :=
  match cacheStagesStorageListToRefill with
  | [] => mret tt
  | cacheStagesStorage :: rest =>
    stageID ← StageIDOf stg;
    _ ← copyStageIntoStagesStorage (ProjectName m) stageID fetchedDockerImage
          cacheStagesStorage containerRuntime;
    FetchStage_refill m containerRuntime stg fetchedDockerImage rest
  end.

Definition FetchStage (m : StorageManager) (containerRuntime : ContainerRuntime)
    (stg : Stage) : M (option error) :=
  name ← observe (ImageName (GetImage stg));
  err ← LockStageImage m name;
  match err with
  | Some e =>
    name ← observe (ImageName (GetImage stg));
    mret (Some (Errorf ("error locking stage image " +:+ fmt_q name +:+ ": " +:+ Error e)))
  | None =>
    '(shouldFetch, err) ← call (EvShouldFetchImage (m_StagesStorage m) (GetImage stg))
                               (ShouldFetchImage (m_StagesStorage m) (GetImage stg));
    match err with
    | Some e =>
      mret (Some (Errorf ("error checking should fetch image: " +:+ Error e)))
    | None =>
      if negb shouldFetch then
        stageID ← StageIDOf stg;
        let imageName :=
          ConstructStageImageName (m_StagesStorage m) (ProjectName m)
                                  (Digest stageID) (UniqueID stageID) in
        err ← call (EvAccessImage imageName) (AccessImage imageName);
        match err with
        | Some e =>
          mret (Some (Errorf ("error accessing last recently used images cache for "
                  +:+ imageName +:+ ": " +:+ Error e)))
        | None => mret None
        end
      else
        '(fetchedDockerImage, cacheStagesStorageListToRefill) ←
          FetchStage_caches m containerRuntime stg (CacheStagesStorageList m) [];
        r ← match fetchedDockerImage with
            | Some img => mret (inr img)
            | None => FetchStage_primary m stg
            end;
        match r with
        | inl err => mret err
        | inr img =>
          _ ← FetchStage_refill m containerRuntime stg img cacheStagesStorageListToRefill;
          mret None
        end
    end
  end.

(* =================================================================== *)
(** ** Replication into the final repo *)

Definition getOrCreateFinalStagesListCache (m : StorageManager)
  : M (option StagesList * option error) :=
  cache ← get_FinalStagesListCache;
  match cache with
  | Some l => mret (Some l, None)
  | None =>
    final ← deref (FinalStagesStorage m);
    '(stageIDs, err) ← call (EvGetStagesIDs final (ProjectName m))
                            (GetStagesIDs final (ProjectName m));
    match err with
    | Some e =>
      mret (None, Some (Errorf ("unable to get final repo stages list: " +:+ Error e)))
    | None =>
      _ ← set_FinalStagesListCache (Some (NewStagesList stageIDs));
      mret (Some (NewStagesList stageIDs), None)
    end
  end.

(** The loop of [CopyStageIntoFinalRepo] over the listed stage ids:
    [true] when it returned from inside. *)
Fixpoint CopyStageIntoFinalRepo_exists (existing : list StageID) (stageID : StageID) : bool :=
  match existing with
  | [] => false
  | existingStg :: rest =>
    if IsEqual existingStg stageID then true else CopyStageIntoFinalRepo_exists rest stageID
  end.

(** [existingStagesListCache] points to the object the field
    [FinalStagesListCache] holds; it is read and updated there. *)
Definition CopyStageIntoFinalRepo (m : StorageManager) (stg : Stage)
    (containerRuntime : ContainerRuntime) : M (option error) :=
  '(existingStagesListCache, err) ← getOrCreateFinalStagesListCache m;
  match err with
  | Some e =>
    final ← deref (FinalStagesStorage m);
    mret (Some (Errorf ("error getting existing stages list of final repo "
                          +:+ StorageString final +:+ ": " +:+ Error e)))
  | None =>
    _ ← deref existingStagesListCache;
    stageID ← StageIDOf stg;
    final ← deref (FinalStagesStorage m);
    let finalImageName :=
      ConstructStageImageName final (ProjectName m) (Digest stageID) (UniqueID stageID) in
    cache ← get_FinalStagesListCache;
    existing ← deref cache;
    if CopyStageIntoFinalRepo_exists (GetStageIDs existing) stageID then mret None
    else
      err ← FetchStage m containerRuntime stg;
      match err with
      | Some e =>
        mret (Some (Errorf ("unable to fetch stage " +:+ LogDetailedName stg +:+ ": "
                              +:+ Error e)))
      | None =>
        err ← copyStageIntoStagesStorage (ProjectName m) stageID (GetImage stg) final
                containerRuntime;
        match err with
        | Some e =>
          mret (Some (Errorf ("unable to copy stage " +:+ StageID_String stageID
                  +:+ " into the final repo " +:+ StorageString final +:+ ": "
                  +:+ Error e)))
        | None =>
          cache ← get_FinalStagesListCache;
          existing ← deref cache;
          _ ← set_FinalStagesListCache (Some (AddStageID existing stageID));
          mret None
        end
      end
  end.

(* =================================================================== *)
(** ** Stage selection *)

Definition SelectSuitableStage (m : StorageManager) (c : Conveyor) (stg : Stage)
    (stages : list StageDescription) : M (option StageDescription * option error) :=
  if (List.length stages =? 0)%nat then mret (None, None)
  else
    '(stageDesc, err) ← call (EvSelectSuitableStage stages)
                             (Stage_SelectSuitableStage stg c stages);
    match err, stageDesc with
    | Some e, _ => mret (None, Some e)
    | None, None => mret (None, None)
    | None, Some d =>
      match yaml_Marshal d with
      | (_, Some _) => panic
      | (_, None) => mret (Some d, None)
      end
    end.

(* =================================================================== *)
(** ** Unique id generation *)

(** The inner loop of [GenerateStageUniqueID] over [stages]: its
    [continue] has no label, so it goes on with the next element of
    [stages]; the loop changes nothing and always runs to its end. *)
Fixpoint GenerateStageUniqueID_stages (stages : list StageDescription)
    (imageName : string) : unit :=
  match stages with
  | [] => tt
  | stageDesc :: rest =>
    if String.eqb (Name (descInfo stageDesc)) imageName
    then GenerateStageUniqueID_stages rest imageName
    else GenerateStageUniqueID_stages rest imageName
  end.

(** The body of the outer [for] is left by [return] in its first
    round. [int64] arithmetic wraps around; the division is Go's, on a
    nanosecond count that is never negative. *)
Definition GenerateStageUniqueID (m : StorageManager) (digest : string)
    (stages : list StageDescription) : M (string * Z) :=
  timeNow ← call EvTimeNow TimeNow;
  let uniqueID := wrap64 (Unix timeNow * 1000 + Z.quot (Nanosecond timeNow) 1000000) in
  let imageName :=
    ConstructStageImageName (m_StagesStorage m) (ProjectName m) digest uniqueID in
  match GenerateStageUniqueID_stages stages imageName with
  | tt => mret (imageName, uniqueID)
  end.

End Manager.

(* ===================================================================== *)
(** * Observations on runs *)
(* ===================================================================== *)

Section Observations.
Context {World Image LockHandle : Type}.
Context `{FOREIGN : Foreign} `{EXTERNALS : @Externals World Image LockHandle}.

(** Is the event a call of [RejectStage]? *)
Definition isRejectStage (ev : @Event World Image LockHandle) : bool :=
  match ev with
  | EvRejectStage _ _ _ _ => true
  | _ => false
  end.

(** An event other than a call of [RejectStage]. *)
Definition quiet (ev : @Event World Image LockHandle) : Prop :=
  isRejectStage ev = false.

(** A computation leaves [FinalStagesListCache] as it is and adds to
    the trace only events that satisfy [P]. *)
Definition emits {A} (P : @Event World Image LockHandle -> Prop)
    (c : @M World Image LockHandle A) : Prop :=
  forall s r s',
    c s = (r, s') ->
    FinalStagesListCache s' = FinalStagesListCache s
    /\ exists evs, trace s' = (trace s ++ evs)%list /\ Forall P evs.

(** Following the spec's words for the refresh of the index ("list IDs
    from the primary tier, resolve each via C1, collect those that
    resolve successfully"): every listed id in order with what the
    resolver answered for it; the run ends at the first id the resolver
    returns an error for. *)
Fixpoint resolveEach (m : @StorageManager World Image LockHandle)
    (stagesStorage : @StagesStorage World Image)
    (cacheStagesStorageList : list (@StagesStorage World Image))
    (stageIDs : list StageID)
  : @M World Image LockHandle (list (StageID * option StageDescription) * option error) :=
  match stageIDs with
  | [] => mret ([], None)
  | stageID :: rest =>
    '(stageDesc, err) ← getStageDescription (ProjectName m) stageID stagesStorage
                          cacheStagesStorageList
                          (mkOptions false (getWithLocalManifestCacheOption m));
    match err with
    | Some e => mret ([], Some e)
    | None =>
      '(answers, err) ← resolveEach m stagesStorage cacheStagesStorageList rest;
      match err with
      | Some e => mret ([], Some e)
      | None => mret ((stageID, stageDesc) :: answers, None)
      end
    end
  end.

(** The descriptions among the answers, in order. *)
Definition resolved (answers : list (StageID * option StageDescription))
  : list StageDescription :=
  omap snd answers.

(** How many entries of a list of stage ids equal [stageID]. *)
Definition occurrences (stageID : StageID) (stageIDs : list StageID) : nat :=
  List.length (List.filter (fun existing => IsEqual existing stageID) stageIDs).
End Observations.

(* ===================================================================== *)
(** * Package manager: further functions *)
(* ===================================================================== *)

(** The two fields of [StorageManager] that [EnableParallel] sets. *)
Record Parallelism := mkParallelism {
  parallel : bool;
  parallelTasksLimit : Z;
}.

Definition EnableParallel (p : Parallelism) (limit : Z) : Parallelism :=
  {| parallel := true; parallelTasksLimit := limit |}.

Definition MaxNumberOfWorkers (p : Parallelism) : Z :=
  if parallel p && (0 <? parallelTasksLimit p)%Z then parallelTasksLimit p else 1%Z.

Section ManagerFurther.
Context {World Image LockHandle Conveyor : Type}.
Context `{FOREIGN : Foreign} `{EXTERNALS : @Externals World Image LockHandle}.

Definition InitCache (m : @StorageManager World Image LockHandle)
  : @M World Image LockHandle (option error) :=
  match FinalStagesStorage m with
  | Some _ =>
    '(_, err) ← getOrCreateFinalStagesListCache m;
    match err with
    | Some e =>
      mret (Some (Errorf ("unable to get or create final stages list cache: " +:+ Error e)))
    | None => mret None
    end
  | None => mret None
  end.

(** The loop of [CopyStageIntoCache]; a failed copy is logged as a
    warning and nothing else. *)
Fixpoint CopyStageIntoCache_tiers (m : @StorageManager World Image LockHandle)
    (stg : @Stage World Image Conveyor) (containerRuntime : @ContainerRuntime World Image)
    (cacheStagesStorageList : list (@StagesStorage World Image))
  : @M World Image LockHandle unit :=
  match cacheStagesStorageList with
  | [] => mret tt
  | cacheStagesStorage :: rest =>
    stageID ← StageIDOf stg;
    _ ← copyStageIntoStagesStorage (ProjectName m) stageID (GetImage stg)
          cacheStagesStorage containerRuntime;
    CopyStageIntoCache_tiers m stg containerRuntime rest
  end.

Definition CopyStageIntoCache (m : @StorageManager World Image LockHandle)
    (stg : @Stage World Image Conveyor) (containerRuntime : @ContainerRuntime World Image)
  : @M World Image LockHandle (option error) :=
  _ ← CopyStageIntoCache_tiers m stg containerRuntime (CacheStagesStorageList m);
  mret None.

Definition AtomicStoreStagesByDigestToCache (m : @StorageManager World Image LockHandle)
    (stageName stageDigest : string) (stageIDs : list StageID)
  : @M World Image LockHandle (option error) :=
  '(lock, err) ← call (EvLockStageCache (ProjectName m) stageDigest)
                      (LockStageCache (StorageLockManager m) (ProjectName m) stageDigest);
  match err with
  | Some e =>
    mret (Some (Errorf ("error locking stage " +:+ stageName +:+ " cache by digest "
                          +:+ stageDigest +:+ ": " +:+ Error e)))
  | None =>
    defer (_ ← call (EvUnlock lock) (Unlock (StorageLockManager m) lock); mret tt)
          (err ← call (EvCacheStoreStagesByDigest (ProjectName m) stageDigest stageIDs)
                      (Cache_StoreStagesByDigest (m_StagesStorageCache m) (ProjectName m)
                         stageDigest stageIDs);
           match err with
           | Some e =>
             mret (Some (Errorf ("error storing stage " +:+ stageName
                     +:+ " images by digest " +:+ stageDigest +:+ " into storage cache: "
                     +:+ Error e)))
           | None => mret None
           end)
  end.

Definition GetStagesByDigestFromStagesStorage (m : @StorageManager World Image LockHandle)
    (stageName stageDigest : string) (stagesStorage : @StagesStorage World Image)
  : @M World Image LockHandle (list StageDescription * option error) :=
  '(stageIDs, err) ← getStagesIDsByDigestFromStagesStorage m stageName stageDigest
                       stagesStorage;
  match err with
  | Some e =>
    mret ([], Some (Errorf ("unable to get stages ids from " +:+ StorageString stagesStorage
            +:+ " by digest " +:+ stageDigest +:+ " for stage " +:+ stageName +:+ ": "
            +:+ Error e)))
  | None =>
    '(stages, err) ← getStagesDescriptions m stageIDs stagesStorage
                       (CacheStagesStorageList m);
    match err with
    | Some e =>
      mret ([], Some (Errorf ("unable to get stage descriptions by ids from "
              +:+ StorageString stagesStorage +:+ ": " +:+ Error e)))
    | None => mret (stages, None)
    end
  end.


(* =================================================================== *)
(** ** What a run may do *)

(** The state after a call that is logged. *)
Definition after (s : @State World Image LockHandle) (ev : @Event World Image LockHandle)
    (w : World) : @State World Image LockHandle :=
  mkState w (trace s ++ [ev])%list (SharedHostImagesLocks s) (FinalStagesListCache s).

(** A computation takes every state to one that [T] relates it to. *)
Definition moves {A} (T : @State World Image LockHandle -> @State World Image LockHandle -> Prop)
    (c : @M World Image LockHandle A) : Prop :=
  forall s r s', c s = (r, s') -> T s s'.

(** From [s] to [s'] the trace grows by events that satisfy [P], and
    [FinalStagesListCache] stays as it is. *)
Definition grows (P : @Event World Image LockHandle -> Prop)
    (s s' : @State World Image LockHandle) : Prop :=
  FinalStagesListCache s' = FinalStagesListCache s
  /\ exists evs, trace s' = (trace s ++ evs)%list /\ Forall P evs.


(** A computation never panics, and every result it returns satisfies
    [Q]. *)
Definition answers {A} (Q : A -> Prop) (c : @M World Image LockHandle A) : Prop :=
  forall s, exists r s', c s = (Returned r, s') /\ Q r.

(** The calls the resolver may make for [stageID] on [stagesStorage]:
    the manifest cache when it is enabled, [GetStageDescription] of the
    tier or of a cache tier, [RejectStage] of the tier itself when the
    reset of the index is allowed. *)
Definition resolverCall (projectName : string) (stageID : StageID)
    (stagesStorage : @StagesStorage World Image)
    (cacheStagesStorageList : list (@StagesStorage World Image))
    (opts : getStageDescriptionOptions) (ev : @Event World Image LockHandle) : Prop :=
  match ev with
  | EvGetImageInfo _ _ | EvStoreImageInfo _ _ => WithLocalManifestCache opts = true
  | EvGetStageDescription st p d u =>
    (st = stagesStorage \/ In st cacheStagesStorageList)
    /\ p = projectName /\ d = Digest stageID /\ u = UniqueID stageID
  | EvRejectStage st p d u =>
    AllowStagesStorageCacheReset opts = true
    /\ st = stagesStorage /\ p = projectName /\ d = Digest stageID /\ u = UniqueID stageID
  | _ => False
  end.

(** The calls of a listing of [stagesStorage] by digest with the
    descriptions resolved: no call of the index, of the lock manager
    or of [RejectStage]. *)
Definition listingCall (m : @StorageManager World Image LockHandle) (stageDigest : string)
    (stagesStorage : @StagesStorage World Image) (ev : @Event World Image LockHandle) : Prop :=
  match ev with
  | EvGetStagesIDsByDigest st p d =>
    st = stagesStorage /\ p = ProjectName m /\ d = stageDigest
  | EvGetImageInfo _ _ | EvStoreImageInfo _ _ => getWithLocalManifestCacheOption m = true
  | EvGetStageDescription st p _ _ =>
    (st = stagesStorage \/ In st (CacheStagesStorageList m)) /\ p = ProjectName m
  | _ => False
  end.

(** The calls of a lookup in the index with the descriptions
    resolved: the index is read, and the resolver works on the primary
    tier. *)
Definition lookupCall (m : @StorageManager World Image LockHandle) (stageDigest : string)
    (ev : @Event World Image LockHandle) : Prop :=
  match ev with
  | EvCacheGetStagesByDigest p d => p = ProjectName m /\ d = stageDigest
  | EvGetImageInfo _ _ | EvStoreImageInfo _ _ => getWithLocalManifestCacheOption m = true
  | EvGetStageDescription st p _ _ =>
    (st = m_StagesStorage m \/ In st (CacheStagesStorageList m)) /\ p = ProjectName m
  | EvRejectStage st p _ _ => st = m_StagesStorage m /\ p = ProjectName m
  | _ => False
  end.

(** The calls [GetStagesByDigest] may make: those of a lookup, and
    those of a refresh of the index from the primary tier. *)
Definition indexCall (m : @StorageManager World Image LockHandle) (stageDigest : string)
    (ev : @Event World Image LockHandle) : Prop :=
  match ev with
  | EvLockStageCache p d | EvCacheStoreStagesByDigest p d _ =>
    p = ProjectName m /\ d = stageDigest
  | EvUnlock _ => True
  | EvGetStagesIDsByDigest st p d =>
    st = m_StagesStorage m /\ p = ProjectName m /\ d = stageDigest
  | _ => lookupCall m stageDigest ev
  end.

(** A call of the lock manager. *)
Definition isLockCall (ev : @Event World Image LockHandle) : bool :=
  match ev with
  | EvLockStageCache _ _ | EvUnlock _ => true
  | _ => false
  end.


(** The calls of a critical section on the index of [stageDigest]:
    the lock is asked for first; when it is not granted nothing
    follows; when it is, it is released last and the lock manager is
    not called in between. *)
Definition criticalSection (projectName stageDigest : string)
    (lock : LockHandle * option error) (evs : list (@Event World Image LockHandle)) : Prop :=
  match lock with
  | (_, Some _) => evs = [EvLockStageCache projectName stageDigest]
  | (handle, None) =>
    exists inside,
      evs = (EvLockStageCache projectName stageDigest :: inside ++ [EvUnlock handle])%list
      /\ Forall (fun ev => isLockCall ev = false) inside
  end.

(** The calls [FetchStage] may make: the host lock is shared, images
    are looked for and fetched on the primary tier and the cache tiers,
    stored into cache tiers only, renamed without removal of the old
    name. *)
Definition fetchCall (m : @StorageManager World Image LockHandle)
    (ev : @Event World Image LockHandle) : Prop :=
  match ev with
  | EvAcquireHostLock _ shared => shared = true
  | EvShouldFetchImage st _ | EvFetchImage st _ =>
    st = m_StagesStorage m \/ In st (CacheStagesStorageList m)
  | EvGetStageDescription st p _ _ =>
    (st = m_StagesStorage m \/ In st (CacheStagesStorageList m)) /\ p = ProjectName m
  | EvStoreImage st _ => In st (CacheStagesStorageList m)
  | EvRenameImage _ _ removeOld => removeOld = false
  | EvRefreshImageObject _ | EvNewStageImage _ | EvSetStageDescription _ _
  | EvStoreImageInfo _ _ | EvAccessImage _ => True
  | _ => False
  end.



(** The new name, when the event is a call of [RenameImage]. *)
Definition renamedTo (ev : @Event World Image LockHandle) : option string :=
  match ev with
  | EvRenameImage _ newName _ => Some newName
  | _ => None
  end.

(** Exactly one of a description and an error is there. *)
Definition oneOf {A} (r : option A * option error) : Prop :=
  match r with
  | (Some _, None) | (None, Some _) => True
  | _ => False
  end.
(** A piece of the resolver that executed [return] handed on exactly
    one of a description and an error. *)
Definition returnsOneOf (r : Returns (option StageDescription * option error)) : Prop :=
  match r with
  | Some res => oneOf res
  | None => True
  end.

(** What the resolver answers: exactly one of a description and an
    error, or neither of them when the reset of the index is not
    allowed. *)
Definition resolverAnswer (opts : getStageDescriptionOptions)
    (r : option StageDescription * option error) : Prop :=
  oneOf r \/ (AllowStagesStorageCacheReset opts = false /\ r = (None, None)).

(** What [GetStagesByDigest] answers: with an error no description,
    without an error no nil entry. *)
Definition digestAnswer (r : StageDescriptionPtrs * option error) : Prop :=
  match r with
  | (stages, Some _) => stages = []
  | (stages, None) => Forall (fun d => d <> None) stages
  end.
End ManagerFurther.

(* ===================================================================== *)
(** * Package maintenance_helper: further functions *)
(* ===================================================================== *)

Module maintenance_helper_further.
Import maintenance_helper.

Record MaintenanceHelperOptions := mkMaintenanceHelperOptions {
  opt_Helm2ReleaseStorageNamespace : string;
  opt_Helm2ReleaseStorageType : string;
}.

Definition NewMaintenanceHelper (opts : MaintenanceHelperOptions) : MaintenanceHelper :=
  let releaseStorageType :=
    if String.eqb (opt_Helm2ReleaseStorageType opts) EmptyString
    then "configmap" else opt_Helm2ReleaseStorageType opts in
  let releaseStorageNamespace :=
    if String.eqb (opt_Helm2ReleaseStorageNamespace opts) EmptyString
    then "kube-system" else opt_Helm2ReleaseStorageNamespace opts in
  {| Helm2ReleaseStorageNamespace := releaseStorageNamespace;
     Helm2ReleaseStorageType := releaseStorageType;
     v2Storage := None |}.

Definition CheckHelm2StorageAvailable `{Foreign} (c : Cluster) (helper : MaintenanceHelper)
  : MaintenanceHelper * (bool * option error) :=
  let '(helper, (storage, err)) := initHelm2Storage helper in
  match storage, err with
  | _, Some e =>
    (helper, (false, Some (Errorf ("error initializing helm 2 v2Storage: " +:+ Error e))))
  | None, None => (helper, (false, None)) (* not reached: no error, a storage *)
  | Some storage, None =>
    let '(_, err) := ListReleases (v2Releases c (StorageDriver storage)) in
    (helper, (match err with None => true | Some _ => false end, None))
  end.

Section Deletion.
(** The helm 2 release storage as it changes: what a listing sees of
    it, and [storage.Delete] of package k8s.io/helm/pkg/storage, which
    acts on it. *)
Context {Store : Type}.
Variable cluster : Store -> Cluster.
Variable StorageDelete : Storage -> string -> Z -> Store -> option error * Store.

(** The loop of [DeleteHelm2ReleaseMetadata] over the releases found;
    [calls] logs the calls of [storage.Delete] made so far. The call of
    [fmt.Errorf] has two operands for three verbs, so the text ends
    with what package fmt prints for the missing one. *)
Fixpoint DeleteHelm2ReleaseMetadata_releases `{Foreign} (storage : Storage)
    (releases : list Release) (st : Store) (calls : list (string * Z))
  : (Store * list (string * Z)) * option error :=
  match releases with
  | [] => ((st, calls), None)
  | rel :: rest =>
    let '(err, st) := StorageDelete storage (Name rel) (Version rel) st in
    let calls := (calls ++ [(Name rel, Version rel)])%list in
    match err with
    | Some _ =>
      ((st, calls),
       Some (Errorf ("error deleting helm 2 release " +:+ fmt_q (Name rel) +:+ " version "
                       +:+ fmt_d (Version rel) +:+ ": %!s(MISSING)")))
    | None => DeleteHelm2ReleaseMetadata_releases storage rest st calls
    end
  end.

Definition DeleteHelm2ReleaseMetadata `{Foreign} (helper : MaintenanceHelper)
    (releaseName : string) (st : Store)
  : (MaintenanceHelper * (Store * list (string * Z))) * option error :=
  let '(helper, (storage, err)) := initHelm2Storage helper in
  match storage, err with
  | _, Some e => ((helper, (st, [])), Some e)
  | None, None => ((helper, (st, [])), None) (* not reached: no error, a storage *)
  | Some storage, None =>
    let '(releases, err) :=
      ListFilterAll (v2Releases (cluster st) (StorageDriver storage))
                    (fun rel => String.eqb (Name rel) releaseName) in
    match err with
    | Some e => ((helper, (st, [])), Some e)
    | None =>
      if (List.length releases =? 0)%nat then ((helper, (st, [])), None)
      else
        let '(after, err) := DeleteHelm2ReleaseMetadata_releases storage releases st [] in
        ((helper, after), err)
    end
  end.
End Deletion.

End maintenance_helper_further.

(* ===================================================================== *)
(** * A concrete setting *)
(* ===================================================================== *)

(** Collaborators simple enough to run: the world counts the calls made
    so far, image handles and lock handles are numbers. *)
Module fixture.

Definition stageX : StageID := mkStageID "d1" 1700000000123.
Definition stageY : StageID := mkStageID "d1" 1700000000456.

Definition infoOf (name : string) : Info :=
  {| Name := name; Repository := "registry/app"; Tag := "d1-1700000000123";
     RepoDigest := "sha256:0a"; ID := "sha256:0b"; ParentID := "sha256:0c";
     Labels := ∅; Size := 2048; CreatedAtUnixNano := 1700000000123000000 |}.

Definition descX : StageDescription :=
  mkStageDescription stageX (infoOf "registry/app:d1-1700000000123").

#[export] Instance foreign : Foreign :=
  {| ErrBrokenImageText := "broken image";
     LocalStorageAddress := ":local";
     StageID_String := fun id => Digest id +:+ "-" +:+ fmt_d (UniqueID id);
     ImageLockName := fun name => "image/" +:+ name;
     fmt_q := fun s => "'" +:+ s +:+ "'";
     yaml_Marshal := fun d => (Name (descInfo d), None) |}.

#[export] Instance externals : @Externals nat nat nat :=
  {| GetImageInfo := fun _ _ w => ((None, None), S w);
     StoreImageInfo := fun _ _ w => (None, S w);
     AccessImage := fun _ w => (None, S w);
     AcquireHostLock := fun _ _ w => ((true, w, None), S w);
     NewStageImage := fun _ w => (w, S w);
     ImageName := fun _ _ => "registry/app:d1-1700000000123";
     ImageGetStageDescription := fun _ _ => Some descX;
     ImageSetStageDescription := fun _ _ w => w;
     TimeNow := fun w => (mkTime 1700000000 123456789, S w) |}.

(** A tier that lists [ids], answers a description request through
    [answer], answers a rejection with [reject] and says [shouldFetch]
    when asked whether an image is to be fetched. *)
Definition tier (address : string) (ids : list StageID)
    (answer : string -> Z -> option StageDescription * option error)
    (reject : option error) (shouldFetch : bool) : @StagesStorage nat nat :=
  {| Address := address;
     StorageString := address;
     ConstructStageImageName := fun _ digest uniqueID =>
       address +:+ ":" +:+ digest +:+ "-" +:+ fmt_d uniqueID;
     GetStagesIDs := fun _ w => ((ids, None), S w);
     GetStagesIDsByDigest := fun _ _ w => ((ids, None), S w);
     GetStageDescription := fun _ digest uniqueID w => (answer digest uniqueID, S w);
     RejectStage := fun _ _ _ w => (reject, S w);
     ShouldFetchImage := fun _ w => ((shouldFetch, None), S w);
     FetchImage := fun _ w => (None, S w);
     StoreImage := fun _ w => (None, S w) |}.

Definition absent : string -> Z -> option StageDescription * option error :=
  fun _ _ => (None, None).
Definition broken : string -> Z -> option StageDescription * option error :=
  fun _ _ => (None, Some ErrBrokenImage).
(** Holds [stageX] and nothing else. *)
Definition onlyX : string -> Z -> option StageDescription * option error :=
  fun digest uniqueID =>
    if IsEqual (mkStageID digest uniqueID) stageX then (Some descX, None) else (None, None).

Definition runtime : @ContainerRuntime nat nat :=
  {| IsLocalDockerServerRuntime := true;
     RenameImage := fun _ _ _ w => (None, S w);
     RefreshImageObject := fun _ w => (None, S w) |}.

Definition stage : @Stage nat nat unit :=
  {| StageName := "install"; GetDigest := "d1"; LogDetailedName := "app/install";
     GetImage := 0%nat;
     Stage_SelectSuitableStage := fun _ stages w => ((head stages, None), S w) |}.

Definition locks : @LockManager nat nat :=
  {| LockStageCache := fun _ _ w => ((w, None), S w);
     Unlock := fun _ w => (None, S w) |}.

(** An index that holds nothing. *)
Definition emptyIndex : @StagesStorageCache nat :=
  {| CacheString := "index";
     Cache_GetStagesByDigest := fun _ _ w => ((false, [], None), S w);
     Cache_StoreStagesByDigest := fun _ _ _ w => (None, S w) |}.

Definition manager (primary : @StagesStorage nat nat)
    (final : option (@StagesStorage nat nat))
    (caches : list (@StagesStorage nat nat)) : @StorageManager nat nat nat :=
  {| ProjectName := "app"; StorageLockManager := locks;
     m_StagesStorageCache := emptyIndex; m_StagesStorage := primary;
     FinalStagesStorage := final; CacheStagesStorageList := caches;
     SecondaryStagesStorageList := [] |}.

Definition start : @State nat nat nat := mkState 0%nat [] [] None.

(** A primary tier whose image of every stage is broken, one on which
    the rejection fails as well, and a cache tier that holds nothing. *)
Definition primaryBroken := tier "registry/app" [] broken None true.
Definition primaryBrokenRejectFails :=
  tier "registry/app" [] broken (Some (Errorf "registry unreachable")) true.
Definition cacheEmpty := tier "cache/app" [] absent None true.

(** A primary tier that lists [stageX] and [stageY] and holds a
    description of [stageX] only; the same with the image of the stage
    at hand already present locally. *)
Definition primaryXY := tier "registry/app" [stageX; stageY] onlyX None true.
Definition primaryLocal := tier "registry/app" [stageX] onlyX None false.

(** A final repo that lists nothing, and one that lists [stageX] twice. *)
Definition finalEmpty := tier "final/app" [] absent None true.
Definition finalTwice := tier "final/app" [stageX; stageX] onlyX None true.

(** The state a refresh of the index for "d1" leaves behind, from
    [start], with [primaryXY] as the primary tier and no cache tier. *)
Definition afterRefresh : @State nat nat nat :=
  mkState 10%nat
    [EvCacheGetStagesByDigest "app" "d1";
     EvLockStageCache "app" "d1";
     EvGetStagesIDsByDigest primaryXY "app" "d1";
     EvGetImageInfo "registry/app" "registry/app:d1-1700000000123";
     EvGetStageDescription primaryXY "app" "d1" 1700000000123;
     EvStoreImageInfo "registry/app" (infoOf "registry/app:d1-1700000000123");
     EvGetImageInfo "registry/app" "registry/app:d1-1700000000456";
     EvGetStageDescription primaryXY "app" "d1" 1700000000456;
     EvCacheStoreStagesByDigest "app" "d1" [stageX];
     EvUnlock 1%nat]
    [] None.

(** The state the copy of [stage] into [finalEmpty] leaves behind, from
    [start], with [primaryLocal] as the primary tier. *)
Definition afterCopy : @State nat nat nat :=
  mkState 8%nat
    [EvGetStagesIDs finalEmpty "app";
     EvAcquireHostLock "image/registry/app:d1-1700000000123" true;
     EvShouldFetchImage primaryLocal 0%nat;
     EvAccessImage "registry/app:d1-1700000000123";
     EvRenameImage 0%nat "final/app:d1-1700000000123" false;
     EvStoreImage finalEmpty 0%nat;
     EvStoreImageInfo "final/app"
       (descInfo (convertStageDescriptionForStagesStorage descX finalEmpty));
     EvAccessImage "final/app:d1-1700000000123"]
    [1%nat] (Some (mkStagesList [stageX])).

(** Releases of a helm 2 storage: two revisions of "web", one of "db". *)
Definition web1 := maintenance_helper.mkRelease "web" 1 "prod" "kind: Deployment".
Definition web2 := maintenance_helper.mkRelease "web" 2 "prod" "kind: Deployment".
Definition db1 := maintenance_helper.mkRelease "db" 1 "prod" "kind: StatefulSet".

Definition cluster : maintenance_helper.Cluster :=
  maintenance_helper.mkCluster
    (fun _ => maintenance_helper.Holds [web1; db1; web2])
    (maintenance_helper.Holds [web1; db1; web2]).

Definition helper : maintenance_helper.MaintenanceHelper :=
  maintenance_helper.mkMaintenanceHelper "kube-system" "configmap" None.

#[export] Instance revision_le_dec (a b : maintenance_helper.Release)
  : Decision (maintenance_helper.revision_le a b) :=
  Z_le_dec (maintenance_helper.Version a) (maintenance_helper.Version b).

(** A sort by revision that can be run. *)
Definition SortByRevision (l : list maintenance_helper.Release)
  : list maintenance_helper.Release :=
  merge_sort maintenance_helper.revision_le l.

End fixture.

(** More of the concrete setting: an index that answers, tiers and a
    runtime that fail in one way each. *)
Module fixture_further.
Import fixture.

(** An index that names [stageX] for every digest. *)
Definition indexOfX : @StagesStorageCache nat :=
  {| CacheString := "index";
     Cache_GetStagesByDigest := fun _ _ w => ((true, [stageX], None), S w);
     Cache_StoreStagesByDigest := fun _ _ _ w => (None, S w) |}.

Definition managerWith (index : @StagesStorageCache nat) (primary : @StagesStorage nat nat)
    (final : option (@StagesStorage nat nat))
    (caches : list (@StagesStorage nat nat)) : @StorageManager nat nat nat :=
  {| ProjectName := "app"; StorageLockManager := locks;
     m_StagesStorageCache := index; m_StagesStorage := primary;
     FinalStagesStorage := final; CacheStagesStorageList := caches;
     SecondaryStagesStorageList := [] |}.

(** A primary tier that no longer holds any stage. *)
Definition primaryGone := tier "registry/app" [] absent None true.

(** A cache tier whose image of the stage is present locally. *)
Definition cacheLocal := tier "cache/app" [] onlyX None false.

(** A runtime on which [RenameImage] fails. *)
Definition runtimeNoRename : @ContainerRuntime nat nat :=
  {| IsLocalDockerServerRuntime := true;
     RenameImage := fun _ _ _ w => (Some (Errorf "no such image"), S w);
     RefreshImageObject := fun _ w => (None, S w) |}.

End fixture_further.

(* ===================================================================== *)
(** * Properties: strings and errors *)
(* ===================================================================== *)

Lemma append_cons (c : Ascii.ascii) (a b : string) :
  String c a +:+ b = String c (a +:+ b).
Proof. reflexivity. Qed.

Lemma substring_all (t : string) : String.substring 0 (String.length t) t = t.
Proof. induction t as [|c t IH]; simpl; [reflexivity | by rewrite IH]. Qed.

Lemma substring_drop_prefix (p t : string) (n : nat) :
  String.substring (String.length p) n (p +:+ t) = String.substring 0 n t.
Proof.
  induction p as [|c p IH]; [reflexivity |].
  rewrite append_cons. simpl. exact IH.
Qed.

Lemma length_append (p t : string) :
  String.length (p +:+ t) = (String.length p + String.length t)%nat.
Proof.
  induction p as [|c p IH]; [reflexivity |].
  rewrite append_cons. simpl. by rewrite IH.
Qed.

Lemma substring_split (s : string) (n : nat) :
  (n <= String.length s)%nat ->
  s = String.substring 0 n s +:+ String.substring n (String.length s - n) s.
Proof.
  revert n. induction s as [|c s IH]; intros [|n] Hn; simpl in *.
  - reflexivity.
  - lia.
  - by rewrite substring_all.
  - rewrite append_cons. f_equal. apply IH. lia.
Qed.

(** [strings.HasSuffix] holds exactly of the strings that end with the
    suffix. *)
Lemma HasSuffix_iff (s t : string) :
  HasSuffix s t = true <-> exists p, s = p +:+ t.
Proof.
  unfold HasSuffix, slice_from. split.
  - intros [Hlen Heq]%andb_prop.
    apply Nat.leb_le in Hlen. apply String.eqb_eq in Heq.
    exists (String.substring 0 (String.length s - String.length t) s).
    pose proof (substring_split s (String.length s - String.length t)) as Hs.
    rewrite Heq in Hs. apply Hs. lia.
  - intros [p ->]. rewrite length_append.
    replace (String.length p + String.length t - String.length t)%nat
      with (String.length p) by lia.
    replace (String.length p + String.length t - String.length p)%nat
      with (String.length t) by lia.
    rewrite substring_drop_prefix, substring_all, String.eqb_refl.
    rewrite andb_true_r. apply Nat.leb_le. lia.
Qed.

Lemma append_assoc (a b c : string) : (a +:+ b) +:+ c = a +:+ (b +:+ c).
Proof.
  induction a as [|x a IH]; [reflexivity |].
  rewrite !append_cons. by rewrite IH.
Qed.

(** C2. [ShouldResetStagesStorageCache] holds of an error exactly when it
    is not nil and its text ends with "should reset storage cache";
    [IsStageNotFound] holds exactly when it is not nil and its text ends
    with "stage not found"; so an error whose text is a prefix followed
    by the text of an error that satisfies a predicate, as [fmt.Errorf]
    with a trailing [%s] makes it, satisfies that predicate too, the two
    sentinels wrapped this way among them. *)
Theorem suffix_predicates `{Foreign} (err : option error) :
  (ShouldResetStagesStorageCache err = true
   <-> exists e p, err = Some e /\ Error e = p +:+ "should reset storage cache")
  /\ (IsStageNotFound err = true
      <-> exists e p, err = Some e /\ Error e = p +:+ "stage not found")
  /\ (forall e prefix,
        ShouldResetStagesStorageCache (Some e) = true ->
        ShouldResetStagesStorageCache (Some (Errorf (prefix +:+ Error e))) = true)
  /\ (forall e prefix,
        IsStageNotFound (Some e) = true ->
        IsStageNotFound (Some (Errorf (prefix +:+ Error e))) = true)
  /\ (forall prefix,
        ShouldResetStagesStorageCache
          (Some (Errorf (prefix +:+ Error ErrShouldResetStagesStorageCache))) = true
        /\ IsStageNotFound (Some (Errorf (prefix +:+ Error ErrStageNotFound))) = true).
Proof.
  assert (Hwrap : forall s t prefix,
             HasSuffix s t = true -> HasSuffix (prefix +:+ s) t = true).
  { intros s t prefix [p ->]%HasSuffix_iff. apply HasSuffix_iff.
    exists (prefix +:+ p). by rewrite append_assoc. }
  repeat split.
  - destruct err as [e|]; simpl; [| discriminate].
    intros [p Hp]%HasSuffix_iff. by exists e, p.
  - intros (e & p & -> & Hp). simpl. apply HasSuffix_iff. by exists p.
  - destruct err as [e|]; simpl; [| discriminate].
    intros [p Hp]%HasSuffix_iff. by exists e, p.
  - intros (e & p & -> & Hp). simpl. apply HasSuffix_iff. by exists p.
  - intros e prefix He. simpl in *. by apply Hwrap.
  - intros e prefix He. simpl in *. by apply Hwrap.
  - simpl. apply HasSuffix_iff. by exists prefix.
  - simpl. apply HasSuffix_iff. by exists prefix.
Qed.

(** The predicates at work on a wrapped sentinel and on a nil error. *)
Lemma suffix_predicates_witness :
  ShouldResetStagesStorageCache (H := fixture.foreign)
    (Some (Errorf ("unable to fetch stage app/install: " +:+ "should reset storage cache")))
  = true
  /\ ShouldResetStagesStorageCache (H := fixture.foreign) None = false.
Proof.
  split; [| reflexivity].
  exact (proj1 (proj2 (proj2 (@suffix_predicates fixture.foreign None)))
           ErrShouldResetStagesStorageCache "unable to fetch stage app/install: "
           eq_refl).
Defined.

(* ===================================================================== *)
(** * Properties: rebranding *)
(* ===================================================================== *)

(** C6. Rebranding a description for a tier keeps the stage id, digest
    and unique id alike, and every field of the info except [Name] and
    [Repository]; rebranding twice for the same tier gives what
    rebranding once gives; and the stage id is the same after any chain
    of rebrandings. *)
Theorem rebranding {World Image : Type} (d : StageDescription)
    (T : @StagesStorage World Image) (chain : list (@StagesStorage World Image)) :
  descStageID (convertStageDescriptionForStagesStorage d T) = descStageID d
  /\ Tag (descInfo (convertStageDescriptionForStagesStorage d T)) = Tag (descInfo d)
  /\ RepoDigest (descInfo (convertStageDescriptionForStagesStorage d T))
     = RepoDigest (descInfo d)
  /\ ID (descInfo (convertStageDescriptionForStagesStorage d T)) = ID (descInfo d)
  /\ ParentID (descInfo (convertStageDescriptionForStagesStorage d T))
     = ParentID (descInfo d)
  /\ Labels (descInfo (convertStageDescriptionForStagesStorage d T)) = Labels (descInfo d)
  /\ Size (descInfo (convertStageDescriptionForStagesStorage d T)) = Size (descInfo d)
  /\ CreatedAtUnixNano (descInfo (convertStageDescriptionForStagesStorage d T))
     = CreatedAtUnixNano (descInfo d)
  /\ convertStageDescriptionForStagesStorage
       (convertStageDescriptionForStagesStorage d T) T
     = convertStageDescriptionForStagesStorage d T
  /\ descStageID (fold_left convertStageDescriptionForStagesStorage chain d)
     = descStageID d.
Proof.
  assert (Hid : forall d' (T' : @StagesStorage World Image),
             descStageID (convertStageDescriptionForStagesStorage d' T') = descStageID d').
  { intros [[dg u] i] T'. reflexivity. }
  repeat split; try reflexivity.
  - apply Hid.
  - revert d. induction chain as [|T' chain IH]; intros d; simpl; [reflexivity |].
    by rewrite IH, Hid.
Qed.

(* ===================================================================== *)
(** * Properties: helm releases *)
(* ===================================================================== *)

Section HelmLists.
Import maintenance_helper.

Lemma containsName_In (res : list string) (name : string) :
  containsName res name = true <-> In name res.
Proof.
  induction res as [|n res IH]; simpl; [by split |].
  destruct (String.eqb_spec n name) as [-> | Hne].
  - split; auto.
  - rewrite IH. split; [auto | intros [? | ?]; [congruence | done]].
Qed.

Lemma containsName_app (res : list string) (n name : string) :
  containsName (res ++ [n])%list name = containsName res name || String.eqb n name.
Proof.
  induction res as [|x res IH]; simpl.
  - by destruct (String.eqb n name).
  - destruct (String.eqb x name); [reflexivity | exact IH].
Qed.

Lemma filter_twice {A} (f g : A -> bool) (l : list A) :
  List.filter f (List.filter g l) = List.filter (fun x => g x && f x) l.
Proof.
  induction l as [|a l IH]; simpl; [reflexivity |].
  destruct (g a); simpl; [destruct (f a); by rewrite IH | exact IH].
Qed.

Lemma AppendUniqReleases_from (releases : list Release) (res : list string) :
  fold_left appendUniq releases res
  = (res ++ List.filter (fun x => negb (containsName res x))
                        (firstOccurrences (map Name releases)))%list.
Proof.
  revert res. induction releases as [|rel releases IH]; intros res; simpl.
  - by rewrite app_nil_r.
  - rewrite IH. unfold appendUniq.
    destruct (containsName res (Name rel)) eqn:Hin; simpl.
    + f_equal. rewrite filter_twice. apply List.filter_ext.
      intros x. destruct (String.eqb_spec x (Name rel)) as [-> | Hne]; simpl.
      * by rewrite Hin.
      * reflexivity.
    + rewrite <- app_assoc. simpl. f_equal. f_equal.
      rewrite filter_twice. apply List.filter_ext.
      intros x. rewrite containsName_app, negb_orb, (String.eqb_sym (Name rel)).
      apply andb_comm.
Qed.

Lemma AppendUniqReleases_firstOccurrences (releases : list Release) :
  AppendUniqReleases releases = firstOccurrences (map Name releases).
Proof.
  unfold AppendUniqReleases. rewrite AppendUniqReleases_from. simpl.
  induction (firstOccurrences (map Name releases)); simpl; [reflexivity | by f_equal].
Qed.

Lemma firstOccurrences_In (names : list string) (x : string) :
  In x (firstOccurrences names) <-> In x names.
Proof.
  induction names as [|n names IH]; simpl; [done |].
  rewrite List.filter_In, IH.
  destruct (String.eqb_spec x n) as [-> | Hne]; simpl.
  - split; auto.
  - split; [intros [? | [? _]]; auto | intros [? | ?]; [congruence | auto]].
Qed.

Lemma firstOccurrences_NoDup (names : list string) :
  List.NoDup (firstOccurrences names).
Proof.
  induction names as [|n names IH]; simpl; [constructor |].
  constructor.
  - rewrite List.filter_In, String.eqb_refl. simpl. intros [_ ?]; done.
  - by apply List.NoDup_filter.
Qed.
End HelmLists.

Section HelmReleases.
Import maintenance_helper.
Context `{Foreign}.

(** C9. [GetHelm2ReleasesList] and [GetHelm3ReleasesList] return the
    names of the releases their storage holds in order of first
    occurrence, each name once: the list has no duplicate and holds
    exactly the names present in the storage. *)
Theorem releases_lists_unique (c : Cluster) (helper helper' : MaintenanceHelper)
    (storage : Storage) (records2 records3 : list Release) :
  initHelm2Storage helper = (helper', (Some storage, None)) ->
  v2Releases c (StorageDriver storage) = Holds records2 ->
  v3Releases c = Holds records3 ->
  GetHelm2ReleasesList c helper
  = (helper', (firstOccurrences (map Name records2), None))
  /\ GetHelm3ReleasesList c helper = (firstOccurrences (map Name records3), None)
  /\ (forall names : list string,
        List.NoDup (firstOccurrences names)
        /\ forall n, In n (firstOccurrences names) <-> In n names).
Proof.
  intros Hinit H2 H3. split; [| split].
  - unfold GetHelm2ReleasesList. rewrite Hinit. unfold ListReleases, DriverList.
    rewrite H2. simpl.
    replace (List.filter (fun _ => true) records2) with records2.
    + by rewrite AppendUniqReleases_firstOccurrences.
    + clear. induction records2; simpl; [reflexivity | by f_equal].
  - unfold GetHelm3ReleasesList, ListReleases, DriverList. rewrite H3. simpl.
    replace (List.filter (fun _ => true) records3) with records3.
    + by rewrite AppendUniqReleases_firstOccurrences.
    + clear. induction records3; simpl; [reflexivity | by f_equal].
  - intros names. split; [apply firstOccurrences_NoDup |].
    intros n. apply firstOccurrences_In.
Qed.

Lemma revision_le_trans : Transitive revision_le.
Proof. unfold revision_le. intros a b c ? ?. lia. Qed.

(** The first element of a reversed sorted list is above all others. *)
Lemma rev_sorted_head (l : list Release) (first : Release) (rest : list Release) :
  Sorted revision_le l -> rev l = first :: rest ->
  forall r, In r l -> Version r <= Version first.
Proof.
  intros Hs Hrev r Hr.
  assert (l = (rev rest ++ [first])%list) as ->.
  { rewrite <- (rev_involutive l), Hrev. reflexivity. }
  apply (@Sorted_StronglySorted _ revision_le revision_le_trans) in Hs.
  apply in_app_or in Hr as [Hr | [<- | []]]; [| lia].
  apply (StronglySorted_app_1_elem_of revision_le _ _ r first Hs).
  - by apply list_elem_of_In.
  - apply list_elem_of_In. by left.
Qed.

Section Sorting.
Variable SortByRevision : list Release -> list Release.
Hypothesis SortByRevision_permutes : forall l, Permutation (SortByRevision l) l.
Hypothesis SortByRevision_sorts : forall l, Sorted revision_le (SortByRevision l).

(** C10. When the helm 2 storage can be set up and listed,
    [GetHelm2ReleaseData] returns an error exactly when the storage
    holds no release of the given name, and the error is "release not
    found"; otherwise it returns a release of that name held by the
    storage whose revision no other release of that name exceeds. *)
Theorem release_data_found_iff (c : Cluster) (helper helper' : MaintenanceHelper)
    (storage : Storage) (records : list Release) (releaseName : string) :
  initHelm2Storage helper = (helper', (Some storage, None)) ->
  v2Releases c (StorageDriver storage) = Holds records ->
  ((exists e, snd (snd (GetHelm2ReleaseData SortByRevision c helper releaseName)) = Some e)
   <-> forall r, In r records -> Name r <> releaseName)
  /\ ((forall r, In r records -> Name r <> releaseName) ->
      GetHelm2ReleaseData SortByRevision c helper releaseName
      = (helper', (None, Some (Errorf "release not found"))))
  /\ ((exists r, In r records /\ Name r = releaseName) ->
      exists first,
        GetHelm2ReleaseData SortByRevision c helper releaseName
        = (helper', (Some (mkHelm2ReleaseData first), None))
        /\ In first records /\ Name first = releaseName
        /\ forall r, In r records -> Name r = releaseName ->
                     Version r <= Version first).
Proof.
  intros Hinit Hholds.
  remember (List.filter (fun rel => String.eqb (Name rel) releaseName) records)
    as matching eqn:Hdef.
  assert (Hmatch : forall r, In r matching <-> In r records /\ Name r = releaseName).
  { intros r. rewrite Hdef, List.filter_In, String.eqb_eq. done. }
  assert (Hrun : GetHelm2ReleaseData SortByRevision c helper releaseName
                 = if (List.length matching =? 0)%nat
                   then (helper', (None, Some (Errorf "release not found")))
                   else match Reverse matching SortByRevision with
                        | first :: _ => (helper', (Some (mkHelm2ReleaseData first), None))
                        | [] => (helper', (None, None))
                        end).
  { unfold GetHelm2ReleaseData. rewrite Hinit. unfold ListFilterAll, DriverList.
    rewrite Hholds, <- Hdef. reflexivity. }
  clear Hdef.
  assert (Hnone : (forall r, In r records -> Name r <> releaseName) ->
                  GetHelm2ReleaseData SortByRevision c helper releaseName
                  = (helper', (None, Some (Errorf "release not found")))).
  { intros Hno. rewrite Hrun. destruct matching as [|r0 ?] eqn:Hm; [reflexivity |].
    exfalso. destruct (proj1 (Hmatch r0)) as [Hin Hname]; [by left |].
    by apply (Hno r0). }
  assert (Hsome : (exists r, In r records /\ Name r = releaseName) ->
      exists first,
        GetHelm2ReleaseData SortByRevision c helper releaseName
        = (helper', (Some (mkHelm2ReleaseData first), None))
        /\ In first records /\ Name first = releaseName
        /\ forall r, In r records -> Name r = releaseName ->
                     Version r <= Version first).
  { intros (r0 & Hin0 & Hname0). rewrite Hrun.
    assert (Hin : In r0 matching) by (apply Hmatch; done).
    destruct (List.length matching =? 0)%nat eqn:Hlen.
    { apply Nat.eqb_eq in Hlen. destruct matching; [done | discriminate]. }
    unfold Reverse.
    assert (Hperm := SortByRevision_permutes matching).
    destruct (rev (SortByRevision matching)) as [|first rest] eqn:Hrev.
    { exfalso. apply (f_equal (@rev Release)) in Hrev.
      rewrite rev_involutive in Hrev. simpl in Hrev. rewrite Hrev in Hperm.
      apply Permutation_nil in Hperm. rewrite Hperm in Hin. done. }
    exists first. split; [reflexivity |].
    assert (Hfirst : In first (SortByRevision matching)).
    { apply in_rev. rewrite Hrev. by left. }
    apply (Permutation_in _ Hperm), Hmatch in Hfirst as [? ?].
    repeat split; [done | done |].
    intros r Hr Hn.
    apply (rev_sorted_head (SortByRevision matching) first rest);
      [apply SortByRevision_sorts | exact Hrev |].
    apply (Permutation_in _ (Permutation_sym Hperm)), Hmatch. done. }
  split; [| split; [exact Hnone | exact Hsome]].
  split.
  - intros [e He] r Hin Hname.
    destruct Hsome as (first & Hres & _); [by exists r |].
    rewrite Hres in He. discriminate.
  - intros Hno. rewrite (Hnone Hno). by eexists.
Qed.
End Sorting.
End HelmReleases.

(** Two revisions of "web" around one of "db": the names come out once
    each, "web" first. *)
Lemma releases_lists_unique_witness :
  snd (maintenance_helper.GetHelm2ReleasesList (H := fixture.foreign)
         fixture.cluster fixture.helper) = (["web"; "db"], None)
  /\ maintenance_helper.GetHelm3ReleasesList fixture.cluster fixture.helper
     = (["web"; "db"], None).
Proof.
  destruct (@releases_lists_unique fixture.foreign fixture.cluster fixture.helper
              _ _ _ _ eq_refl eq_refl eq_refl) as (H2 & H3 & _).
  split; [by rewrite H2 | exact H3].
Defined.

Lemma fixture_SortByRevision_permutes (l : list maintenance_helper.Release) :
  Permutation (fixture.SortByRevision l) l.
Proof. apply merge_sort_Permutation. Qed.

Lemma fixture_SortByRevision_sorts (l : list maintenance_helper.Release) :
  Sorted maintenance_helper.revision_le (fixture.SortByRevision l).
Proof.
  apply Sorted_merge_sort. intros a b. unfold maintenance_helper.revision_le. lia.
Qed.

(** Of the two revisions of "web" the second is returned; of "api" there
    is none. *)
Lemma release_data_found_iff_witness :
  (exists first,
     maintenance_helper.GetHelm2ReleaseData (H := fixture.foreign) fixture.SortByRevision
       fixture.cluster fixture.helper "web"
     = (maintenance_helper.set_v2Storage fixture.helper
          (maintenance_helper.mkStorage (maintenance_helper.ConfigMaps "kube-system")),
        (Some (maintenance_helper.mkHelm2ReleaseData first), None))
     /\ maintenance_helper.Version first = 2)
  /\ maintenance_helper.GetHelm2ReleaseData (H := fixture.foreign) fixture.SortByRevision
       fixture.cluster fixture.helper "api"
     = (maintenance_helper.set_v2Storage fixture.helper
          (maintenance_helper.mkStorage (maintenance_helper.ConfigMaps "kube-system")),
        (None, Some (Errorf "release not found"))).
Proof.
  split.
  - destruct (@release_data_found_iff fixture.foreign fixture.SortByRevision
                fixture_SortByRevision_permutes fixture_SortByRevision_sorts
                fixture.cluster fixture.helper _ _ _ "web" eq_refl eq_refl)
      as (_ & _ & Hsome).
    destruct Hsome as (first & Hres & Hin & Hname & Hmax).
    { exists fixture.web1. split; [by left | reflexivity]. }
    exists first. split; [exact Hres |].
    assert (H2 : maintenance_helper.Version fixture.web2
                 <= maintenance_helper.Version first).
    { apply Hmax; [right; right; by left | reflexivity]. }
    simpl in Hin. destruct Hin as [<- | [<- | [<- | []]]]; simpl in *;
      [lia | discriminate | reflexivity].
  - destruct (@release_data_found_iff fixture.foreign fixture.SortByRevision
                fixture_SortByRevision_permutes fixture_SortByRevision_sorts
                fixture.cluster fixture.helper _ _ _ "api" eq_refl eq_refl)
      as (_ & Hnone & _).
    apply Hnone. intros r [<- | [<- | [<- | []]]]; discriminate.
Defined.

(* ===================================================================== *)
(** * Properties: the storage manager *)
(* ===================================================================== *)

Section ManagerProperties.
Context {World Image LockHandle Conveyor : Type}.
Context `{FOREIGN : Foreign} `{EXTERNALS : @Externals World Image LockHandle}.

Abbreviation M := (@M World Image LockHandle).
Abbreviation State := (@State World Image LockHandle).
Abbreviation Event := (@Event World Image LockHandle).
Abbreviation StagesStorage := (@StagesStorage World Image).
Abbreviation StorageManager := (@StorageManager World Image LockHandle).
Abbreviation Stage := (@Stage World Image Conveyor).
Abbreviation ContainerRuntime := (@ContainerRuntime World Image).

Lemma bind_run {A B} (c : M A) (f : A -> M B) (s : State) :
  (c ≫= f) s = match c s with
               | (Returned a, s') => f a s'
               | (Panicked, s') => (Panicked, s')
               end.
Proof. reflexivity. Qed.

Lemma ret_bind {A B} (a : A) (f : A -> M B) (s : State) : (mret a ≫= f) s = f a s.
Proof. reflexivity. Qed.

Lemma emits_ret {A} (P : Event -> Prop) (a : A) : emits P (mret a : M A).
Proof.
  intros s r s' [= <- <-]. split; [reflexivity |].
  exists []. by rewrite app_nil_r.
Qed.

Lemma emits_panic {A} (P : Event -> Prop) : emits P (panic : M A).
Proof.
  intros s r s' [= <- <-]. split; [reflexivity |].
  exists []. by rewrite app_nil_r.
Qed.

Lemma emits_deref {A} (P : Event -> Prop) (p : option A) : emits P (deref p).
Proof. destruct p; [apply emits_ret | apply emits_panic]. Qed.

Lemma emits_observe {A} (P : Event -> Prop) (f : World -> A) : emits P (observe f).
Proof.
  intros s r s' [= <- <-]. split; [reflexivity |].
  exists []. by rewrite app_nil_r.
Qed.

Lemma emits_get_FinalStagesListCache (P : Event -> Prop) :
  emits P get_FinalStagesListCache.
Proof.
  intros s r s' [= <- <-]. split; [reflexivity |].
  exists []. by rewrite app_nil_r.
Qed.

Lemma emits_append_SharedHostImagesLocks (P : Event -> Prop) (lock : LockHandle) :
  emits P (append_SharedHostImagesLocks lock).
Proof.
  intros s r s' [= <- <-]. split; [reflexivity |].
  exists []. by rewrite app_nil_r.
Qed.

Lemma emits_call {A} (P : Event -> Prop) (ev : Event) (f : World -> A * World) :
  P ev -> emits P (call ev f).
Proof.
  intros Hev s r s'. unfold call. destruct (f (world s)) as [a w].
  intros [= <- <-]. split; [reflexivity |].
  exists [ev]. split; [reflexivity | by constructor].
Qed.

Lemma emits_bind {A B} (P : Event -> Prop) (c : M A) (f : A -> M B) :
  emits P c -> (forall a, emits P (f a)) -> emits P (c ≫= f).
Proof.
  intros Hc Hf s r s'. rewrite bind_run.
  destruct (c s) as [[a|] s1] eqn:Hcs.
  - intros Hfs. destruct (Hc _ _ _ Hcs) as (Hfin1 & evs1 & Htr1 & HP1).
    destruct (Hf a _ _ _ Hfs) as (Hfin2 & evs2 & Htr2 & HP2).
    split; [congruence |]. exists (evs1 ++ evs2)%list.
    split; [by rewrite Htr2, Htr1, app_assoc | by apply Forall_app].
  - intros [= <- <-]. exact (Hc _ _ _ Hcs).
Qed.

Lemma emits_weaken {A} (P Q : Event -> Prop) (c : M A) :
  (forall ev, P ev -> Q ev) -> emits P c -> emits Q c.
Proof.
  intros HPQ Hc s r s' Hrun. destruct (Hc _ _ _ Hrun) as (Hfin & evs & Htr & HP).
  split; [exact Hfin |]. exists evs. split; [exact Htr |].
  eapply Forall_impl; eauto.
Qed.

Create HintDb emits.

Ltac emits_step :=
  first
    [ solve [auto with emits]
    | apply emits_ret | apply emits_panic | apply emits_deref | apply emits_observe
    | apply emits_get_FinalStagesListCache | apply emits_append_SharedHostImagesLocks
    | apply emits_call; done
    | apply emits_bind; [| intros ?]
    | progress cbv beta zeta
    | match goal with
      | |- emits _ (match ?x with _ => _ end) => destruct x
      end ].

Ltac emits_auto := repeat emits_step.

Lemma emits_getStageDescriptionFromLocalManifestCache projectName stageID
    (stagesStorage : StagesStorage) :
  emits quiet (getStageDescriptionFromLocalManifestCache projectName stageID stagesStorage).
Proof. unfold getStageDescriptionFromLocalManifestCache. emits_auto. Qed.
Hint Resolve emits_getStageDescriptionFromLocalManifestCache : emits.

Lemma emits_storeStageDescriptionIntoLocalManifestCache projectName stageID
    (stagesStorage : StagesStorage) stageDesc :
  emits quiet
    (storeStageDescriptionIntoLocalManifestCache projectName stageID stagesStorage stageDesc).
Proof. unfold storeStageDescriptionIntoLocalManifestCache. emits_auto. Qed.
Hint Resolve emits_storeStageDescriptionIntoLocalManifestCache : emits.

Lemma emits_getStageDescription_cache projectName stageID (stagesStorage : StagesStorage)
    opts cache :
  emits quiet (getStageDescription_cache projectName stageID stagesStorage opts cache).
Proof. unfold getStageDescription_cache. emits_auto. Qed.
Hint Resolve emits_getStageDescription_cache : emits.

Lemma emits_getStageDescription_caches projectName stageID (stagesStorage : StagesStorage)
    opts caches :
  emits quiet (getStageDescription_caches projectName stageID stagesStorage opts caches).
Proof. induction caches as [|c caches IH]; simpl; emits_auto. Qed.
Hint Resolve emits_getStageDescription_caches : emits.

Lemma emits_getStageDescription_lookups projectName stageID (stagesStorage : StagesStorage)
    caches opts :
  emits quiet (getStageDescription_lookups projectName stageID stagesStorage caches opts).
Proof. unfold getStageDescription_lookups. emits_auto. Qed.

(* ------------------------------------------------------------------- *)
(** ** The resolver at the tier itself *)

(** C3. When the lookup of a stage id has come to the tier itself (the
    manifest cache and every cache tier missed, and nothing was
    rejected on the way) and the tier reports a broken image: with
    [AllowStagesStorageCacheReset] the resolver calls [RejectStage] on
    that tier and then returns the should-reset sentinel if the
    rejection succeeded, and the rejection's error wrapped if it did
    not; without it the resolver returns no description and no error,
    and does not call [RejectStage]. *)
Theorem broken_image_at_tier (projectName : string) (stageID : StageID)
    (tier : StagesStorage) (caches : list StagesStorage)
    (opts : getStageDescriptionOptions) (s s1 : State)
    (d : option StageDescription) (w2 : World) :
  getStageDescription_lookups projectName stageID tier caches opts s = (Returned None, s1) ->
  GetStageDescription tier projectName (Digest stageID) (UniqueID stageID) (world s1)
  = ((d, Some ErrBrokenImage), w2) ->
  (exists evs, trace s1 = (trace s ++ evs)%list /\ Forall quiet evs)
  /\ (AllowStagesStorageCacheReset opts = true ->
      getStageDescription projectName stageID tier caches opts s
      = (Returned
           (None,
            match fst (RejectStage tier projectName (Digest stageID) (UniqueID stageID) w2)
            with
            | None => Some ErrShouldResetStagesStorageCache
            | Some e =>
              Some (Errorf ("unable to reject stage " +:+ StageID_String stageID
                      +:+ " image "
                      +:+ ConstructStageImageName tier projectName
                            (Digest stageID) (UniqueID stageID)
                      +:+ " in the stages storage " +:+ StorageString tier +:+ ": "
                      +:+ Error e))
            end),
         mkState
           (snd (RejectStage tier projectName (Digest stageID) (UniqueID stageID) w2))
           (trace s1
              ++ [EvGetStageDescription tier projectName (Digest stageID) (UniqueID stageID);
                  EvRejectStage tier projectName (Digest stageID) (UniqueID stageID)])%list
           (SharedHostImagesLocks s1) (FinalStagesListCache s1)))
  /\ (AllowStagesStorageCacheReset opts = false ->
      getStageDescription projectName stageID tier caches opts s
      = (Returned (None, None),
         mkState w2
           (trace s1
              ++ [EvGetStageDescription tier projectName (Digest stageID) (UniqueID stageID)])%list
           (SharedHostImagesLocks s1) (FinalStagesListCache s1))).
Proof.
  intros Hlookups Htier.
  split; [| split].
  - destruct (emits_getStageDescription_lookups _ _ _ _ _ _ _ _ Hlookups) as (_ & Hev).
    exact Hev.
  - intros Hallow. unfold getStageDescription. rewrite bind_run, Hlookups.
    unfold getStageDescription_tier. rewrite bind_run. unfold call at 1.
    rewrite Htier. simpl. rewrite Hallow. rewrite bind_run. unfold call. simpl.
    destruct (RejectStage tier projectName (Digest stageID) (UniqueID stageID) w2)
      as [[e|] w3]; simpl; by rewrite <- app_assoc.
  - intros Hallow. unfold getStageDescription. rewrite bind_run, Hlookups.
    unfold getStageDescription_tier. rewrite bind_run. unfold call at 1.
    rewrite Htier. simpl. rewrite Hallow. reflexivity.
Qed.

(* ------------------------------------------------------------------- *)
(** ** The fetch from the primary tier *)

(** Whatever the tier answers, [doFetchStage] never hands back
    [storage.ErrBrokenImage] itself: an error of the tier comes back
    inside a new error. *)
Lemma doFetchStage_never_broken_image (projectName : string) (stagesStorage : StagesStorage)
    (stageID : StageID) (dockerImage : Image) (s s' : State) (err : option error) :
  doFetchStage projectName stagesStorage stageID dockerImage s = (Returned err, s') ->
  same_error err ErrBrokenImage = false.
Proof.
  unfold doFetchStage. rewrite !bind_run. unfold call at 1.
  destruct (GetStageDescription stagesStorage projectName (Digest stageID)
              (UniqueID stageID) (world s)) as [[fresh gerr] w1].
  destruct gerr as [e|]; simpl.
  { intros [= <- <-]. reflexivity. }
  destruct fresh as [d|]; simpl.
  2: { intros [= <- <-]. reflexivity. }
  rewrite !bind_run. unfold call. simpl.
  destruct (FetchImage stagesStorage dockerImage _) as [[e|] w2]; simpl.
  - intros [= <- <-]. reflexivity.
  - intros [= <- <-]. reflexivity.
Qed.

(** The two reports of the primary tier that C1 speaks of, as
    [FetchStage_primary] sees them.  A missing description makes it
    return the should-reset sentinel after the one call of
    [GetStageDescription]; a broken image reported by that call makes
    it return a wrapped error, after that one call as well. *)
Lemma FetchStage_primary_reports (m : StorageManager) (stg : Stage) (s : State)
    (desc : StageDescription) (w1 : World) (answer : option StageDescription * option error) :
  ImageGetStageDescription (GetImage stg) (world s) = Some desc ->
  GetStageDescription (m_StagesStorage m) (ProjectName m)
    (Digest (descStageID desc)) (UniqueID (descStageID desc)) (world s) = (answer, w1) ->
  (answer = (None, None) ->
   FetchStage_primary m stg s
   = (Returned (inl (Some ErrShouldResetStagesStorageCache)),
      mkState w1
        (trace s ++ [EvGetStageDescription (m_StagesStorage m) (ProjectName m)
                       (Digest (descStageID desc)) (UniqueID (descStageID desc))])%list
        (SharedHostImagesLocks s) (FinalStagesListCache s)))
  /\ (forall d, answer = (d, Some ErrBrokenImage) ->
      FetchStage_primary m stg s
      = (Returned (inl (Some (Errorf ("unable to fetch stage "
                   +:+ StageID_String (descStageID desc)
                   +:+ " from stages storage " +:+ StorageString (m_StagesStorage m)
                   +:+ ": " +:+ ("unable to get stage description: "
                                   +:+ ErrBrokenImageText))))),
         mkState w1
           (trace s ++ [EvGetStageDescription (m_StagesStorage m) (ProjectName m)
                          (Digest (descStageID desc)) (UniqueID (descStageID desc))])%list
           (SharedHostImagesLocks s) (FinalStagesListCache s))).
Proof.
  intros Himg Hget. split.
  - intros ->. unfold FetchStage_primary, StageIDOf. rewrite !bind_run. unfold observe.
    rewrite Himg. simpl. rewrite bind_run. unfold doFetchStage. rewrite !bind_run.
    unfold call. rewrite Hget. reflexivity.
  - intros d ->. unfold FetchStage_primary, StageIDOf. rewrite !bind_run. unfold observe.
    rewrite Himg. simpl. rewrite bind_run. unfold doFetchStage. rewrite !bind_run.
    unfold call. rewrite Hget. reflexivity.
Qed.

Lemma emits_bind_run {A B} (P : Event -> Prop) (c : M A) (f : A -> M B) :
  emits P c ->
  (forall a s s1, c s = (Returned a, s1) -> emits P (f a)) ->
  emits P (c ≫= f).
Proof.
  intros Hc Hf s r s'. rewrite bind_run.
  destruct (c s) as [[a|] s1] eqn:Hcs.
  - intros Hfs. destruct (Hc _ _ _ Hcs) as (Hfin1 & evs1 & Htr1 & HP1).
    destruct (Hf a _ _ Hcs _ _ _ Hfs) as (Hfin2 & evs2 & Htr2 & HP2).
    split; [congruence |]. exists (evs1 ++ evs2)%list.
    split; [by rewrite Htr2, Htr1, app_assoc | by apply Forall_app].
  - intros [= <- <-]. exact (Hc _ _ _ Hcs).
Qed.

Lemma emits_StageIDOf (P : Event -> Prop) (stg : Stage) : emits P (StageIDOf stg).
Proof. unfold StageIDOf. emits_auto. Qed.
Hint Resolve emits_StageIDOf : emits.

Lemma emits_doFetchStage projectName (stagesStorage : StagesStorage) stageID dockerImage :
  emits quiet (doFetchStage projectName stagesStorage stageID dockerImage).
Proof. unfold doFetchStage. emits_auto. Qed.
Hint Resolve emits_doFetchStage : emits.

(** The call of [RejectStage] in the fetch from the primary tier is
    never reached. *)
Lemma FetchStage_primary_never_rejects (m : StorageManager) (stg : Stage) :
  emits quiet (FetchStage_primary m stg).
Proof.
  unfold FetchStage_primary.
  apply emits_bind; [emits_auto | intros stageID].
  apply emits_bind_run; [emits_auto |].
  intros err s s1 Hrun.
  rewrite (doFetchStage_never_broken_image _ _ _ _ _ _ _ Hrun).
  emits_auto.
Qed.

(* ------------------------------------------------------------------- *)
(** ** The refresh of the index *)

Lemma emits_getStageDescription_no_reset projectName stageID (stagesStorage : StagesStorage)
    caches withCache :
  emits quiet (getStageDescription projectName stageID stagesStorage caches
                 (mkOptions false withCache)).
Proof.
  unfold getStageDescription.
  apply emits_bind; [apply emits_getStageDescription_lookups | intros r].
  destruct r; [emits_auto |].
  unfold getStageDescription_tier. simpl. emits_auto.
Qed.
Hint Resolve emits_getStageDescription_no_reset : emits.

Lemma emits_resolveEach (m : StorageManager) (stagesStorage : StagesStorage) caches stageIDs :
  emits quiet (resolveEach m stagesStorage caches stageIDs).
Proof. induction stageIDs as [|stageID rest IH]; simpl; emits_auto. Qed.

Lemma resolveEach_ids (m : StorageManager) (stagesStorage : StagesStorage) caches stageIDs
    (s s' : State) answers :
  resolveEach m stagesStorage caches stageIDs s = (Returned (answers, None), s') ->
  map fst answers = stageIDs.
Proof.
  revert s answers. induction stageIDs as [|stageID rest IH]; intros s answers; simpl.
  - by intros [= <- <-].
  - rewrite bind_run.
    destruct (getStageDescription _ _ _ _ _ s) as [[[d [e|]]|] s1]; simpl;
      [discriminate | | discriminate].
    rewrite bind_run.
    destruct (resolveEach m stagesStorage caches rest s1) as [[[rest' [e|]]|] s2] eqn:Hrest;
      simpl; [discriminate | | discriminate].
    intros [= <- <-]. simpl. f_equal. by apply (IH s1).
Qed.

(** The loop of [getStagesDescriptions] keeps, of what [resolveEach]
    collects, the descriptions. *)
Lemma getStagesDescriptions_loop_resolveEach (m : StorageManager)
    (stagesStorage : StagesStorage) caches stageIDs stages (s : State) :
  getStagesDescriptions_loop m stagesStorage caches stageIDs stages s
  = match resolveEach m stagesStorage caches stageIDs s with
    | (Returned (answers, None), s') => (Returned ((stages ++ resolved answers)%list, None), s')
    | (Returned (_, Some e), s') => (Returned ([], Some e), s')
    | (Panicked, s') => (Panicked, s')
    end.
Proof.
  revert stages s. induction stageIDs as [|stageID rest IH]; intros stages s; simpl.
  - unfold mret, M_ret. simpl. by rewrite app_nil_r.
  - rewrite !bind_run.
    destruct (getStageDescription _ _ _ _ _ s) as [[[d [e|]]|] s1]; simpl;
      [reflexivity | | reflexivity].
    rewrite bind_run.
    destruct d as [d|]; rewrite IH;
      destruct (resolveEach m stagesStorage caches rest s1) as [[[answers [e|]]|] s2];
      simpl; try reflexivity.
    unfold resolved. simpl. by rewrite <- app_assoc.
Qed.

Lemma fold_left_append_map {A B} (f : A -> B) (l : list A) (acc : list B) :
  fold_left (fun ids x => (ids ++ [f x])%list) l acc = (acc ++ map f l)%list.
Proof.
  revert acc. induction l as [|a l IH]; intros acc; simpl.
  - by rewrite app_nil_r.
  - by rewrite IH, <- app_assoc.
Qed.

(** C4. On a miss of the index cache, [GetStagesByDigest] refreshes
    under the lock of the digest: it takes the lock, lists the stage
    ids of the digest from the primary tier, resolves each of them in
    order, stores into the index cache the stage ids of exactly the
    descriptions that resolved, releases the lock and returns those
    descriptions.  An id whose description did not resolve is in
    neither; when every description carries the id it was asked by,
    what is stored is the listed ids without the ones that did not
    resolve.  Nothing is rejected on the way. *)
Theorem refresh_on_index_miss (m : StorageManager) (stageName stageDigest : string)
    (s s1 s4 : State) (cacheStages : StageDescriptionPtrs) (lock : LockHandle)
    (w2 w3 w5 : World) (stageIDs : list StageID)
    (answers : list (StageID * option StageDescription)) :
  getStagesByDigestFromCache m stageName stageDigest s
  = (Returned (false, cacheStages, None), s1) ->
  LockStageCache (StorageLockManager m) (ProjectName m) stageDigest (world s1)
  = ((lock, None), w2) ->
  GetStagesIDsByDigest (m_StagesStorage m) (ProjectName m) stageDigest w2
  = ((stageIDs, None), w3) ->
  resolveEach m (m_StagesStorage m) (CacheStagesStorageList m) stageIDs
    (mkState w3
       (trace s1 ++ [EvLockStageCache (ProjectName m) stageDigest;
                     EvGetStagesIDsByDigest (m_StagesStorage m) (ProjectName m) stageDigest])%list
       (SharedHostImagesLocks s1) (FinalStagesListCache s1))
  = (Returned (answers, None), s4) ->
  Cache_StoreStagesByDigest (m_StagesStorageCache m) (ProjectName m) stageDigest
    (map descStageID (resolved answers)) (world s4) = (None, w5) ->
  GetStagesByDigest m stageName stageDigest s
  = (Returned (Some <$> resolved answers, None),
     mkState (snd (Unlock (StorageLockManager m) lock w5))
       (trace s4 ++ [EvCacheStoreStagesByDigest (ProjectName m) stageDigest
                       (map descStageID (resolved answers));
                     EvUnlock lock])%list
       (SharedHostImagesLocks s4) (FinalStagesListCache s4))
  /\ map fst answers = stageIDs
  /\ (exists evs,
        trace s4
        = (trace s1 ++ [EvLockStageCache (ProjectName m) stageDigest;
                        EvGetStagesIDsByDigest (m_StagesStorage m) (ProjectName m)
                          stageDigest] ++ evs)%list
        /\ Forall quiet evs)
  /\ ((forall stageID d, In (stageID, Some d) answers -> descStageID d = stageID) ->
      map descStageID (resolved answers)
      = map fst (List.filter (fun a => bool_decide (is_Some (snd a))) answers)
      /\ forall stageID,
          In stageID (map descStageID (resolved answers))
          <-> exists d, In (stageID, Some d) answers).
Proof.
  intros Hcache Hlock Hlist Hresolve Hstore.
  split; [| split; [| split]].
  - unfold GetStagesByDigest. rewrite bind_run, Hcache. simpl.
    rewrite bind_run.
    unfold atomicGetStagesByDigestWithStagesStorageCacheStore.
    rewrite bind_run. unfold call at 1. rewrite Hlock. simpl.
    unfold defer, atomicGetStagesByDigestWithStagesStorageCacheStore_locked.
    rewrite bind_run. unfold getStagesIDsByDigestFromStagesStorage at 1.
    rewrite bind_run. unfold call at 1. simpl. rewrite Hlist. simpl.
    rewrite bind_run. unfold getStagesDescriptions.
    rewrite getStagesDescriptions_loop_resolveEach.
    rewrite <- app_assoc. simpl. rewrite Hresolve. simpl.
    rewrite fold_left_append_map. simpl.
    rewrite bind_run. unfold call at 1. rewrite Hstore. simpl.
    rewrite bind_run. unfold call. simpl.
    destruct (Unlock (StorageLockManager m) lock w5) as [uerr w6]. simpl.
    by rewrite <- app_assoc.
  - by apply resolveEach_ids in Hresolve.
  - destruct (emits_resolveEach _ _ _ _ _ _ _ Hresolve) as (_ & evs & Htr & Hq).
    exists evs. split; [| exact Hq]. rewrite Htr. simpl. by rewrite <- app_assoc.
  - intros Hcarry. unfold resolved. clear - Hcarry. split.
    + induction answers as [|[stageID [d|]] rest IH]; simpl; [reflexivity | |].
      * f_equal; [apply Hcarry; by left |].
        apply IH. intros ? ? ?. apply Hcarry. by right.
      * apply IH. intros ? ? ?. apply Hcarry. by right.
    + intros stageID. rewrite in_map_iff. split.
      * intros (d & <- & Hd). exists d.
        apply list_elem_of_In, list_elem_of_omap in Hd as ([stageID' d'] & Hin & [= ->]).
        apply list_elem_of_In in Hin. by rewrite (Hcarry _ _ Hin).
      * intros (d & Hin). exists d. split; [by apply Hcarry |].
        apply list_elem_of_In, list_elem_of_omap. exists (stageID, Some d).
        split; [by apply list_elem_of_In | reflexivity].
Qed.

(* ------------------------------------------------------------------- *)
(** ** The fetch pipeline leaves the final stages list alone *)

Lemma emits_LockStageImage (m : StorageManager) imageName :
  emits quiet (LockStageImage m imageName).
Proof. unfold LockStageImage. emits_auto. Qed.
Hint Resolve emits_LockStageImage : emits.

Lemma emits_copyStageIntoStagesStorage projectName stageID dockerImage
    (stagesStorage : StagesStorage) (containerRuntime : ContainerRuntime) :
  emits quiet (copyStageIntoStagesStorage projectName stageID dockerImage stagesStorage
                 containerRuntime).
Proof. unfold copyStageIntoStagesStorage. emits_auto. Qed.
Hint Resolve emits_copyStageIntoStagesStorage : emits.

Lemma emits_fetchStageFromCache (m : StorageManager) (containerRuntime : ContainerRuntime)
    (stg : Stage) (stagesStorage : StagesStorage) :
  emits quiet (fetchStageFromCache m containerRuntime stg stagesStorage).
Proof. unfold fetchStageFromCache. emits_auto. Qed.
Hint Resolve emits_fetchStageFromCache : emits.

Lemma emits_prepareCacheStageAsPrimary (m : StorageManager)
    (containerRuntime : ContainerRuntime) fetched cacheDockerImage (stg : Stage) :
  emits quiet (prepareCacheStageAsPrimary m containerRuntime fetched cacheDockerImage stg).
Proof. unfold prepareCacheStageAsPrimary. emits_auto. Qed.
Hint Resolve emits_prepareCacheStageAsPrimary : emits.

Lemma emits_FetchStage_caches (m : StorageManager) (containerRuntime : ContainerRuntime)
    (stg : Stage) caches refill :
  emits quiet (FetchStage_caches m containerRuntime stg caches refill).
Proof.
  revert refill. induction caches as [|c caches IH]; intros refill; simpl; emits_auto.
Qed.
Hint Resolve emits_FetchStage_caches : emits.

Lemma emits_FetchStage_refill (m : StorageManager) (containerRuntime : ContainerRuntime)
    (stg : Stage) fetched refill :
  emits quiet (FetchStage_refill m containerRuntime stg fetched refill).
Proof. induction refill as [|c refill IH]; simpl; emits_auto. Qed.
Hint Resolve emits_FetchStage_refill FetchStage_primary_never_rejects : emits.

(** Whatever the tiers answer, [FetchStage] leaves the final stages
    list as it is and never calls [RejectStage]. *)
Lemma FetchStage_never_rejects (m : StorageManager) (containerRuntime : ContainerRuntime)
    (stg : Stage) :
  emits quiet (FetchStage m containerRuntime stg).
Proof. unfold FetchStage. emits_auto. Qed.
Hint Resolve FetchStage_never_rejects : emits.

(* ------------------------------------------------------------------- *)
(** ** Replication into the final repo, twice *)

Lemma GetStageIDs_StageIDs (stages : StagesList) : GetStageIDs stages = StageIDs stages.
Proof.
  unfold GetStageIDs.
  assert (H : forall l acc : list StageID,
             fold_left (fun res stg => (res ++ [stg])%list) l acc = (acc ++ l)%list).
  { induction l as [|x l IH]; intros acc; simpl.
    - by rewrite app_nil_r.
    - by rewrite IH, <- app_assoc. }
  apply (H (StageIDs stages) []).
Qed.

Lemma IsEqual_refl (stageID : StageID) : IsEqual stageID stageID = true.
Proof. unfold IsEqual. by rewrite String.eqb_refl, Z.eqb_refl. Qed.

Lemma exists_occurrences (existing : list StageID) (stageID : StageID) :
  CopyStageIntoFinalRepo_exists existing stageID
  = negb (occurrences stageID existing =? 0)%nat.
Proof.
  unfold occurrences. induction existing as [|x l IH]; simpl; [reflexivity |].
  destruct (IsEqual x stageID); simpl; [reflexivity | exact IH].
Qed.

Lemma AddStageID_found_exists (existing : list StageID) (stageID : StageID) :
  AddStageID_found existing stageID = CopyStageIntoFinalRepo_exists existing stageID.
Proof. induction existing as [|x l IH]; simpl; [reflexivity | by rewrite IH]. Qed.

Lemma occurrences_app (stageID : StageID) (l1 l2 : list StageID) :
  occurrences stageID (l1 ++ l2) = (occurrences stageID l1 + occurrences stageID l2)%nat.
Proof. unfold occurrences. by rewrite List.filter_app, length_app. Qed.

Lemma getOrCreateFinalStagesListCache_cached (m : StorageManager) (s : State)
    (l : StagesList) :
  FinalStagesListCache s = Some l ->
  getOrCreateFinalStagesListCache m s = (Returned (Some l, None), s).
Proof.
  intros Hl. unfold getOrCreateFinalStagesListCache. rewrite bind_run.
  unfold get_FinalStagesListCache. by rewrite Hl.
Qed.

Lemma getOrCreateFinalStagesListCache_sets (m : StorageManager) (s s0 : State)
    (l : StagesList) :
  getOrCreateFinalStagesListCache m s = (Returned (Some l, None), s0) ->
  FinalStagesListCache s0 = Some l.
Proof.
  unfold getOrCreateFinalStagesListCache. rewrite bind_run.
  unfold get_FinalStagesListCache.
  destruct (FinalStagesListCache s) as [l'|] eqn:Hl.
  - by intros [= <- <-].
  - rewrite bind_run. destruct (FinalStagesStorage m) as [final|]; simpl; [| discriminate].
    rewrite bind_run. unfold call.
    destruct (GetStagesIDs final (ProjectName m) (world s)) as [[ids [e|]] w]; simpl;
      [discriminate |].
    by intros [= <- <-].
Qed.

(** C5.  When [CopyStageIntoFinalRepo] has succeeded for a stage, a
    second call that follows it for the same stage id succeeds and does
    nothing at all: it leaves the world, the trace and the stages list
    as they are, so it neither renames nor stores.  After both calls
    the stages list holds the stage id; it holds it exactly once
    whenever the list held it at most once when the first call
    consulted it, which is so in particular whenever the first call
    did the copy. *)
Theorem copy_into_final_repo_twice (m : StorageManager) (stg : Stage)
    (containerRuntime : ContainerRuntime) (s s0 s1 : State) (l0 : StagesList)
    (stageID : StageID) :
  getOrCreateFinalStagesListCache m s = (Returned (Some l0, None), s0) ->
  StageIDOf stg s0 = (Returned stageID, s0) ->
  CopyStageIntoFinalRepo m stg containerRuntime s = (Returned None, s1) ->
  StageIDOf stg s1 = (Returned stageID, s1) ->
  CopyStageIntoFinalRepo m stg containerRuntime s1 = (Returned None, s1)
  /\ exists l1,
      FinalStagesListCache s1 = Some l1
      /\ (1 <= occurrences stageID (StageIDs l1))%nat
      /\ ((occurrences stageID (StageIDs l0) <= 1)%nat ->
          occurrences stageID (StageIDs l1) = 1%nat)
      /\ (occurrences stageID (StageIDs l0) = 0%nat ->
          StageIDs l1 = (StageIDs l0 ++ [stageID])%list).
Proof.
  intros Hget Hid0 Hfirst Hid1.
  pose proof (getOrCreateFinalStagesListCache_sets _ _ _ _ Hget) as Hl0.
  assert (Hfinal : exists final, FinalStagesStorage m = Some final).
  { revert Hfirst. unfold CopyStageIntoFinalRepo.
    rewrite bind_run, Hget. simpl.
    rewrite bind_run. unfold mret at 1, M_ret at 1. rewrite bind_run, Hid0.
    rewrite bind_run.
    destruct (FinalStagesStorage m) as [final|]; simpl; [eauto | discriminate]. }
  destruct Hfinal as [final Hfinal].
  assert (Hsecond : forall l1,
             FinalStagesListCache s1 = Some l1 ->
             (1 <= occurrences stageID (StageIDs l1))%nat ->
             CopyStageIntoFinalRepo m stg containerRuntime s1 = (Returned None, s1)).
  { intros l1 Hl1 Hocc. unfold CopyStageIntoFinalRepo.
    rewrite bind_run, (getOrCreateFinalStagesListCache_cached _ _ _ Hl1). simpl.
    rewrite bind_run. unfold mret at 1, M_ret at 1. rewrite bind_run, Hid1.
    rewrite bind_run, Hfinal. simpl.
    rewrite bind_run. unfold get_FinalStagesListCache. rewrite Hl1. simpl.
    rewrite ret_bind, GetStageIDs_StageIDs, exists_occurrences.
    destruct (Nat.eqb_spec (occurrences stageID (StageIDs l1)) 0); [lia | reflexivity]. }
  revert Hfirst. unfold CopyStageIntoFinalRepo at 1.
  rewrite bind_run, Hget. simpl.
  rewrite bind_run. unfold mret at 1, M_ret at 1. rewrite bind_run, Hid0.
  rewrite bind_run, Hfinal. simpl.
  rewrite bind_run. unfold get_FinalStagesListCache at 1. rewrite Hl0. simpl.
  rewrite ret_bind, GetStageIDs_StageIDs, exists_occurrences.
  destruct (Nat.eqb_spec (occurrences stageID (StageIDs l0)) 0) as [Hzero | Hpos]; simpl.
  - (* the first call copied *)
    rewrite bind_run.
    destruct (FetchStage m containerRuntime stg s0) as [[[e|]|] sF] eqn:HF; simpl;
      [discriminate | | discriminate].
    destruct (FetchStage_never_rejects _ _ _ _ _ _ HF) as (HfinF & _).
    rewrite bind_run.
    destruct (copyStageIntoStagesStorage (ProjectName m) stageID (GetImage stg) final
                containerRuntime sF) as [[[e|]|] sC] eqn:HC; simpl;
      [discriminate | | discriminate].
    destruct (emits_copyStageIntoStagesStorage _ _ _ _ _ _ _ _ HC) as (HfinC & _).
    rewrite bind_run. unfold get_FinalStagesListCache at 1.
    rewrite HfinC, HfinF, Hl0. simpl.
    intros [= <-].
    assert (Hadd : AddStageID l0 stageID = mkStagesList (StageIDs l0 ++ [stageID])%list).
    { unfold AddStageID. rewrite AddStageID_found_exists, exists_occurrences, Hzero.
      reflexivity. }
    assert (Hone : occurrences stageID (StageIDs l0 ++ [stageID]) = 1%nat).
    { rewrite occurrences_app, Hzero. unfold occurrences. simpl.
      by rewrite IsEqual_refl. }
    split.
    + apply (Hsecond (AddStageID l0 stageID)); [reflexivity |].
      rewrite Hadd. simpl. lia.
    + exists (AddStageID l0 stageID). rewrite Hadd. simpl.
      split; [reflexivity |]. split; [lia |]. split; [by intros _ | by intros _].
  - (* the first call found the stage id in the list *)
    intros [= <-]. split.
    + apply (Hsecond l0 Hl0). lia.
    + exists l0. split; [exact Hl0 |]. split; [lia |]. split; [lia | lia].
Qed.

(* ------------------------------------------------------------------- *)
(** ** Stage selection and unique ids *)

(** C8. With an empty list of candidates [SelectSuitableStage] returns
    no description and no error, and leaves the world and the trace as
    they are: the selection of the stage is not called. *)
Theorem select_nothing_from_nothing (m : StorageManager) (c : Conveyor) (stg : Stage)
    (s : State) :
  SelectSuitableStage m c stg [] s = (Returned (None, None), s).
Proof. reflexivity. Qed.

Lemma wrap64_small (z : Z) : - 2 ^ 63 <= z < 2 ^ 63 -> wrap64 z = z.
Proof. intros Hz. unfold wrap64. rewrite Z.mod_small; lia. Qed.

Lemma GenerateStageUniqueID_stages_tt (stages : list StageDescription) (imageName : string) :
  GenerateStageUniqueID_stages stages imageName = tt.
Proof. by destruct (GenerateStageUniqueID_stages stages imageName). Qed.

(** C7. [GenerateStageUniqueID] reads the clock once and returns the
    unique id [Unix * 1000 + Nanosecond / 1000000] of that reading (for
    every reading whose milliseconds since the epoch fit [int64])
    together with the image name the primary tier builds for the digest
    and that id.  The candidates supplied have no influence: the result
    is the same for every list of them, whatever their names. *)
Theorem unique_id_from_clock (m : StorageManager) (digest : string)
    (stages stages' : list StageDescription) (s : State) (t : Time) (w : World) :
  TimeNow (world s) = (t, w) ->
  0 <= Nanosecond t < 1000000000 ->
  - 2 ^ 63 <= Unix t * 1000 /\ Unix t * 1000 + 999 < 2 ^ 63 ->
  GenerateStageUniqueID m digest stages s
  = (Returned
       (ConstructStageImageName (m_StagesStorage m) (ProjectName m) digest
          (Unix t * 1000 + Nanosecond t / 1000000),
        Unix t * 1000 + Nanosecond t / 1000000),
     mkState w (trace s ++ [EvTimeNow]) (SharedHostImagesLocks s) (FinalStagesListCache s))
  /\ 0 <= Nanosecond t / 1000000 < 1000
  /\ GenerateStageUniqueID m digest stages' s = GenerateStageUniqueID m digest stages s.
Proof.
  intros Hnow Hns Hunix.
  assert (Hms : 0 <= Nanosecond t / 1000000 < 1000).
  { split; [apply Z.div_pos; lia | apply Z.div_lt_upper_bound; lia]. }
  assert (Hrun : forall l, GenerateStageUniqueID m digest l s
    = (Returned
       (ConstructStageImageName (m_StagesStorage m) (ProjectName m) digest
          (Unix t * 1000 + Nanosecond t / 1000000),
        Unix t * 1000 + Nanosecond t / 1000000),
     mkState w (trace s ++ [EvTimeNow]) (SharedHostImagesLocks s) (FinalStagesListCache s))).
  { intros l. unfold GenerateStageUniqueID. rewrite bind_run. unfold call. rewrite Hnow.
    rewrite GenerateStageUniqueID_stages_tt.
    rewrite Z.quot_div_nonneg by lia. rewrite wrap64_small by lia. reflexivity. }
  split; [apply Hrun | split; [exact Hms |]]. by rewrite !Hrun.
Qed.
End ManagerProperties.

(* ===================================================================== *)
(** * The properties at work in the concrete setting *)
(* ===================================================================== *)

(** The clock reads 1700000000 s and 123456789 ns; a candidate that
    already bears the generated name changes nothing. *)
Lemma unique_id_from_clock_witness :
  fst (GenerateStageUniqueID (EXTERNALS := fixture.externals)
         (fixture.manager fixture.primaryXY None []) "d1" [fixture.descX] fixture.start)
  = Returned ("registry/app:d1-1700000000123", 1700000000123)
  /\ Name (descInfo fixture.descX) = "registry/app:d1-1700000000123".
Proof.
  split; [| reflexivity].
  edestruct (@unique_id_from_clock nat nat nat fixture.externals
               (fixture.manager fixture.primaryXY None [])
               "d1" [fixture.descX] [] fixture.start) as (Hrun & _ & _);
    [vm_compute; reflexivity | simpl; lia | simpl; lia |].
  rewrite Hrun. vm_compute. reflexivity.
Defined.

(** A broken image in the primary tier, behind a cache tier that holds
    nothing: with the reset allowed the stage is rejected and the
    sentinel returned, without it nothing is returned. *)
Lemma broken_image_at_tier_witness :
  getStageDescription (FOREIGN := fixture.foreign) (EXTERNALS := fixture.externals)
    "app" fixture.stageX fixture.primaryBroken [fixture.cacheEmpty]
    (mkOptions true true) fixture.start
  = (Returned (None, Some ErrShouldResetStagesStorageCache),
     mkState 5%nat
       [EvGetImageInfo "registry/app" "registry/app:d1-1700000000123";
        EvGetImageInfo "cache/app" "cache/app:d1-1700000000123";
        EvGetStageDescription fixture.cacheEmpty "app" "d1" 1700000000123;
        EvGetStageDescription fixture.primaryBroken "app" "d1" 1700000000123;
        EvRejectStage fixture.primaryBroken "app" "d1" 1700000000123]
       [] None)
  /\ getStageDescription (FOREIGN := fixture.foreign) (EXTERNALS := fixture.externals)
       "app" fixture.stageX fixture.primaryBroken [fixture.cacheEmpty]
       (mkOptions false true) fixture.start
     = (Returned (None, None),
        mkState 4%nat
          [EvGetImageInfo "registry/app" "registry/app:d1-1700000000123";
           EvGetImageInfo "cache/app" "cache/app:d1-1700000000123";
           EvGetStageDescription fixture.cacheEmpty "app" "d1" 1700000000123;
           EvGetStageDescription fixture.primaryBroken "app" "d1" 1700000000123]
          [] None).
Proof.
  split.
  - edestruct (@broken_image_at_tier nat nat nat fixture.foreign fixture.externals
                 "app" fixture.stageX fixture.primaryBroken [fixture.cacheEmpty]
                 (mkOptions true true) fixture.start) as (_ & Hallow & _);
      [vm_compute; reflexivity | vm_compute; reflexivity |].
    rewrite (Hallow eq_refl). vm_compute. reflexivity.
  - edestruct (@broken_image_at_tier nat nat nat fixture.foreign fixture.externals
                 "app" fixture.stageX fixture.primaryBroken [fixture.cacheEmpty]
                 (mkOptions false true) fixture.start) as (_ & _ & Hdeny);
      [vm_compute; reflexivity | vm_compute; reflexivity |].
    rewrite (Hdeny eq_refl). vm_compute. reflexivity.
Defined.

(** C3 as the spec words it does not hold: the lookup reaches the
    primary tier, the tier reports a broken image and the reset is
    allowed, yet the rejection fails, and what is returned is the error
    of the rejection wrapped, which is not the should-reset sentinel and
    does not pass for it either. *)
Lemma broken_image_reject_fails :
  fst (getStageDescription_lookups (FOREIGN := fixture.foreign)
         (EXTERNALS := fixture.externals)
         "app" fixture.stageX fixture.primaryBrokenRejectFails [fixture.cacheEmpty]
         (mkOptions true true) fixture.start)
  = Returned None
  /\ fst (GetStageDescription fixture.primaryBrokenRejectFails "app" "d1" 1700000000123
            (world (snd (getStageDescription_lookups (FOREIGN := fixture.foreign)
                           (EXTERNALS := fixture.externals)
                           "app" fixture.stageX fixture.primaryBrokenRejectFails
                           [fixture.cacheEmpty] (mkOptions true true) fixture.start))))
     = (None, Some ErrBrokenImage)
  /\ fst (getStageDescription (FOREIGN := fixture.foreign) (EXTERNALS := fixture.externals)
            "app" fixture.stageX fixture.primaryBrokenRejectFails [fixture.cacheEmpty]
            (mkOptions true true) fixture.start)
     = Returned
         (None,
          Some (Errorf ("unable to reject stage d1-1700000000123 image "
                          +:+ "registry/app:d1-1700000000123 in the stages storage "
                          +:+ "registry/app: registry unreachable")))
  /\ fst (getStageDescription (FOREIGN := fixture.foreign) (EXTERNALS := fixture.externals)
            "app" fixture.stageX fixture.primaryBrokenRejectFails [fixture.cacheEmpty]
            (mkOptions true true) fixture.start)
     <> Returned (None, Some ErrShouldResetStagesStorageCache)
  /\ ShouldResetStagesStorageCache (H := fixture.foreign)
       (Some (Errorf ("unable to reject stage d1-1700000000123 image "
                        +:+ "registry/app:d1-1700000000123 in the stages storage "
                        +:+ "registry/app: registry unreachable")))
     = false.
Proof.
  split; [vm_compute; reflexivity |].
  split; [vm_compute; reflexivity |].
  split; [vm_compute; reflexivity |].
  split; [vm_compute; discriminate | vm_compute; reflexivity].
Qed.

(** C1, where the code departs from it.  No cache tier serves the stage
    and the primary tier reports a broken image; [FetchStage] then
    neither calls [RejectStage] nor returns the should-reset sentinel: it
    returns the report wrapped twice, after three calls, none of them a
    rejection. *)
Theorem fetch_broken_image_not_rejected :
  fst (GetStageDescription fixture.primaryBroken "app" "d1" 1700000000123 2%nat)
  = (None, Some ErrBrokenImage)
  /\ FetchStage (FOREIGN := fixture.foreign) (EXTERNALS := fixture.externals)
       (fixture.manager fixture.primaryBroken None []) fixture.runtime fixture.stage
       fixture.start
     = (Returned
          (Some (Errorf ("unable to fetch stage d1-1700000000123 from stages storage "
                           +:+ "registry/app: unable to get stage description: "
                           +:+ "broken image"))),
        mkState 3%nat
          [EvAcquireHostLock "image/registry/app:d1-1700000000123" true;
           EvShouldFetchImage fixture.primaryBroken 0%nat;
           EvGetStageDescription fixture.primaryBroken "app" "d1" 1700000000123]
          [0%nat] None)
  /\ ShouldResetStagesStorageCache (H := fixture.foreign)
       (Some (Errorf ("unable to fetch stage d1-1700000000123 from stages storage "
                        +:+ "registry/app: unable to get stage description: "
                        +:+ "broken image")))
     = false.
Proof. repeat split; vm_compute; reflexivity. Qed.

(** The primary tier lists two stages of the digest and holds a
    description of the first only: the first is returned and stored,
    the second is in neither, and the store stands between the lock and
    its release. *)
Lemma refresh_on_index_miss_witness :
  GetStagesByDigest (FOREIGN := fixture.foreign) (EXTERNALS := fixture.externals)
    (fixture.manager fixture.primaryXY None []) "install" "d1" fixture.start
  = (Returned ([Some fixture.descX], None), fixture.afterRefresh).
Proof.
  edestruct (@refresh_on_index_miss nat nat nat fixture.foreign fixture.externals
               (fixture.manager fixture.primaryXY None []) "install" "d1"
               fixture.start) as (Hrun & _);
    [vm_compute; reflexivity ..|].
  rewrite Hrun. vm_compute. reflexivity.
Defined.

(** The first call copies the stage into a final repo that lists
    nothing; the second call changes nothing and the list holds the
    stage id once. *)
Lemma copy_into_final_repo_twice_witness :
  CopyStageIntoFinalRepo (FOREIGN := fixture.foreign) (EXTERNALS := fixture.externals)
    (fixture.manager fixture.primaryLocal (Some fixture.finalEmpty) [])
    fixture.stage fixture.runtime fixture.start
  = (Returned None, fixture.afterCopy)
  /\ CopyStageIntoFinalRepo (FOREIGN := fixture.foreign) (EXTERNALS := fixture.externals)
       (fixture.manager fixture.primaryLocal (Some fixture.finalEmpty) [])
       fixture.stage fixture.runtime fixture.afterCopy
     = (Returned None, fixture.afterCopy)
  /\ occurrences fixture.stageX [fixture.stageX] = 1%nat.
Proof.
  assert (Hfirst : CopyStageIntoFinalRepo (FOREIGN := fixture.foreign)
                     (EXTERNALS := fixture.externals)
                     (fixture.manager fixture.primaryLocal (Some fixture.finalEmpty) [])
                     fixture.stage fixture.runtime fixture.start
                   = (Returned None, fixture.afterCopy))
    by (vm_compute; reflexivity).
  split; [exact Hfirst |]. split; [| reflexivity].
  edestruct (@copy_into_final_repo_twice nat nat nat unit fixture.foreign fixture.externals
               (fixture.manager fixture.primaryLocal (Some fixture.finalEmpty) [])
               fixture.stage fixture.runtime fixture.start) as (Hsecond & _);
    [vm_compute; reflexivity | vm_compute; reflexivity | exact Hfirst
    | vm_compute; reflexivity |].
  exact Hsecond.
Defined.

(** C5 as the spec words it does not hold: the final repo lists the
    stage id twice, both calls succeed without copying, and the stages
    list holds the stage id twice after them. *)
Lemma copy_into_final_repo_listed_twice :
  CopyStageIntoFinalRepo (FOREIGN := fixture.foreign) (EXTERNALS := fixture.externals)
    (fixture.manager fixture.primaryLocal (Some fixture.finalTwice) [])
    fixture.stage fixture.runtime fixture.start
  = (Returned None,
     mkState 1%nat [EvGetStagesIDs fixture.finalTwice "app"] []
       (Some (mkStagesList [fixture.stageX; fixture.stageX])))
  /\ CopyStageIntoFinalRepo (FOREIGN := fixture.foreign) (EXTERNALS := fixture.externals)
       (fixture.manager fixture.primaryLocal (Some fixture.finalTwice) [])
       fixture.stage fixture.runtime
       (mkState 1%nat [EvGetStagesIDs fixture.finalTwice "app"] []
          (Some (mkStagesList [fixture.stageX; fixture.stageX])))
     = (Returned None,
        mkState 1%nat [EvGetStagesIDs fixture.finalTwice "app"] []
          (Some (mkStagesList [fixture.stageX; fixture.stageX])))
  /\ occurrences fixture.stageX [fixture.stageX; fixture.stageX] = 2%nat.
Proof. repeat split; vm_compute; reflexivity. Qed.

(* ===================================================================== *)
(** * Properties: runs, step by step *)
(* ===================================================================== *)

Section Runs.
Context {World Image LockHandle : Type}.

Abbreviation M := (@M World Image LockHandle).
Abbreviation State := (@State World Image LockHandle).
Abbreviation Event := (@Event World Image LockHandle).

Lemma call_run {A} (ev : Event) (f : World -> A * World) (s : State) :
  call ev f s = (Returned (f (world s)).1, after s ev (f (world s)).2).
Proof. unfold call, after. by destruct (f (world s)). Qed.

Lemma bind_known {A B} (c : M A) (f : A -> M B) (s s1 : State) (a : A) :
  c s = (Returned a, s1) -> (c ≫= f) s = f a s1.
Proof. intros Hc. by rewrite bind_run, Hc. Qed.

Lemma bind_assoc {A B C} (c : M A) (f : A -> M B) (g : B -> M C) (s : State) :
  ((c ≫= f) ≫= g) s = (c ≫= (fun a => f a ≫= g)) s.
Proof. rewrite !bind_run. destruct (c s) as [[a|] s1]; [|done]. by rewrite bind_run. Qed.

Lemma observe_bind {A B} (g : World -> A) (f : A -> M B) (s : State) :
  (observe g ≫= f) s = f (g (world s)) s.
Proof. by rewrite bind_run. Qed.

Lemma call_bind {A B} (ev : Event) (g : World -> A * World) (f : A -> M B) (s : State) :
  (call ev g ≫= f) s = f (g (world s)).1 (after s ev (g (world s)).2).
Proof. by rewrite bind_run, call_run. Qed.

Lemma panic_bind {A B} (f : A -> M B) (s : State) : ((panic : M A) ≫= f) s = (Panicked, s).
Proof. by rewrite bind_run. Qed.

Lemma defer_run {A} (cleanup : M unit) (body : M A) (s : State) :
  defer cleanup body s = ((body s).1, (cleanup (body s).2).2).
Proof. unfold defer. destruct (body s) as [r s1]. simpl. by destruct (cleanup s1). Qed.

Lemma unlock_run {A} (ev : Event) (f : World -> A * World) (s : State) :
  (call ev f ≫= (fun _ => mret tt)) s = (Returned tt, after s ev (f (world s)).2).
Proof. by rewrite bind_run, call_run. Qed.

Lemma get_FinalStagesListCache_bind {B} (f : option StagesList -> M B) (s : State) :
  (get_FinalStagesListCache ≫= f) s = f (FinalStagesListCache s) s.
Proof. by rewrite bind_run. Qed.

Lemma set_FinalStagesListCache_bind {B} (l : option StagesList) (f : unit -> M B)
    (s : State) :
  (set_FinalStagesListCache l ≫= f) s
  = f tt (mkState (world s) (trace s) (SharedHostImagesLocks s) l).
Proof. by rewrite bind_run. Qed.

End Runs.

Ltac run :=
  repeat first
    [ rewrite bind_assoc | rewrite ret_bind | rewrite observe_bind | rewrite call_bind
    | rewrite panic_bind | rewrite get_FinalStagesListCache_bind
    | rewrite set_FinalStagesListCache_bind | progress cbn [deref fst snd negb] ].

(* ===================================================================== *)
(** * Properties: frames of the fetch pipeline and of the index *)
(* ===================================================================== *)

Section FetchLoop.
Context {World Image LockHandle Conveyor : Type}.
Context `{FOREIGN : Foreign} `{EXTERNALS : @Externals World Image LockHandle}.

Abbreviation M := (@M World Image LockHandle).
Abbreviation State := (@State World Image LockHandle).
Abbreviation Event := (@Event World Image LockHandle).
Abbreviation StagesStorage := (@StagesStorage World Image).
Abbreviation StorageManager := (@StorageManager World Image LockHandle).
Abbreviation Stage := (@Stage World Image Conveyor).
Abbreviation ContainerRuntime := (@ContainerRuntime World Image).

(** A run of the loop of [FetchStage] over the cache tiers splits the
    tiers into those tried in vain, which are the ones to refill, and
    the rest; when an image was fetched the rest starts with the tier
    that served it, and what follows that tier has no part in the
    run. *)
Lemma FetchStage_caches_split (m : StorageManager) (containerRuntime : ContainerRuntime)
    (stg : Stage) (tiers refill : list StagesStorage) (s : State) fetched refill' s' :
  FetchStage_caches m containerRuntime stg tiers refill s = (Returned (fetched, refill'), s') ->
  exists tried rest,
    tiers = (tried ++ rest)%list /\ refill' = (refill ++ tried)%list
    /\ match fetched with
       | None => rest = []
       | Some img =>
         exists hit later,
           rest = hit :: later
           /\ forall others,
               FetchStage_caches m containerRuntime stg (tried ++ hit :: others) refill s
               = (Returned (Some img, (refill ++ tried)%list), s')
       end.
Proof.
  revert refill s. induction tiers as [|c rest IH]; intros refill s Hrun; simpl in Hrun.
  - injection Hrun as <- <- <-. exists [], []. by rewrite !app_nil_r.
  - rewrite bind_run in Hrun.
    destruct (fetchStageFromCache m containerRuntime stg c s) as [[[img err]|] s1] eqn:Hfetch;
      [|done].
    assert (Hmiss : forall s2,
      FetchStage_caches m containerRuntime stg rest (refill ++ [c]) s2
      = (Returned (fetched, refill'), s') ->
      (forall others, FetchStage_caches m containerRuntime stg (c :: others) refill s
                      = FetchStage_caches m containerRuntime stg others (refill ++ [c]) s2) ->
      exists tried rest0,
        c :: rest = (tried ++ rest0)%list /\ refill' = (refill ++ tried)%list
        /\ match fetched with
           | None => rest0 = []
           | Some img =>
             exists hit later,
               rest0 = hit :: later
               /\ forall others,
                   FetchStage_caches m containerRuntime stg (tried ++ hit :: others) refill s
                   = (Returned (Some img, (refill ++ tried)%list), s')
           end).
    { intros s2 Hrest Hstep. destruct (IH _ _ Hrest) as (tried & rest0 & -> & -> & Hfetched).
      exists (c :: tried), rest0. split; [done|]. split; [by rewrite <- app_assoc|].
      destruct fetched as [img0|]; [|done].
      destruct Hfetched as (hit & later & -> & Hothers). exists hit, later. split; [done|].
      intros others. rewrite <- app_comm_cons, Hstep, Hothers. by rewrite <- app_assoc. }
    destruct err as [e|].
    + eapply Hmiss; [exact Hrun|]. intros others. simpl. by rewrite bind_run, Hfetch.
    + rewrite bind_run in Hrun. destruct img as [img|]; [|done]. simpl in Hrun.
      rewrite bind_run in Hrun.
      destruct (prepareCacheStageAsPrimary m containerRuntime None img stg s1)
        as [[[e|]|] s2] eqn:Hprepare; [| |done].
      * eapply Hmiss; [exact Hrun|]. intros others. simpl.
        rewrite bind_run, Hfetch, bind_run. simpl. by rewrite bind_run, Hprepare.
      * injection Hrun as <- <- <-. exists [], (c :: rest). rewrite app_nil_r.
        split; [done|]. split; [done|]. exists c, rest. split; [done|].
        intros others. simpl. rewrite bind_run, Hfetch, bind_run. simpl.
        by rewrite bind_run, Hprepare.
Qed.

End FetchLoop.

Section Frames.
Context {World Image LockHandle Conveyor : Type}.
Context `{FOREIGN : Foreign} `{EXTERNALS : @Externals World Image LockHandle}.

Abbreviation M := (@M World Image LockHandle).
Abbreviation State := (@State World Image LockHandle).
Abbreviation Event := (@Event World Image LockHandle).
Abbreviation StagesStorage := (@StagesStorage World Image).
Abbreviation StorageManager := (@StorageManager World Image LockHandle).
Abbreviation Stage := (@Stage World Image Conveyor).
Abbreviation ContainerRuntime := (@ContainerRuntime World Image).

(** The calls allowed, and a relation between states that is closed
    under them. *)
Variable P : Event -> Prop.
Variable T : State -> State -> Prop.
Hypothesis T_refl : forall s, T s s.
Hypothesis T_trans : forall s1 s2 s3, T s1 s2 -> T s2 s3 -> T s1 s3.
Hypothesis T_call : forall s ev w,
  P ev -> T s (mkState w (trace s ++ [ev])%list (SharedHostImagesLocks s) (FinalStagesListCache s)).

Lemma moves_ret {A} (a : A) : moves T (mret a : M A).
Proof. intros s r s' Heq. injection Heq as _ <-. apply T_refl. Qed.

Lemma moves_panic {A} : moves T (panic : M A).
Proof. intros s r s' Heq. injection Heq as _ <-. apply T_refl. Qed.

Lemma moves_deref {A} (p : option A) : moves T (deref p).
Proof. destruct p; [apply moves_ret | apply moves_panic]. Qed.

Lemma moves_observe {A} (f : World -> A) : moves T (observe f).
Proof. intros s r s' Heq. injection Heq as _ <-. apply T_refl. Qed.

Lemma moves_get_FinalStagesListCache : moves T get_FinalStagesListCache.
Proof. intros s r s' Heq. injection Heq as _ <-. apply T_refl. Qed.

Lemma moves_call {A} (ev : Event) (f : World -> A * World) : P ev -> moves T (call ev f).
Proof.
  intros Hev s r s' Heq. unfold call in Heq. destruct (f (world s)) as [a w].
  injection Heq as _ <-. by apply T_call.
Qed.

Lemma moves_bind_run {A B} (c : M A) (f : A -> M B) :
  moves T c -> (forall a s s1, c s = (Returned a, s1) -> moves T (f a)) -> moves T (c ≫= f).
Proof.
  intros Hc Hf s r s' Heq. rewrite bind_run in Heq.
  destruct (c s) as [[a|] s1] eqn:Hrun.
  - eapply T_trans; [by eapply Hc | by eapply Hf].
  - injection Heq as _ <-. by eapply Hc.
Qed.

Lemma moves_bind {A B} (c : M A) (f : A -> M B) :
  moves T c -> (forall a, moves T (f a)) -> moves T (c ≫= f).
Proof. intros Hc Hf. apply moves_bind_run; auto. Qed.

Lemma moves_defer {A} (cleanup : M unit) (body : M A) :
  moves T body -> moves T cleanup -> moves T (defer cleanup body).
Proof.
  intros Hb Hc s r s' Heq. unfold defer in Heq.
  destruct (body s) as [r1 s1] eqn:Hbody. destruct (cleanup s1) as [r2 s2] eqn:Hclean.
  injection Heq as _ <-. eapply T_trans; [by eapply Hb | by eapply Hc].
Qed.


Create HintDb moves.

Ltac allowed :=
  intros;
  match goal with
  | HP : forall ev, _ -> P ev |- P _ =>
    apply HP; simpl; intuition (eauto using in_eq, in_cons, in_or_app; congruence)
  end.

Ltac moves_step :=
  first
    [ solve [eauto with moves]
    | apply moves_ret | apply moves_panic | apply moves_deref | apply moves_observe
    | apply moves_get_FinalStagesListCache
    | apply moves_call; solve [allowed]
    | apply moves_bind; [| intros ?]
    | progress cbv beta zeta
    | match goal with
      | |- moves _ (match ?x with _ => _ end) => destruct x eqn:?
      end ].
Ltac moves_auto := repeat moves_step.

Hint Extern 9 (P _) => allowed : moves.

Lemma moves_getStageDescriptionFromLocalManifestCache projectName stageID
    (stagesStorage : StagesStorage) :
  (forall a b, P (EvGetImageInfo a b)) ->
  moves T (getStageDescriptionFromLocalManifestCache projectName stageID stagesStorage).
Proof.
  intros HP. unfold getStageDescriptionFromLocalManifestCache.
  apply moves_bind; [apply moves_call; apply HP|]. intros [? ?]. moves_auto.
Qed.

Lemma moves_storeStageDescriptionIntoLocalManifestCache projectName stageID
    (stagesStorage : StagesStorage) stageDesc :
  (forall a b, P (EvStoreImageInfo a b)) ->
  moves T (storeStageDescriptionIntoLocalManifestCache projectName stageID stagesStorage
             stageDesc).
Proof.
  intros HP. unfold storeStageDescriptionIntoLocalManifestCache.
  apply moves_bind; [apply moves_call; apply HP|]. intros ?. moves_auto.
Qed.
Hint Resolve moves_getStageDescriptionFromLocalManifestCache
  moves_storeStageDescriptionIntoLocalManifestCache : moves.

Lemma moves_getStageDescription_cache projectName stageID (stagesStorage : StagesStorage)
    caches opts cacheStagesStorage :
  (forall ev, resolverCall projectName stageID stagesStorage caches opts ev -> P ev) ->
  In cacheStagesStorage caches ->
  moves T (getStageDescription_cache projectName stageID stagesStorage opts
             cacheStagesStorage).
Proof.
  intros HP Hin. unfold getStageDescription_cache. moves_auto.
Qed.


Hint Resolve moves_getStageDescription_cache : moves.

Lemma moves_getStageDescription_caches projectName stageID (stagesStorage : StagesStorage)
    caches opts tiers :
  (forall ev, resolverCall projectName stageID stagesStorage caches opts ev -> P ev) ->
  (forall c, In c tiers -> In c caches) ->
  moves T (getStageDescription_caches projectName stageID stagesStorage opts tiers).
Proof.
  intros HP. induction tiers as [|c rest IH]; intros Hincl; simpl.
  - moves_auto.
  - apply moves_bind; [eapply moves_getStageDescription_cache; eauto using in_eq|].
    intros [res|]; [moves_auto|]. apply IH. eauto using in_cons.
Qed.

Lemma moves_getStageDescription_lookups projectName stageID (stagesStorage : StagesStorage)
    caches opts :
  (forall ev, resolverCall projectName stageID stagesStorage caches opts ev -> P ev) ->
  moves T (getStageDescription_lookups projectName stageID stagesStorage caches opts).
Proof.
  intros HP. unfold getStageDescription_lookups.
  apply moves_bind; [moves_auto|]. intros [res|]; [moves_auto|].
  eapply moves_getStageDescription_caches; eauto.
Qed.

Lemma moves_getStageDescription_tier projectName stageID (stagesStorage : StagesStorage)
    caches opts :
  (forall ev, resolverCall projectName stageID stagesStorage caches opts ev -> P ev) ->
  moves T (getStageDescription_tier projectName stageID stagesStorage opts).
Proof. intros HP. unfold getStageDescription_tier. moves_auto. Qed.

Lemma moves_getStageDescription projectName stageID (stagesStorage : StagesStorage)
    caches opts :
  (forall ev, resolverCall projectName stageID stagesStorage caches opts ev -> P ev) ->
  moves T (getStageDescription projectName stageID stagesStorage caches opts).
Proof.
  intros HP. unfold getStageDescription.
  apply moves_bind; [by apply moves_getStageDescription_lookups|].
  intros [res|]; [moves_auto|]. by eapply moves_getStageDescription_tier.
Qed.


Ltac included :=
  let ev := fresh "ev" in
  let Hev := fresh "Hev" in
  intros ev Hev;
  match goal with
  | HP : forall ev, _ -> P ev |- P _ => apply HP
  end;
  destruct ev; simpl in *; intuition (eauto; congruence).

Lemma moves_getStagesByDigestFromCache_loop (m : StorageManager) stageDigest ids stages :
  (forall ev, lookupCall m stageDigest ev -> P ev) ->
  moves T (getStagesByDigestFromCache_loop m ids stages).
Proof.
  intros HP. revert stages. induction ids as [|stageID rest IH]; intros stages; simpl.
  - moves_auto.
  - apply moves_bind; [apply moves_getStageDescription; included|].
    intros [stageDesc [e|]]; [moves_auto|]. apply IH.
Qed.

Lemma moves_getStagesByDigestFromCache (m : StorageManager) stageName stageDigest :
  (forall ev, lookupCall m stageDigest ev -> P ev) ->
  moves T (getStagesByDigestFromCache m stageName stageDigest).
Proof.
  intros HP. unfold getStagesByDigestFromCache.
  apply moves_bind; [moves_auto|]. intros [[cacheExists ids] err]. cbv beta zeta.
  apply moves_bind; [by eapply moves_getStagesByDigestFromCache_loop|].
  intros [? ?]. moves_auto.
Qed.

Lemma moves_getStagesIDsByDigestFromStagesStorage (m : StorageManager) stageName stageDigest
    (stagesStorage : StagesStorage) :
  (forall ev, listingCall m stageDigest stagesStorage ev -> P ev) ->
  moves T (getStagesIDsByDigestFromStagesStorage m stageName stageDigest stagesStorage).
Proof. intros HP. unfold getStagesIDsByDigestFromStagesStorage. moves_auto. Qed.

Lemma moves_getStagesDescriptions_loop (m : StorageManager) stageDigest
    (stagesStorage : StagesStorage) ids stages :
  (forall ev, listingCall m stageDigest stagesStorage ev -> P ev) ->
  moves T (getStagesDescriptions_loop m stagesStorage (CacheStagesStorageList m) ids stages).
Proof.
  intros HP. revert stages. induction ids as [|stageID rest IH]; intros stages; simpl.
  - moves_auto.
  - apply moves_bind; [apply moves_getStageDescription; included|].
    intros [[d|] [e|]]; solve [moves_auto | apply IH].
Qed.


Lemma moves_atomicGetStagesByDigestWithStagesStorageCacheStore_locked (m : StorageManager)
    stageName stageDigest :
  (forall ev, listingCall m stageDigest (m_StagesStorage m) ev -> P ev) ->
  (forall ids, P (EvCacheStoreStagesByDigest (ProjectName m) stageDigest ids)) ->
  moves T (atomicGetStagesByDigestWithStagesStorageCacheStore_locked m stageName stageDigest).
Proof.
  intros HP Hstore. unfold atomicGetStagesByDigestWithStagesStorageCacheStore_locked.
  apply moves_bind; [by apply moves_getStagesIDsByDigestFromStagesStorage|].
  intros [ids [e|]]; [moves_auto|].
  apply moves_bind; [by eapply moves_getStagesDescriptions_loop|].
  intros [stages [e|]]; [moves_auto|]. cbv zeta.
  apply moves_bind; [by apply moves_call|]. intros [e|]; moves_auto.
Qed.

Lemma moves_atomicGetStagesByDigestWithStagesStorageCacheStore (m : StorageManager)
    stageName stageDigest :
  (forall ev, indexCall m stageDigest ev -> P ev) ->
  moves T (atomicGetStagesByDigestWithStagesStorageCacheStore m stageName stageDigest).
Proof.
  intros HP. unfold atomicGetStagesByDigestWithStagesStorageCacheStore.
  apply moves_bind; [moves_auto|]. intros [lock [e|]]; [moves_auto|].
  apply moves_defer; [|moves_auto].
  apply moves_atomicGetStagesByDigestWithStagesStorageCacheStore_locked;
    [included | intros; allowed].
Qed.

Lemma moves_GetStagesByDigest (m : StorageManager) stageName stageDigest :
  (forall ev, indexCall m stageDigest ev -> P ev) ->
  moves T (GetStagesByDigest m stageName stageDigest).
Proof.
  intros HP. unfold GetStagesByDigest.
  apply moves_bind; [apply moves_getStagesByDigestFromCache; included|].
  intros [[cacheExists stages] [e|]]; [moves_auto|]. destruct cacheExists; [moves_auto|].
  apply moves_bind; [by apply moves_atomicGetStagesByDigestWithStagesStorageCacheStore|].
  intros [? ?]. moves_auto.
Qed.

(** *** The fetch pipeline *)

Lemma moves_StageIDOf (stg : Stage) : moves T (StageIDOf stg).
Proof. unfold StageIDOf. moves_auto. Qed.
Hint Resolve moves_StageIDOf : moves.

Lemma moves_doFetchStage (m : StorageManager) (stagesStorage : StagesStorage) stageID
    dockerImage :
  (forall ev, fetchCall m ev -> P ev) ->
  stagesStorage = m_StagesStorage m \/ In stagesStorage (CacheStagesStorageList m) ->
  moves T (doFetchStage (ProjectName m) stagesStorage stageID dockerImage).
Proof. intros HP Hin. unfold doFetchStage. moves_auto. Qed.

Lemma moves_copyStageIntoStagesStorage projectName stageID dockerImage
    (stagesStorage : StagesStorage) (containerRuntime : ContainerRuntime) :
  (forall name, P (EvRenameImage dockerImage name false)) ->
  P (EvStoreImage stagesStorage dockerImage) ->
  (forall a b, P (EvStoreImageInfo a b)) ->
  (forall name, P (EvAccessImage name)) ->
  moves T (copyStageIntoStagesStorage projectName stageID dockerImage stagesStorage
             containerRuntime).
Proof.
  intros H1 H2 H3 H4. unfold copyStageIntoStagesStorage.
  apply moves_bind; [by apply moves_call|]. intros [e|]; [moves_auto|].
  apply moves_bind; [by apply moves_call|]. intros [e|]; [moves_auto|].
  apply moves_bind; [moves_auto|]. intros desc.
  apply moves_bind; [moves_auto|]. intros d.
  apply moves_bind; [by apply moves_storeStageDescriptionIntoLocalManifestCache|].
  intros [e|]; [moves_auto|].
  apply moves_bind; [by apply moves_call|]. intros [e|]; moves_auto.
Qed.

(** [copyStageIntoStagesStorage] is the call of [RenameImage] and then
    steps that [T] allows. *)
Lemma copyStageIntoStagesStorage_from_rename projectName stageID dockerImage
    (stagesStorage : StagesStorage) (containerRuntime : ContainerRuntime) (s : State) r s' :
  P (EvStoreImage stagesStorage dockerImage) ->
  (forall a b, P (EvStoreImageInfo a b)) ->
  (forall name, P (EvAccessImage name)) ->
  copyStageIntoStagesStorage projectName stageID dockerImage stagesStorage containerRuntime s
  = (r, s') ->
  let name :=
    ConstructStageImageName stagesStorage projectName (Digest stageID) (UniqueID stageID) in
  T (after s (EvRenameImage dockerImage name false)
       (RenameImage containerRuntime dockerImage name false (world s)).2) s'.
Proof.
  intros H2 H3 H4. unfold copyStageIntoStagesStorage. cbv zeta. rewrite call_bind.
  generalize (after s (EvRenameImage dockerImage
                (ConstructStageImageName stagesStorage projectName (Digest stageID)
                   (UniqueID stageID)) false)
                (RenameImage containerRuntime dockerImage
                   (ConstructStageImageName stagesStorage projectName (Digest stageID)
                      (UniqueID stageID)) false (world s)).2).
  intros s1. revert s1 r s'.
  match goal with
  | |- forall s r s', ?k s = _ -> _ => change (moves T k)
  end.
  destruct (RenameImage _ _ _ _ _).1 as [e|]; [moves_auto|].
  apply moves_bind; [by apply moves_call|]. intros [e|]; [moves_auto|].
  apply moves_bind; [moves_auto|]. intros desc.
  apply moves_bind; [moves_auto|]. intros d.
  apply moves_bind; [by apply moves_storeStageDescriptionIntoLocalManifestCache|].
  intros [e|]; [moves_auto|].
  apply moves_bind; [by apply moves_call|]. intros [e|]; moves_auto.
Qed.

Lemma moves_fetchStageFromCache (m : StorageManager) (containerRuntime : ContainerRuntime)
    (stg : Stage) (stagesStorage : StagesStorage) :
  (forall ev, fetchCall m ev -> P ev) ->
  In stagesStorage (CacheStagesStorageList m) ->
  moves T (fetchStageFromCache m containerRuntime stg stagesStorage).
Proof.
  intros HP Hin. unfold fetchStageFromCache.
  apply moves_bind; [moves_auto|]. intros stageID. cbv beta zeta.
  destruct (negb _); [moves_auto|].
  apply moves_bind; [moves_auto|]. intros dockerImage.
  apply moves_bind; [moves_auto|]. intros [shouldFetch [e|]]; [moves_auto|].
  apply moves_bind.
  - destruct shouldFetch; [|moves_auto].
    apply moves_bind; [apply moves_doFetchStage; auto|]. intros err. moves_auto.
  - intros [res|]; moves_auto.
Qed.

Lemma moves_prepareCacheStageAsPrimary (m : StorageManager)
    (containerRuntime : ContainerRuntime) fetchedDockerImage cacheDockerImage (stg : Stage) :
  (forall ev, fetchCall m ev -> P ev) ->
  moves T (prepareCacheStageAsPrimary m containerRuntime fetchedDockerImage cacheDockerImage
             stg).
Proof. intros HP. unfold prepareCacheStageAsPrimary. moves_auto. Qed.

Lemma moves_FetchStage_caches (m : StorageManager) (containerRuntime : ContainerRuntime)
    (stg : Stage) tiers refill :
  (forall ev, fetchCall m ev -> P ev) ->
  (forall c, In c tiers -> In c (CacheStagesStorageList m)) ->
  moves T (FetchStage_caches m containerRuntime stg tiers refill).
Proof.
  intros HP. revert refill. induction tiers as [|c rest IH]; intros refill Hincl; simpl.
  - moves_auto.
  - apply moves_bind; [apply moves_fetchStageFromCache; eauto using in_eq|].
    intros [img [e|]]; [apply IH; eauto using in_cons|].
    apply moves_bind; [moves_auto|]. intros img'.
    apply moves_bind; [by apply moves_prepareCacheStageAsPrimary|].
    intros [e|]; [apply IH; eauto using in_cons|moves_auto].
Qed.

Lemma moves_FetchStage_primary (m : StorageManager) (stg : Stage) :
  (forall ev, fetchCall m ev -> P ev) ->
  moves T (FetchStage_primary m stg).
Proof.
  intros HP. unfold FetchStage_primary.
  apply moves_bind; [moves_auto|]. intros stageID. cbv beta zeta.
  apply moves_bind_run; [apply moves_doFetchStage; auto|].
  intros err s s1 Hrun.
  rewrite (doFetchStage_never_broken_image _ _ _ _ _ _ _ Hrun).
  destruct (same_error err ErrStageNotFound); moves_auto.
Qed.

Lemma moves_FetchStage_refill (m : StorageManager) (containerRuntime : ContainerRuntime)
    (stg : Stage) fetchedDockerImage refill :
  (forall ev, fetchCall m ev -> P ev) ->
  (forall c, In c refill -> In c (CacheStagesStorageList m)) ->
  moves T (FetchStage_refill m containerRuntime stg fetchedDockerImage refill).
Proof.
  intros HP. induction refill as [|c rest IH]; intros Hincl; simpl.
  - moves_auto.
  - apply moves_bind; [moves_auto|]. intros stageID.
    apply moves_bind; [|intros _; apply IH; eauto using in_cons].
    apply moves_copyStageIntoStagesStorage; intros; apply HP; simpl; eauto using in_eq.
Qed.


Lemma moves_LockStageImage (m : StorageManager) imageName :
  (forall ev, fetchCall m ev -> P ev) ->
  (forall s lock,
     T s (mkState (world s) (trace s) (SharedHostImagesLocks s ++ [lock])%list
            (FinalStagesListCache s))) ->
  moves T (LockStageImage m imageName).
Proof.
  intros HP Hlock. unfold LockStageImage. cbv zeta.
  apply moves_bind; [moves_auto|]. intros [[? lock] [e|]]; [moves_auto|].
  apply moves_bind; [|intros ?; moves_auto].
  intros s r s' Heq. injection Heq as _ <-. apply Hlock.
Qed.

(** [FetchStage] is [LockStageImage] and then steps that [T] allows. *)
Lemma FetchStage_from_lock (m : StorageManager) (containerRuntime : ContainerRuntime)
    (stg : Stage) (s : State) r s' :
  (forall ev, fetchCall m ev -> P ev) ->
  FetchStage m containerRuntime stg s = (r, s') ->
  exists locked s1,
    LockStageImage m (ImageName (GetImage stg) (world s)) s = (locked, s1) /\ T s1 s'.
Proof.
  intros HP Hrun. unfold FetchStage in Hrun. rewrite bind_run in Hrun.
  cbn [observe] in Hrun. rewrite bind_run in Hrun.
  destruct (LockStageImage m _ s) as [locked s1] eqn:Hlock.
  exists locked, s1. split; [done|].
  destruct locked as [err|]; [|injection Hrun as _ <-; apply T_refl].
  revert Hrun. generalize s1 r s'. clear Hlock.
  match goal with
  | |- forall s r s', ?k s = _ -> _ => change (moves T k)
  end.
  destruct err as [e|]; [moves_auto|].
  apply moves_bind; [moves_auto|]. intros [shouldFetch [e|]]; [moves_auto|].
  destruct (negb shouldFetch); [moves_auto|].
  apply moves_bind_run; [by apply moves_FetchStage_caches|].
  intros [fetched refill] s2 s3 Hcaches.
  apply moves_bind; [destruct fetched; [moves_auto|by apply moves_FetchStage_primary]|].
  intros [err|img]; [moves_auto|].
  apply moves_bind; [|intros _; moves_auto].
  apply moves_FetchStage_refill; [done|].
  apply FetchStage_caches_split in Hcaches as (tried & rest & Htiers & -> & _).
  intros c Hin. rewrite Htiers. apply in_or_app. by left.
Qed.

Lemma moves_FetchStage (m : StorageManager) (containerRuntime : ContainerRuntime)
    (stg : Stage) :
  (forall ev, fetchCall m ev -> P ev) ->
  (forall s lock,
     T s (mkState (world s) (trace s) (SharedHostImagesLocks s ++ [lock])%list
            (FinalStagesListCache s))) ->
  moves T (FetchStage m containerRuntime stg).
Proof.
  intros HP Hlock s r s' Hrun.
  destruct (FetchStage_from_lock _ _ _ _ _ _ HP Hrun) as (locked & s1 & Hlocked & Hrest).
  eapply T_trans; [|exact Hrest]. by eapply moves_LockStageImage.
Qed.

Lemma moves_CopyStageIntoCache_tiers (m : StorageManager) (stg : Stage)
    (containerRuntime : ContainerRuntime) tiers :
  (forall ev, fetchCall m ev -> P ev) ->
  (forall c, In c tiers -> In c (CacheStagesStorageList m)) ->
  moves T (CopyStageIntoCache_tiers m stg containerRuntime tiers).
Proof.
  intros HP. induction tiers as [|c rest IH]; intros Hincl; simpl.
  - moves_auto.
  - apply moves_bind; [moves_auto|]. intros stageID.
    apply moves_bind; [|intros _; apply IH; eauto using in_cons].
    apply moves_copyStageIntoStagesStorage; intros; apply HP; simpl; eauto using in_eq.
Qed.

Lemma moves_CopyStageIntoCache (m : StorageManager) (stg : Stage)
    (containerRuntime : ContainerRuntime) :
  (forall ev, fetchCall m ev -> P ev) ->
  moves T (CopyStageIntoCache m stg containerRuntime).
Proof.
  intros HP. unfold CopyStageIntoCache.
  apply moves_bind; [by apply moves_CopyStageIntoCache_tiers|]. intros _. moves_auto.
Qed.


End Frames.

(* ===================================================================== *)
(** * Properties: the calls a function may make *)
(* ===================================================================== *)

Section CallsAllowed.
Context {World Image LockHandle Conveyor : Type}.
Context `{FOREIGN : Foreign} `{EXTERNALS : @Externals World Image LockHandle}.

Abbreviation M := (@M World Image LockHandle).
Abbreviation State := (@State World Image LockHandle).
Abbreviation Event := (@Event World Image LockHandle).
Abbreviation StagesStorage := (@StagesStorage World Image).
Abbreviation StorageManager := (@StorageManager World Image LockHandle).
Abbreviation Stage := (@Stage World Image Conveyor).
Abbreviation ContainerRuntime := (@ContainerRuntime World Image).

Lemma grows_refl (P : Event -> Prop) (s : State) : grows P s s.
Proof. split; [done|]. exists []. by rewrite app_nil_r. Qed.

Lemma grows_trans (P : Event -> Prop) (s1 s2 s3 : State) :
  grows P s1 s2 -> grows P s2 s3 -> grows P s1 s3.
Proof.
  intros (Hc1 & evs1 & Ht1 & HP1) (Hc2 & evs2 & Ht2 & HP2). split; [congruence|].
  exists (evs1 ++ evs2)%list. split; [by rewrite Ht2, Ht1, app_assoc|by apply Forall_app].
Qed.

Lemma grows_call (P : Event -> Prop) (s : State) (ev : Event) (w : World) :
  P ev ->
  grows P s (mkState w (trace s ++ [ev])%list (SharedHostImagesLocks s)
               (FinalStagesListCache s)).
Proof. intros Hev. split; [done|]. exists [ev]. split; [done|]. by constructor. Qed.

Lemma grows_lock (P : Event -> Prop) (s : State) (lock : LockHandle) :
  grows P s (mkState (world s) (trace s) (SharedHostImagesLocks s ++ [lock])%list
               (FinalStagesListCache s)).
Proof. split; [done|]. exists []. by rewrite app_nil_r. Qed.

Lemma moves_grows {A} (P : Event -> Prop) (c : M A) : moves (grows P) c -> emits P c.
Proof. intros Hc s r s' Hrun. exact (Hc s r s' Hrun). Qed.

Hint Resolve grows_refl grows_trans grows_call grows_lock : core.

(** X1. In one run of the resolver for a stage id on a tier, the
    manifest cache is called only when the options enable it,
    descriptions are asked only of that tier and of the cache tiers and
    only for that id, and a stage is rejected only on that tier, only
    for that id and only when the reset of the index is allowed; no
    other call is made. *)
Theorem resolver_calls (projectName : string) (stageID : StageID)
    (stagesStorage : StagesStorage) (cacheStagesStorageList : list StagesStorage)
    (opts : getStageDescriptionOptions) :
  emits (resolverCall projectName stageID stagesStorage cacheStagesStorageList opts)
    (getStageDescription projectName stageID stagesStorage cacheStagesStorageList opts).
Proof.
  apply moves_grows.
  apply moves_getStageDescription with (P := resolverCall projectName stageID stagesStorage
                                                cacheStagesStorageList opts); eauto.
Qed.


(** X2. [GetStagesByDigest] calls only the index for the digest asked,
    the lock manager, the listing of the primary tier for that digest,
    the manifest cache when the primary tier is not the local one,
    [GetStageDescription] of the primary tier and of the cache tiers,
    and [RejectStage] of the primary tier. *)
Theorem GetStagesByDigest_calls (m : StorageManager) (stageName stageDigest : string) :
  emits (indexCall m stageDigest) (GetStagesByDigest m stageName stageDigest).
Proof.
  apply moves_grows.
  apply moves_GetStagesByDigest with (P := indexCall m stageDigest); eauto.
Qed.


(** X4. [FetchStage] takes the host lock shared, looks for and fetches
    images on the primary tier and the cache tiers only, stores images
    into cache tiers only, renames without removing the old name, and
    calls neither [RejectStage], nor the index, nor the lock manager,
    nor a listing; [FinalStagesListCache] stays as it is. *)
Theorem FetchStage_calls (m : StorageManager) (containerRuntime : ContainerRuntime)
    (stg : Stage) :
  emits (fetchCall m) (FetchStage m containerRuntime stg).
Proof.
  apply moves_grows. apply moves_FetchStage with (P := fetchCall m); eauto.
Qed.

End CallsAllowed.

(* ===================================================================== *)
(** * Properties: what a function returns *)
(* ===================================================================== *)

Section ReturnRules.
Context {World Image LockHandle : Type}.

Abbreviation M := (@M World Image LockHandle).
Abbreviation State := (@State World Image LockHandle).
Abbreviation Event := (@Event World Image LockHandle).





End ReturnRules.


Section Results.
Context {World Image LockHandle Conveyor : Type}.
Context `{FOREIGN : Foreign} `{EXTERNALS : @Externals World Image LockHandle}.

Abbreviation M := (@M World Image LockHandle).
Abbreviation State := (@State World Image LockHandle).
Abbreviation Event := (@Event World Image LockHandle).
Abbreviation StagesStorage := (@StagesStorage World Image).
Abbreviation StorageManager := (@StorageManager World Image LockHandle).
Abbreviation Stage := (@Stage World Image Conveyor).
Abbreviation ContainerRuntime := (@ContainerRuntime World Image).

Lemma answers_ret {A} (Q : A -> Prop) (a : A) : Q a -> answers Q (mret a : M A).
Proof. intros Ha s. by exists a, s. Qed.

Lemma answers_call {A} (ev : Event) (f : World -> A * World) :
  answers (fun _ => True) (call ev f).
Proof. intros s. unfold call. destruct (f (world s)) as [a w]. by eexists _, _. Qed.

Lemma answers_bind {A B} (Q1 : A -> Prop) (Q : B -> Prop) (c : M A) (f : A -> M B) :
  answers Q1 c -> (forall a, Q1 a -> answers Q (f a)) -> answers Q (c ≫= f).
Proof.
  intros Hc Hf s. destruct (Hc s) as (a & s1 & Hrun & Ha).
  destruct (Hf a Ha s1) as (b & s2 & Hrun2 & Hb).
  exists b, s2. split; [|done]. by rewrite bind_run, Hrun.
Qed.

Lemma answers_weaken {A} (Q1 Q : A -> Prop) (c : M A) :
  answers Q1 c -> (forall a, Q1 a -> Q a) -> answers Q c.
Proof. intros Hc HQ s. destruct (Hc s) as (a & s1 & Hrun & Ha). exists a, s1. auto. Qed.

Lemma answers_any {A} (Q : A -> Prop) (c : M A) : answers Q c -> answers (fun _ => True) c.
Proof. intros Hc. by eapply answers_weaken. Qed.

Lemma answers_defer {A} (Q : A -> Prop) (cleanup : M unit) (body : M A) :
  answers Q body -> answers Q (defer cleanup body).
Proof.
  intros Hb s. destruct (Hb s) as (a & s1 & Hrun & Ha). unfold defer. rewrite Hrun.
  destruct (cleanup s1) as [r2 s2]. by exists a, s2.
Qed.

Create HintDb answers.

Ltac answers_step :=
  first
    [ solve [eauto with answers]
    | apply answers_ret; solve [simpl; auto]
    | apply answers_call
    | solve [eapply answers_any; eauto with answers]
    | apply answers_bind with (Q1 := fun _ => True); [| intros ? _]
    | progress cbv beta zeta
    | match goal with
      | |- answers _ (match ?x with _ => _ end) => destruct x eqn:?
      end ].
Ltac answers_auto := repeat answers_step.

Lemma answers_getStageDescriptionFromLocalManifestCache projectName stageID
    (stagesStorage : StagesStorage) :
  answers (fun r => r = (None, None) \/ oneOf r)
    (getStageDescriptionFromLocalManifestCache projectName stageID stagesStorage).
Proof. unfold getStageDescriptionFromLocalManifestCache. answers_auto. Qed.

Lemma answers_storeStageDescriptionIntoLocalManifestCache projectName stageID
    (stagesStorage : StagesStorage) stageDesc :
  answers (fun _ => True)
    (storeStageDescriptionIntoLocalManifestCache projectName stageID stagesStorage
       stageDesc).
Proof. unfold storeStageDescriptionIntoLocalManifestCache. answers_auto. Qed.
Hint Resolve answers_getStageDescriptionFromLocalManifestCache
  answers_storeStageDescriptionIntoLocalManifestCache : answers.

Lemma answers_getStageDescription_cache projectName stageID (stagesStorage : StagesStorage)
    opts cacheStagesStorage :
  answers returnsOneOf
    (getStageDescription_cache projectName stageID stagesStorage opts cacheStagesStorage).
Proof.
  unfold getStageDescription_cache.
  apply answers_bind with (Q1 := returnsOneOf); [answers_auto|].
  intros [res|] Hres; [by apply answers_ret|].
  apply answers_bind with (Q1 := fun _ => True); [answers_auto|].
  intros [[d|] [e|]] _; try solve [answers_auto].
  apply answers_bind with (Q1 := returnsOneOf); [answers_auto|].
  intros [res|] Hres'; by apply answers_ret.
Qed.
Hint Resolve answers_getStageDescription_cache : answers.

Lemma answers_getStageDescription_caches projectName stageID (stagesStorage : StagesStorage)
    opts tiers :
  answers returnsOneOf
    (getStageDescription_caches projectName stageID stagesStorage opts tiers).
Proof.
  induction tiers as [|c rest IH]; simpl; [answers_auto|].
  eapply answers_bind; [apply answers_getStageDescription_cache|].
  intros [res|] Hres; [by apply answers_ret|done].
Qed.

Lemma answers_getStageDescription_lookups projectName stageID (stagesStorage : StagesStorage)
    caches opts :
  answers returnsOneOf
    (getStageDescription_lookups projectName stageID stagesStorage caches opts).
Proof.
  unfold getStageDescription_lookups.
  apply answers_bind with (Q1 := returnsOneOf); [answers_auto|].
  intros [res|] Hres; [by apply answers_ret|]. apply answers_getStageDescription_caches.
Qed.

Lemma answers_getStageDescription_tier projectName stageID (stagesStorage : StagesStorage)
    opts :
  answers (resolverAnswer opts)
    (getStageDescription_tier projectName stageID stagesStorage opts).
Proof.
  unfold getStageDescription_tier, resolverAnswer.
  eapply answers_bind; [apply answers_call|]. intros [stageDesc err] _.
  destruct (same_error err ErrBrokenImage).
  - destruct (AllowStagesStorageCacheReset opts) eqn:Hallow; answers_auto.
  - destruct err as [e|]; [answers_auto|]. destruct stageDesc as [d|]; [answers_auto|].
    destruct (AllowStagesStorageCacheReset opts) eqn:Hallow; answers_auto.
Qed.

Lemma answers_getStageDescription projectName stageID (stagesStorage : StagesStorage)
    caches opts :
  answers (resolverAnswer opts)
    (getStageDescription projectName stageID stagesStorage caches opts).
Proof.
  unfold getStageDescription.
  eapply answers_bind; [apply answers_getStageDescription_lookups|].
  intros [res|] Hres; [apply answers_ret; by left|]. apply answers_getStageDescription_tier.
Qed.

(** X5. The resolver never panics, and it returns exactly one of a
    description and an error, or neither of them when the reset of the
    index is not allowed: with the reset allowed a nil description
    always comes with an error. *)
Theorem resolver_answers (projectName : string) (stageID : StageID)
    (stagesStorage : StagesStorage) (cacheStagesStorageList : list StagesStorage)
    (opts : getStageDescriptionOptions) :
  answers (resolverAnswer opts)
    (getStageDescription projectName stageID stagesStorage cacheStagesStorageList opts).
Proof. apply answers_getStageDescription. Qed.

Lemma answers_getStagesByDigestFromCache_loop (m : StorageManager) ids stages :
  Forall (fun d => d <> None) stages ->
  answers (fun r => match r with
                    | (Some (_, _, err), _) => err <> None
                    | (None, stages') => Forall (fun d => d <> None) stages'
                    end)
    (getStagesByDigestFromCache_loop m ids stages).
Proof.
  revert stages. induction ids as [|stageID rest IH]; intros stages Hstages; simpl.
  - by apply answers_ret.
  - eapply answers_bind; [apply answers_getStageDescription|].
    intros [stageDesc [e|]] Hanswer; [by apply answers_ret|].
    apply IH. apply Forall_app. split; [done|]. constructor; [|done].
    destruct Hanswer as [Hone|[Hallow _]]; [|done]. by destruct stageDesc.
Qed.

Lemma answers_getStagesByDigestFromCache (m : StorageManager) stageName stageDigest :
  answers (fun r => match r with
                    | (_, _, Some _) => True
                    | (_, stages, None) => Forall (fun d => d <> None) stages
                    end)
    (getStagesByDigestFromCache m stageName stageDigest).
Proof.
  unfold getStagesByDigestFromCache.
  eapply answers_bind; [apply answers_call|]. intros [[cacheExists ids] err] _. cbv zeta.
  eapply answers_bind; [by apply answers_getStagesByDigestFromCache_loop|].
  intros [[[[? ?] [e|]]|] stages] Hloop; apply answers_ret; try done.
  by destruct err.
Qed.

Lemma answers_getStagesDescriptions_loop (m : StorageManager) (stagesStorage : StagesStorage)
    caches ids stages :
  answers (fun _ => True) (getStagesDescriptions_loop m stagesStorage caches ids stages).
Proof.
  revert stages. induction ids as [|stageID rest IH]; intros stages; simpl.
  - by apply answers_ret.
  - eapply answers_bind; [apply answers_getStageDescription|].
    intros [[d|] [e|]] _; solve [by apply answers_ret | apply IH].
Qed.

Lemma answers_getStagesIDsByDigestFromStagesStorage (m : StorageManager) stageName
    stageDigest (stagesStorage : StagesStorage) :
  answers (fun _ => True)
    (getStagesIDsByDigestFromStagesStorage m stageName stageDigest stagesStorage).
Proof. unfold getStagesIDsByDigestFromStagesStorage. answers_auto. Qed.
Hint Resolve answers_getStagesDescriptions_loop
  answers_getStagesIDsByDigestFromStagesStorage : answers.

Lemma answers_atomicGetStagesByDigestWithStagesStorageCacheStore (m : StorageManager)
    stageName stageDigest :
  answers (fun r => match r with
                    | (stages, Some _) => stages = []
                    | (_, None) => True
                    end)
    (atomicGetStagesByDigestWithStagesStorageCacheStore m stageName stageDigest).
Proof.
  unfold atomicGetStagesByDigestWithStagesStorageCacheStore.
  eapply answers_bind; [apply answers_call|]. intros [lock [e|]] _; [by apply answers_ret|].
  apply answers_defer. unfold atomicGetStagesByDigestWithStagesStorageCacheStore_locked.
  unfold getStagesDescriptions. answers_auto.
Qed.

(** X6. [GetStagesByDigest] never panics; when it returns an error it
    returns no description, and when it returns no error none of the
    descriptions it returns is nil, whether they come from the index
    or from a refresh. *)
Theorem GetStagesByDigest_answers (m : StorageManager) (stageName stageDigest : string) :
  answers digestAnswer (GetStagesByDigest m stageName stageDigest).
Proof.
  unfold GetStagesByDigest.
  eapply answers_bind; [apply answers_getStagesByDigestFromCache|].
  intros [[cacheExists stages] [e|]] Hstages; [by apply answers_ret|].
  destruct cacheExists; [by apply answers_ret|].
  eapply answers_bind; [apply answers_atomicGetStagesByDigestWithStagesStorageCacheStore|].
  intros [fresh [e|]] Hfresh; apply answers_ret; simpl.
  - by rewrite Hfresh.
  - apply Forall_fmap. by apply Forall_true.
Qed.

End Results.

(* ===================================================================== *)
(** * Properties: the index of stages by digest *)
(* ===================================================================== *)

Section Index.
Context {World Image LockHandle Conveyor : Type}.
Context `{FOREIGN : Foreign} `{EXTERNALS : @Externals World Image LockHandle}.

Abbreviation M := (@M World Image LockHandle).
Abbreviation State := (@State World Image LockHandle).
Abbreviation Event := (@Event World Image LockHandle).
Abbreviation StagesStorage := (@StagesStorage World Image).
Abbreviation StorageManager := (@StorageManager World Image LockHandle).
Abbreviation Stage := (@Stage World Image Conveyor).
Abbreviation ContainerRuntime := (@ContainerRuntime World Image).

Hint Resolve grows_refl grows_trans grows_call grows_lock : core.



Lemma getStagesByDigestFromCache_loop_app (m : StorageManager) pre post stages (s : State) :
  getStagesByDigestFromCache_loop m (pre ++ post) stages s
  = match getStagesByDigestFromCache_loop m pre stages s with
    | (Returned (None, stages1), s1) => getStagesByDigestFromCache_loop m post stages1 s1
    | other => other
    end.
Proof.
  revert stages s. induction pre as [|stageID rest IH]; intros stages s; [done|].
  simpl. rewrite !bind_run.
  by destruct (getStageDescription _ _ _ _ _ s) as [[[stageDesc [e|]]|] s1].
Qed.

Lemma ShouldResetStagesStorageCache_wrap (prefix msg : string) :
  ShouldResetStagesStorageCache (Some (Errorf msg)) = true ->
  ShouldResetStagesStorageCache (Some (Errorf (prefix +:+ msg))) = true.
Proof.
  unfold ShouldResetStagesStorageCache. cbn [Error]. rewrite !HasSuffix_iff.
  intros [p Hp]. exists (prefix +:+ p). by rewrite Hp, append_assoc.
Qed.

(** X8. A stale entry of the index is reported as such: when the index
    names a stage id for the digest, the ids before it resolve, and
    the resolver returns for it an error that
    [ShouldResetStagesStorageCache] recognises (as it does when the
    primary tier no longer has the stage), [GetStagesByDigest] returns
    no description and an error that [ShouldResetStagesStorageCache]
    recognises as well, and does not go on to the ids after it. *)
Theorem stale_index_entry_reported (m : StorageManager) (stageName stageDigest : string)
    (s : State) (cacheExists : bool) (before after_ : list StageID) (stageID : StageID)
    (err0 : option error) (w1 : World) (stages : StageDescriptionPtrs) (s2 s3 : State)
    (stageDesc : option StageDescription) (e : error) :
  Cache_GetStagesByDigest (m_StagesStorageCache m) (ProjectName m) stageDigest (world s)
  = ((cacheExists, (before ++ stageID :: after_)%list, err0), w1) ->
  getStagesByDigestFromCache_loop m before []
    (after s (EvCacheGetStagesByDigest (ProjectName m) stageDigest) w1)
  = (Returned (None, stages), s2) ->
  getStageDescription (ProjectName m) stageID (m_StagesStorage m) (CacheStagesStorageList m)
    (mkOptions true (getWithLocalManifestCacheOption m)) s2
  = (Returned (stageDesc, Some e), s3) ->
  ShouldResetStagesStorageCache (Some e) = true ->
  exists e',
    GetStagesByDigest m stageName stageDigest s = (Returned ([], Some e'), s3)
    /\ ShouldResetStagesStorageCache (Some e') = true.
Proof.
  intros Hindex Hbefore Hstale Hreset. eexists. split.
  - unfold GetStagesByDigest. rewrite bind_run. unfold getStagesByDigestFromCache.
    rewrite bind_run, call_run, Hindex. cbn [fst snd]. rewrite bind_run.
    rewrite getStagesByDigestFromCache_loop_app, Hbefore. simpl.
    rewrite bind_run, Hstale. reflexivity.
  - cbn [Error]. by repeat apply ShouldResetStagesStorageCache_wrap.
Qed.

Lemma atomicGetStagesByDigestWithStagesStorageCacheStore_locked_grows (m : StorageManager)
    stageName stageDigest (s : State) r s' :
  atomicGetStagesByDigestWithStagesStorageCacheStore_locked m stageName stageDigest s
  = (r, s') ->
  grows (fun ev => isLockCall ev = false) s s'.
Proof.
  revert s r s'.
  apply moves_atomicGetStagesByDigestWithStagesStorageCacheStore_locked
    with (P := fun ev => isLockCall ev = false); eauto.
  intros ev Hev. by destruct ev.
Qed.

(** X9. The two critical sections on the index,
    [atomicGetStagesByDigestWithStagesStorageCacheStore] and
    [AtomicStoreStagesByDigestToCache], ask for the lock of the digest
    first; when it is not granted they call nothing else and return an
    error; when it is granted they release that lock as their last
    call, also when the work in between fails, and do not call the
    lock manager in between. *)
Theorem index_lock_released (m : StorageManager) (stageName stageDigest : string)
    (stageIDs : list StageID) (s : State) :
  let lock := (LockStageCache (StorageLockManager m) (ProjectName m) stageDigest (world s)).1 in
  (forall r s',
      atomicGetStagesByDigestWithStagesStorageCacheStore m stageName stageDigest s = (r, s') ->
      (lock.2 <> None -> exists e, r = Returned ([], Some e))
      /\ exists evs, trace s' = (trace s ++ evs)%list
                     /\ criticalSection (ProjectName m) stageDigest lock evs)
  /\ (forall r s',
      AtomicStoreStagesByDigestToCache m stageName stageDigest stageIDs s = (r, s') ->
      (lock.2 <> None -> exists e, r = Returned (Some e))
      /\ exists evs, trace s' = (trace s ++ evs)%list
                     /\ criticalSection (ProjectName m) stageDigest lock evs).
Proof.
  cbv zeta. split; intros r s' Hrun.
  - unfold atomicGetStagesByDigestWithStagesStorageCacheStore in Hrun.
    rewrite bind_run, call_run in Hrun.
    destruct (LockStageCache _ _ _ _) as [[handle [e|]] w1]; cbn [fst snd] in *.
    + injection Hrun as <- <-. split; [eauto|]. by eexists.
    + split; [done|]. rewrite defer_run, unlock_run in Hrun.
      destruct (atomicGetStagesByDigestWithStagesStorageCacheStore_locked _ _ _ _)
        as [r1 s1] eqn:Hlocked.
      apply atomicGetStagesByDigestWithStagesStorageCacheStore_locked_grows in Hlocked
        as (_ & inside & Htrace & Hinside).
      injection Hrun as _ <-.
      eexists. split; [|exists inside; split; [reflexivity|done]].
      simpl. rewrite Htrace. simpl. by rewrite <- !app_assoc.
  - unfold AtomicStoreStagesByDigestToCache in Hrun.
    rewrite bind_run, call_run in Hrun.
    destruct (LockStageCache _ _ _ _) as [[handle [e|]] w1]; cbn [fst snd] in *.
    + injection Hrun as <- <-. split; [eauto|]. by eexists.
    + split; [done|]. rewrite defer_run, unlock_run, bind_run, call_run in Hrun.
      eexists. split;
        [|exists [EvCacheStoreStagesByDigest (ProjectName m) stageDigest stageIDs];
          split; [reflexivity|by repeat constructor]].
      destruct (Cache_StoreStagesByDigest _ _ _ _ _) as [[e|] w2]; cbn [fst snd] in *;
        injection Hrun as _ <-; simpl; by rewrite <- !app_assoc.
Qed.

(** X10. A refresh of the index returns what
    [GetStagesByDigestFromStagesStorage] returns for the primary tier:
    once the lock is granted, when that function, run from there,
    returns descriptions and the store of their ids into the index
    succeeds, or when it returns an error,
    [atomicGetStagesByDigestWithStagesStorageCacheStore] returns the
    same descriptions and the same error. *)
Theorem refresh_is_listing_of_primary (m : StorageManager) (stageName stageDigest : string)
    (s : State) (lock : LockHandle) (w1 : World) (stages : list StageDescription)
    (err : option error) (s2 : State) :
  LockStageCache (StorageLockManager m) (ProjectName m) stageDigest (world s)
  = ((lock, None), w1) ->
  GetStagesByDigestFromStagesStorage m stageName stageDigest (m_StagesStorage m)
    (after s (EvLockStageCache (ProjectName m) stageDigest) w1)
  = (Returned (stages, err), s2) ->
  (err = None ->
   (Cache_StoreStagesByDigest (m_StagesStorageCache m) (ProjectName m) stageDigest
      (descStageID <$> stages) (world s2)).1 = None) ->
  exists s',
    atomicGetStagesByDigestWithStagesStorageCacheStore m stageName stageDigest s
    = (Returned (stages, err), s').
Proof.
  intros Hlock Hlisting Hstore.
  unfold atomicGetStagesByDigestWithStagesStorageCacheStore. rewrite call_bind, Hlock.
  cbn [fst snd]. rewrite defer_run.
  unfold atomicGetStagesByDigestWithStagesStorageCacheStore_locked.
  unfold GetStagesByDigestFromStagesStorage in Hlisting. rewrite bind_run in *.
  destruct (getStagesIDsByDigestFromStagesStorage _ _ _ _ _) as [[[ids [e|]]|] s3];
    [injection Hlisting as <- <- <-; by eexists| |done].
  rewrite bind_run in *.
  destruct (getStagesDescriptions _ _ _ _ _) as [[[valid [e|]]|] s4];
    [injection Hlisting as <- <- <-; by eexists| |done].
  injection Hlisting as <- <- <-. cbv zeta. rewrite call_bind.
  assert (Hids : fold_left (fun ids stage => (ids ++ [descStageID stage])%list) valid []
                 = descStageID <$> valid).
  { by rewrite (fold_left_append_map descStageID valid []). }
  rewrite Hids, Hstore by done. by eexists.
Qed.

End Index.

(* ===================================================================== *)
(** * Properties: the fetch pipeline *)
(* ===================================================================== *)

Section Fetch.
Context {World Image LockHandle Conveyor : Type}.
Context `{FOREIGN : Foreign} `{EXTERNALS : @Externals World Image LockHandle}.

Abbreviation M := (@M World Image LockHandle).
Abbreviation State := (@State World Image LockHandle).
Abbreviation Event := (@Event World Image LockHandle).
Abbreviation StagesStorage := (@StagesStorage World Image).
Abbreviation StorageManager := (@StorageManager World Image LockHandle).
Abbreviation Stage := (@Stage World Image Conveyor).
Abbreviation ContainerRuntime := (@ContainerRuntime World Image).



(** X12. The locks of [FetchStage]: when the shared host lock of the
    image is granted, its handle is appended to
    [SharedHostImagesLocks], once; when it is not granted the list
    stays as it is; no handle is dropped, whatever happens after the
    lock. *)
Theorem FetchStage_locks (m : StorageManager) (containerRuntime : ContainerRuntime)
    (stg : Stage) :
  moves (fun s s' =>
           let '(_, lock, err) :=
             (AcquireHostLock (ImageLockName (ImageName (GetImage stg) (world s))) true
                (world s)).1 in
           SharedHostImagesLocks s'
           = (SharedHostImagesLocks s ++ match err with None => [lock] | Some _ => [] end)%list)
    (FetchStage m containerRuntime stg).
Proof.
  intros s r s' Hrun.
  apply FetchStage_from_lock
    with (P := fun _ => True)
         (T := fun s s' => SharedHostImagesLocks s' = SharedHostImagesLocks s) in Hrun;
    [|done|congruence|done|done].
  destruct Hrun as (locked & s1 & Hlock & ->).
  unfold LockStageImage in Hlock. cbv zeta in Hlock. rewrite bind_run, call_run in Hlock.
  destruct (AcquireHostLock _ _ _) as [[[granted lock] [e|]] w1]; cbn [fst snd] in *.
  - injection Hlock as _ <-. simpl. by rewrite app_nil_r.
  - rewrite bind_run in Hlock. by injection Hlock as _ <-.
Qed.

(** X13. The loop of [FetchStage] over the cache tiers stops at the
    first tier that serves the image and can be made the primary one:
    the tiers to refill are exactly the tiers before it, in order (all
    cache tiers when none serves the image), and the tiers after it
    have no part in the run, which ends with the same image, the same
    tiers to refill and the same state whatever they are. *)
Theorem first_cache_tier_serves (m : StorageManager) (containerRuntime : ContainerRuntime)
    (stg : Stage) (s : State) (fetched : option Image) (refill : list StagesStorage)
    (s' : State) :
  FetchStage_caches m containerRuntime stg (CacheStagesStorageList m) [] s
  = (Returned (fetched, refill), s') ->
  exists rest,
    CacheStagesStorageList m = (refill ++ rest)%list
    /\ match fetched with
       | None => rest = []
       | Some img =>
         exists hit later,
           rest = hit :: later
           /\ forall others,
               FetchStage_caches m containerRuntime stg (refill ++ hit :: others) [] s
               = (Returned (Some img, refill), s')
       end.
Proof.
  intros Hrun. apply FetchStage_caches_split in Hrun as (tried & rest & Htiers & -> & Hrest).
  exists rest. split; [done|]. destruct fetched as [img|]; [|done].
  destruct Hrest as (hit & later & -> & Hothers). exists hit, later. split; [done|].
  intros others. apply Hothers.
Qed.

(** X14. A failure of [RenameImage] in [prepareCacheStageAsPrimary]
    makes [FetchStage] panic: the message of the error is built from
    [fetchedDockerImage.Image.Name()], and [fetchedDockerImage] is nil
    until the loop over the cache tiers has ended. So when the image
    is to be fetched, the first cache tier serves it, and the rename
    to the name of the primary tier fails, [FetchStage] does not
    return. *)
Theorem rename_failure_panics (m : StorageManager) (containerRuntime : ContainerRuntime)
    (stg : Stage) (s s1 s3 : State) (w2 : World) (cache : StagesStorage)
    (rest : list StagesStorage) (img : Image) (desc : StageDescription) (e : error) :
  CacheStagesStorageList m = cache :: rest ->
  LockStageImage m (ImageName (GetImage stg) (world s)) s = (Returned None, s1) ->
  ShouldFetchImage (m_StagesStorage m) (GetImage stg) (world s1) = ((true, None), w2) ->
  fetchStageFromCache m containerRuntime stg cache
    (after s1 (EvShouldFetchImage (m_StagesStorage m) (GetImage stg)) w2)
  = (Returned (Some img, None), s3) ->
  ImageGetStageDescription (GetImage stg) (world s3) = Some desc ->
  (RenameImage containerRuntime img
     (ConstructStageImageName (m_StagesStorage m) (ProjectName m)
        (Digest (descStageID desc)) (UniqueID (descStageID desc)))
     false (world s3)).1 = Some e ->
  exists s', FetchStage m containerRuntime stg s = (Panicked, s').
Proof.
  intros Htiers Hlock Hshould Hfetch Hdesc Hrename. eexists.
  unfold FetchStage. run. rewrite (bind_known _ _ _ _ _ Hlock). run.
  rewrite Hshould. run. rewrite Htiers. cbn [FetchStage_caches]. run.
  rewrite (bind_known _ _ _ _ _ Hfetch). run.
  unfold prepareCacheStageAsPrimary, StageIDOf. run. rewrite Hdesc. run.
  rewrite Hrename. run. reflexivity.
Qed.

Lemma StageIDOf_run (stg : Stage) (s : State) r s' :
  StageIDOf stg s = (r, s') -> s' = s.
Proof.
  unfold StageIDOf. run. destruct (ImageGetStageDescription _ _); run; by intros [= _ <-].
Qed.

Lemma copyStageIntoStagesStorage_renames projectName stageID dockerImage
    (stagesStorage : StagesStorage) (containerRuntime : ContainerRuntime) (s : State) r s' :
  copyStageIntoStagesStorage projectName stageID dockerImage stagesStorage containerRuntime s
  = (r, s') ->
  exists evs,
    trace s' = (trace s ++ evs)%list
    /\ omap renamedTo evs
       = [ConstructStageImageName stagesStorage projectName (Digest stageID)
            (UniqueID stageID)].
Proof.
  intros Hrun.
  apply copyStageIntoStagesStorage_from_rename
    with (P := fun ev => renamedTo ev = None)
         (T := fun s s' => exists evs, trace s' = (trace s ++ evs)%list
                                       /\ omap renamedTo evs = []) in Hrun; try done.
  - destruct Hrun as (evs & Htrace & Hevs).
    exists (EvRenameImage dockerImage
              (ConstructStageImageName stagesStorage projectName (Digest stageID)
                 (UniqueID stageID)) false :: evs).
    split; [rewrite Htrace; simpl; by rewrite <- app_assoc|].
    cbn. by rewrite Hevs.
  - intros s0. exists []. by rewrite app_nil_r.
  - intros s1 s2 s3 (evs1 & Ht1 & He1) (evs2 & Ht2 & He2). exists (evs1 ++ evs2)%list.
    split; [by rewrite Ht2, Ht1, app_assoc|]. by rewrite omap_app, He1, He2.
  - intros s0 ev w Hev. exists [ev]. split; [done|]. simpl. by rewrite Hev.
Qed.

Lemma CopyStageIntoCache_tiers_renames (m : StorageManager) (stg : Stage)
    (containerRuntime : ContainerRuntime) (tiers : list StagesStorage) (s : State) r s' :
  CopyStageIntoCache_tiers m stg containerRuntime tiers s = (Returned r, s') ->
  exists evs,
    trace s' = (trace s ++ evs)%list
    /\ Forall2 (fun name tier =>
                  exists stageID,
                    name = ConstructStageImageName tier (ProjectName m) (Digest stageID)
                             (UniqueID stageID))
         (omap renamedTo evs) tiers.
Proof.
  revert s. induction tiers as [|c rest IH]; intros s Hrun; simpl in Hrun.
  - injection Hrun as _ <-. exists []. rewrite app_nil_r. split; [done|]. constructor.
  - rewrite bind_run in Hrun.
    destruct (StageIDOf stg s) as [[stageID|] s0] eqn:Hid; [|done].
    apply StageIDOf_run in Hid as ->. rewrite bind_run in Hrun.
    destruct (copyStageIntoStagesStorage _ _ _ _ _ s) as [[err|] s1] eqn:Hcopy; [|done].
    apply copyStageIntoStagesStorage_renames in Hcopy as (evs1 & Ht1 & He1).
    apply IH in Hrun as (evs2 & Ht2 & He2). exists (evs1 ++ evs2)%list.
    split; [by rewrite Ht2, Ht1, app_assoc|]. rewrite omap_app, He1. simpl.
    constructor; [by exists stageID|done].
Qed.

(** X15. [CopyStageIntoCache] is best effort: when it returns it
    returns nil, whatever failed, and it has tried every cache tier in
    order, with one call of [RenameImage] for each, to the name that
    the tier constructs for a stage id. *)
Theorem CopyStageIntoCache_best_effort (m : StorageManager) (stg : Stage)
    (containerRuntime : ContainerRuntime) (s : State) (r : option error) (s' : State) :
  CopyStageIntoCache m stg containerRuntime s = (Returned r, s') ->
  r = None
  /\ exists evs,
      trace s' = (trace s ++ evs)%list
      /\ Forall2 (fun name tier =>
                    exists stageID,
                      name = ConstructStageImageName tier (ProjectName m) (Digest stageID)
                               (UniqueID stageID))
           (omap renamedTo evs) (CacheStagesStorageList m).
Proof.
  unfold CopyStageIntoCache. rewrite bind_run.
  destruct (CopyStageIntoCache_tiers _ _ _ _ s) as [[[]|] s1] eqn:Htiers; [|done].
  intros [= <- <-]. split; [done|]. by eapply CopyStageIntoCache_tiers_renames.
Qed.

End Fetch.

(* ===================================================================== *)
(** * Properties: replication of stages *)
(* ===================================================================== *)

Section Replication.
Context {World Image LockHandle Conveyor : Type}.
Context `{FOREIGN : Foreign} `{EXTERNALS : @Externals World Image LockHandle}.

Abbreviation M := (@M World Image LockHandle).
Abbreviation State := (@State World Image LockHandle).
Abbreviation Event := (@Event World Image LockHandle).
Abbreviation StagesStorage := (@StagesStorage World Image).
Abbreviation StorageManager := (@StorageManager World Image LockHandle).
Abbreviation Stage := (@Stage World Image Conveyor).
Abbreviation ContainerRuntime := (@ContainerRuntime World Image).

Hint Resolve grows_refl grows_trans grows_call grows_lock : core.


(** X17. [InitCache] never panics. Without a final repo, or with the
    list of the final repo already there, it returns nil and changes
    nothing: the final repo is listed at most once. After a call that
    returned nil a second call returns nil and changes nothing. A call
    that returned an error has left [FinalStagesListCache] as it was,
    so the list is asked for again next time. *)
Theorem InitCache_once (m : StorageManager) (s : State) :
  exists r s1,
    InitCache m s = (Returned r, s1)
    /\ (FinalStagesStorage m = None \/ FinalStagesListCache s <> None -> r = None /\ s1 = s)
    /\ (r = None -> InitCache m s1 = (Returned None, s1))
    /\ (r <> None -> FinalStagesListCache s1 = FinalStagesListCache s).
Proof.
  unfold InitCache. destruct (FinalStagesStorage m) as [final|] eqn:Hfinal.
  - unfold getOrCreateFinalStagesListCache. rewrite Hfinal. run.
    destruct (FinalStagesListCache s) as [l|] eqn:Hcache.
    + run. eexists _, _. split; [reflexivity|]. split; [done|]. split; [|done].
      intros _. run. rewrite Hcache. by run.
    + run. destruct (GetStagesIDs final (ProjectName m) (world s)) as [[ids [e|]] w1];
        run; eexists _, _; (split; [reflexivity|]).
      * split; [intros [?|?]; done|]. done.
      * split; [intros [?|?]; done|]. split; [|done]. intros _. by run.
  - exists None, s. by repeat split.
Qed.

Ltac stays :=
  cbv [mret M_ret panic];
  match goal with
  | Hleft : forall res s1, _ -> _ -> _ |- _ => apply Hleft; congruence
  end.

Lemma FetchStage_keeps_list (m : StorageManager) (containerRuntime : ContainerRuntime)
    (stg : Stage) (s : State) r s' :
  FetchStage m containerRuntime stg s = (r, s') ->
  FinalStagesListCache s' = FinalStagesListCache s.
Proof.
  revert s r s'.
  apply moves_FetchStage
    with (P := fun _ => True)
         (T := fun s s' => FinalStagesListCache s' = FinalStagesListCache s);
    try done; congruence.
Qed.

Lemma copyStageIntoStagesStorage_keeps_list projectName stageID dockerImage
    (stagesStorage : StagesStorage) (containerRuntime : ContainerRuntime) (s : State) r s' :
  copyStageIntoStagesStorage projectName stageID dockerImage stagesStorage containerRuntime s
  = (r, s') ->
  FinalStagesListCache s' = FinalStagesListCache s.
Proof.
  revert s r s'.
  apply moves_copyStageIntoStagesStorage
    with (P := fun _ => True)
         (T := fun s s' => FinalStagesListCache s' = FinalStagesListCache s);
    try done; congruence.
Qed.

(** X18. [CopyStageIntoFinalRepo] records a stage in the list of the
    final repo only when it returns nil: after the list has been read
    or listed, a call that returns an error or panics leaves it as it
    is, and a call that returns nil leaves it as it is (the stage was
    in it) or has added the id of the stage with [AddStageID]; it
    removes nothing. *)
Theorem failed_copy_not_recorded (m : StorageManager) (stg : Stage)
    (containerRuntime : ContainerRuntime) (s : State) r s' :
  CopyStageIntoFinalRepo m stg containerRuntime s = (r, s') ->
  let s0 := (getOrCreateFinalStagesListCache m s).2 in
  FinalStagesListCache s' = FinalStagesListCache s0
  \/ (r = Returned None
      /\ exists l desc,
          FinalStagesListCache s0 = Some l
          /\ ImageGetStageDescription (GetImage stg) (world s0) = Some desc
          /\ FinalStagesListCache s' = Some (AddStageID l (descStageID desc))).
Proof.
  assert (Hleft : forall (res : Outcome (option error)) (s1 : State),
             FinalStagesListCache s1
             = FinalStagesListCache (getOrCreateFinalStagesListCache m s).2 ->
             (res, s1) = (r, s') ->
             FinalStagesListCache s' = FinalStagesListCache (getOrCreateFinalStagesListCache m s).2
             \/ (r = Returned None
                 /\ exists l desc,
                     FinalStagesListCache (getOrCreateFinalStagesListCache m s).2 = Some l
                     /\ ImageGetStageDescription (GetImage stg)
                          (world (getOrCreateFinalStagesListCache m s).2) = Some desc
                     /\ FinalStagesListCache s' = Some (AddStageID l (descStageID desc)))).
  { intros res s1 Hs1 [= _ <-]. by left. }
  cbv zeta. unfold CopyStageIntoFinalRepo. rewrite bind_run.
  destruct (getOrCreateFinalStagesListCache m s) as [[[existing [e|]]|] s0];
    cbn [snd] in *; [| |stays].
  { run. destruct (FinalStagesStorage m); run; stays. }
  destruct existing as [existing|]; run; [|stays].
  unfold StageIDOf. run.
  destruct (ImageGetStageDescription (GetImage stg) (world s0)) as [desc|] eqn:Hdesc; run;
    [|stays].
  destruct (FinalStagesStorage m) as [final|]; run; [|stays].
  destruct (FinalStagesListCache s0) as [l|] eqn:Hcache; run; [|stays].
  destruct (CopyStageIntoFinalRepo_exists _ _); [stays|].
  rewrite bind_run.
  destruct (FetchStage m containerRuntime stg s0) as [[[e|]|] s1] eqn:Hfetch;
    apply FetchStage_keeps_list in Hfetch; [stays| |stays].
  rewrite bind_run.
  destruct (copyStageIntoStagesStorage _ _ _ _ _ s1) as [[[e|]|] s2] eqn:Hcopy;
    apply copyStageIntoStagesStorage_keeps_list in Hcopy;
    [stays| |stays].
  run. rewrite Hcopy, Hfetch, Hcache. run. cbv [mret M_ret]. intros [= <- <-]. right.
  split; [done|]. by exists l, desc.
Qed.

End Replication.

(* ===================================================================== *)
(** * Properties: the list of stages, the workers, the error predicates *)
(* ===================================================================== *)

Section Data.
Context `{FOREIGN : Foreign}.

Lemma IsEqual_sym (a b : StageID) : IsEqual a b = IsEqual b a.
Proof. unfold IsEqual. by rewrite String.eqb_sym, Z.eqb_sym. Qed.

Lemma IsEqual_eq (a b : StageID) : IsEqual a b = true <-> a = b.
Proof.
  unfold IsEqual. rewrite andb_true_iff, String.eqb_eq, Z.eqb_eq.
  destruct a, b; simpl. split; [by intros [-> ->]|by intros [= -> ->]].
Qed.

(** X19. [AddStageID] adds a stage id to the list unless an equal id
    is in it: afterwards the id is in the list, as often as before and
    at least once; the ids before stay where they were, every other id
    is in the list as often as before, and adding the id again changes
    nothing. *)
Theorem AddStageID_once (stages : StagesList) (stageID : StageID) :
  occurrences stageID (GetStageIDs (AddStageID stages stageID))
  = Nat.max 1 (occurrences stageID (GetStageIDs stages))
  /\ (forall other,
        other <> stageID ->
        occurrences other (GetStageIDs (AddStageID stages stageID))
        = occurrences other (GetStageIDs stages))
  /\ (exists added,
        GetStageIDs (AddStageID stages stageID) = (GetStageIDs stages ++ added)%list)
  /\ AddStageID (AddStageID stages stageID) stageID = AddStageID stages stageID.
Proof.
  rewrite !GetStageIDs_StageIDs. unfold AddStageID.
  destruct (AddStageID_found (StageIDs stages) stageID) eqn:Hfound.
  - rewrite Hfound. rewrite AddStageID_found_exists, exists_occurrences in Hfound.
    apply negb_true_iff, Nat.eqb_neq in Hfound.
    split; [lia|]. split; [done|]. split; [|done]. exists []. by rewrite app_nil_r.
  - assert (Hnone : occurrences stageID (StageIDs stages) = 0%nat).
    { rewrite AddStageID_found_exists, exists_occurrences in Hfound.
      by apply negb_false_iff, Nat.eqb_eq in Hfound. }
    cbn [StageIDs]. split; [|split; [|split]].
    + rewrite occurrences_app, Hnone. unfold occurrences. simpl.
      by rewrite IsEqual_refl.
    + intros other Hother. rewrite occurrences_app. unfold occurrences at 2. simpl.
      destruct (IsEqual stageID other) eqn:Heq; [|simpl; lia].
      apply IsEqual_eq in Heq. congruence.
    + by eexists.
    + assert (Hnow : AddStageID_found (StageIDs stages ++ [stageID]) stageID = true).
      { rewrite AddStageID_found_exists, exists_occurrences, occurrences_app, Hnone.
        unfold occurrences. simpl. by rewrite IsEqual_refl. }
      by rewrite Hnow.
Qed.

(** X20. [MaxNumberOfWorkers] is never below one; after
    [EnableParallel] with a limit it is the limit when the limit is
    positive and one otherwise. *)
Theorem MaxNumberOfWorkers_positive (p : Parallelism) (limit : Z) :
  1 <= MaxNumberOfWorkers p
  /\ MaxNumberOfWorkers (EnableParallel p limit) = Z.max 1 limit.
Proof.
  unfold MaxNumberOfWorkers, EnableParallel. simpl. split.
  - destruct (parallel p); simpl; [|lia].
    destruct (Z.ltb_spec 0 (parallelTasksLimit p)); lia.
  - destruct (Z.ltb_spec 0 limit); lia.
Qed.

(** The last byte of a string that has one. *)
Lemma last_append (p t : string) :
  t <> EmptyString ->
  String.get (String.length (p +:+ t) - 1) (p +:+ t) = String.get (String.length t - 1) t.
Proof.
  intros Ht. induction p as [|c p IH]; [done|].
  rewrite append_cons. cbn [String.length]. rewrite Nat.sub_succ, Nat.sub_0_r.
  destruct (String.length (p +:+ t)) as [|n] eqn:Hlen.
  - rewrite length_append in Hlen. destruct t; [done|]. simpl in Hlen. lia.
  - simpl. rewrite <- IH. f_equal. lia.
Qed.

(** X21. No error is both a stage-not-found error and a
    should-reset-the-index error: [IsStageNotFound] and
    [ShouldResetStagesStorageCache] never hold of the same error. *)
Theorem not_found_is_not_reset (err : option error) :
  IsStageNotFound err && ShouldResetStagesStorageCache err = false.
Proof.
  destruct err as [e|]; [|done]. unfold IsStageNotFound, ShouldResetStagesStorageCache.
  destruct (HasSuffix (Error e) (Error ErrStageNotFound)) eqn:Hfound; [|done].
  destruct (HasSuffix (Error e) (Error ErrShouldResetStagesStorageCache)) eqn:Hreset;
    [|done].
  apply HasSuffix_iff in Hfound as [p1 H1]. apply HasSuffix_iff in Hreset as [p2 H2].
  assert (Hlast :
    String.get (String.length (p1 +:+ Error ErrStageNotFound) - 1)
      (p1 +:+ Error ErrStageNotFound)
    = String.get (String.length (p2 +:+ Error ErrShouldResetStagesStorageCache) - 1)
        (p2 +:+ Error ErrShouldResetStagesStorageCache)) by (by rewrite <- H1, <- H2).
  rewrite !last_append in Hlast by done. by vm_compute in Hlast.
Qed.

End Data.

(* ===================================================================== *)
(** * Properties: the helm 2 storage of the maintenance helper *)
(* ===================================================================== *)

Section HelmStorage.
Import maintenance_helper maintenance_helper_further.
Context `{FOREIGN : Foreign}.

(** A second call of [initHelm2Storage] returns what the first one set
    up. *)
Lemma initHelm2Storage_again (helper helper' : MaintenanceHelper) r :
  initHelm2Storage helper = (helper', r) ->
  initHelm2Storage helper' = (helper', r).
Proof.
  unfold initHelm2Storage. destruct (v2Storage helper) as [st|] eqn:Hst.
  - intros [= <- <-]. by rewrite Hst.
  - destruct (String.eqb _ "configmap") eqn:Hcm; [by intros [= <- <-]|].
    destruct (String.eqb _ "secret") eqn:Hsec; [by intros [= <- <-]|].
    intros [= <- <-]. by rewrite Hst, Hcm, Hsec.
Qed.

Lemma filter_all {A} (l : list A) : List.filter (fun _ => true) l = l.
Proof. induction l; simpl; [done|by f_equal]. Qed.

(** X22. A helper made by [NewMaintenanceHelper] has no storage yet,
    "configmap" for an empty storage type and "kube-system" for an
    empty namespace. Its first [initHelm2Storage] sets up the config
    map driver for "configmap" and the secret driver for "secret", over
    the namespace, and for every other type returns an error and leaves
    the helper without storage; a later call returns the storage that
    was set up and changes nothing. *)
Theorem new_helper_storage (opts : MaintenanceHelperOptions) :
  let helper := NewMaintenanceHelper opts in
  let type :=
    if String.eqb (opt_Helm2ReleaseStorageType opts) EmptyString
    then "configmap" else opt_Helm2ReleaseStorageType opts in
  let namespace :=
    if String.eqb (opt_Helm2ReleaseStorageNamespace opts) EmptyString
    then "kube-system" else opt_Helm2ReleaseStorageNamespace opts in
  let '(helper', (storage, err)) := initHelm2Storage helper in
  (v2Storage helper = None /\ v2Storage helper' = storage)
  /\ initHelm2Storage helper' = (helper', (storage, err))
  /\ (if String.eqb type "configmap" then
        storage = Some (mkStorage (ConfigMaps namespace)) /\ err = None
      else if String.eqb type "secret" then
        storage = Some (mkStorage (Secrets namespace)) /\ err = None
      else
        storage = None
        /\ err = Some (Errorf ("unknown helm 2 release v2Storage type " +:+ fmt_q type))).
Proof.
  cbv zeta.
  destruct (initHelm2Storage (NewMaintenanceHelper opts)) as [helper' [storage err]] eqn:Hinit.
  split; [|split; [by eapply initHelm2Storage_again|]];
    revert Hinit; unfold initHelm2Storage, NewMaintenanceHelper; cbn [v2Storage
      Helm2ReleaseStorageType Helm2ReleaseStorageNamespace];
    destruct (String.eqb _ "configmap"); [by intros [= <- <- <-]| |by intros [= <- <- <-]|];
    destruct (String.eqb _ "secret"); by intros [= <- <- <-].
Qed.

(** X23. [CheckHelm2StorageAvailable] says that the helm 2 storage is
    available exactly when [GetHelm2ReleasesList] on the same helper
    and cluster returns no error; it returns an error exactly when the
    storage cannot be set up, with the error of [initHelm2Storage]
    behind "error initializing helm 2 v2Storage: ", and then says
    false; both leave the helper in the same state. *)
Theorem storage_available_iff_listed (c : Cluster) (helper : MaintenanceHelper) :
  let '(helper1, (available, err)) := CheckHelm2StorageAvailable c helper in
  let '(helper2, (names, errList)) := GetHelm2ReleasesList c helper in
  let '(_, (_, errInit)) := initHelm2Storage helper in
  helper1 = helper2
  /\ (available = true <-> errList = None)
  /\ err = match errInit with
           | Some e => Some (Errorf ("error initializing helm 2 v2Storage: " +:+ Error e))
           | None => None
           end
  /\ (err <> None -> available = false).
Proof.
  unfold CheckHelm2StorageAvailable, GetHelm2ReleasesList.
  destruct (initHelm2Storage helper) as [helper' [storage errInit]] eqn:Hinit.
  assert (Hstorage : errInit = None -> storage <> None).
  { revert Hinit. unfold initHelm2Storage. destruct (v2Storage helper); [by intros [= _ <- _]|].
    destruct (String.eqb _ "configmap"); [by intros [= _ <- _]|].
    destruct (String.eqb _ "secret"); [by intros [= _ <- _]|]. by intros [= _ _ <-]. }
  destruct errInit as [e|].
  - destruct storage; repeat split; done.
  - destruct storage as [st|]; [|by destruct Hstorage].
    destruct (ListReleases (v2Releases c (StorageDriver st))) as [releases [e|]];
      repeat split; done.
Qed.

Section Permuting.
Variable SortByRevision : list Release -> list Release.
Hypothesis SortByRevision_permutes : forall l, Permutation (SortByRevision l) l.

(** X24. The names [GetHelm2ReleasesList] returns are the names
    [GetHelm2ReleaseData] finds a release for: on the same helper and
    cluster, a name is in the list exactly when the data of a release
    is returned for it, and that release then has this name. *)
Theorem listed_iff_data (c : Cluster) (helper : MaintenanceHelper) (releaseName : string) :
  (exists names,
      (GetHelm2ReleasesList c helper).2 = (names, None) /\ In releaseName names)
  <-> (exists data,
          (GetHelm2ReleaseData SortByRevision c helper releaseName).2 = (Some data, None)
          /\ Name (Release_ data) = releaseName).
Proof.
  unfold GetHelm2ReleasesList, GetHelm2ReleaseData.
  destruct (initHelm2Storage helper) as [helper' [storage [e|]]].
  { destruct storage; split; intros [? [[=] ?]]. }
  destruct storage as [st|]; [|split; [intros [? [[= <-] []]]|intros [? [[=] ?]]]].
  unfold ListReleases, ListFilterAll, DriverList.
  destruct (v2Releases c (StorageDriver st)) as [e|records];
    [split; intros [? [[=] ?]]|].
  cbn [snd]. rewrite filter_all.
  remember (List.filter (fun rel => String.eqb (Name rel) releaseName) records)
    as matching eqn:Hdef.
  assert (Hmatch : forall r, In r matching <-> In r records /\ Name r = releaseName).
  { intros r. rewrite Hdef, List.filter_In, String.eqb_eq. done. }
  assert (Hlisted : In releaseName (AppendUniqReleases records) <-> matching <> []).
  { rewrite AppendUniqReleases_firstOccurrences, firstOccurrences_In, in_map_iff. split.
    - intros (r & Hname & Hin) Hnil.
      assert (Hin' : In r matching) by (by apply Hmatch).
      by rewrite Hnil in Hin'.
    - destruct matching as [|r rest]; [done|]. intros _.
      destruct (proj1 (Hmatch r)) as [Hin Hname]; [by left|]. by exists r. }
  clear Hdef. split.
  - intros (names & [= <-] & Hin). apply Hlisted in Hin.
    destruct (List.length matching =? 0)%nat eqn:Hlen.
    { apply Nat.eqb_eq in Hlen. by destruct matching. }
    unfold Reverse. pose proof (SortByRevision_permutes matching) as Hperm.
    destruct (rev (SortByRevision matching)) as [|first rest] eqn:Hrev.
    { apply (f_equal (@rev Release)) in Hrev. rewrite rev_involutive in Hrev.
      simpl in Hrev. rewrite Hrev in Hperm. by apply Permutation_nil in Hperm. }
    exists (mkHelm2ReleaseData first). split; [done|]. cbn [Release_].
    assert (Hfirst : In first (SortByRevision matching)).
    { apply in_rev. rewrite Hrev. by left. }
    by apply (Permutation_in _ Hperm), Hmatch in Hfirst as [? ?].
  - intros (data & Hdata & _). eexists. split; [done|]. apply Hlisted. intros ->.
    by simpl in Hdata.
Qed.
End Permuting.

End HelmStorage.

Section HelmDeletion.
Import maintenance_helper maintenance_helper_further.
Context `{FOREIGN : Foreign}.
Context {Store : Type}.
Variable cluster : Store -> Cluster.
Variable StorageDelete : Storage -> string -> Z -> Store -> option error * Store.

Lemma DeleteHelm2ReleaseMetadata_releases_calls (storage : Storage)
    (releases : list Release) (st : Store) (calls : list (string * Z)) :
  let '((st', calls'), err) :=
    DeleteHelm2ReleaseMetadata_releases StorageDelete storage releases st calls in
  exists tried remaining,
    releases = (tried ++ remaining)%list
    /\ calls' = (calls ++ map (fun rel => (Name rel, Version rel)) tried)%list
    /\ (err = None -> remaining = [])
    /\ (forall e, err = Some e -> exists msg, e = Errorf (msg +:+ ": %!s(MISSING)")).
Proof.
  revert st calls. induction releases as [|rel rest IH]; intros st calls; simpl.
  - exists [], []. split; [done|]. split; [by rewrite app_nil_r|]. by split.
  - destruct (StorageDelete storage (Name rel) (Version rel) st) as [[e|] st1].
    + exists [rel], rest. split; [done|]. split; [done|]. split; [done|].
      intros e' [= <-]. exists ("error deleting helm 2 release " +:+ fmt_q (Name rel)
                                  +:+ " version " +:+ fmt_d (Version rel)).
      by rewrite !append_assoc.
    + specialize (IH st1 (calls ++ [(Name rel, Version rel)])%list).
      destruct (DeleteHelm2ReleaseMetadata_releases _ _ _ _ _) as [[st' calls'] err].
      destruct IH as (tried & remaining & -> & -> & Hnone & Hsome).
      exists (rel :: tried), remaining. repeat split; [|done|done].
      by rewrite <- app_assoc.
Qed.

(** X25. [DeleteHelm2ReleaseMetadata] calls [storage.Delete] only for
    the release name asked, for the revisions the storage lists under
    that name, in the order of the listing and each once, and stops at
    the first call that fails: the calls made are a prefix of the
    listed revisions, and all of them when nil is returned. When the
    storage cannot be set up or listed the error is returned as it is
    and nothing is deleted. The error returned for a failed call names
    the release and the revision, not the cause: its text ends with
    "%!s(MISSING)". *)
Theorem delete_release_metadata (helper : MaintenanceHelper) (releaseName : string)
    (st : Store) :
  let '((helper', (st', calls)), err) :=
    DeleteHelm2ReleaseMetadata cluster StorageDelete helper releaseName st in
  let '(_, (storage, errInit)) := initHelm2Storage helper in
  Forall (fun call => call.1 = releaseName) calls
  /\ match storage, errInit with
     | Some storage, None =>
       match v2Releases (cluster st) (StorageDriver storage) with
       | Unreachable e => err = Some e /\ calls = []
       | Holds records =>
         (exists remaining,
             map (fun rel => (Name rel, Version rel))
               (List.filter (fun rel => String.eqb (Name rel) releaseName) records)
             = (calls ++ remaining)%list
             /\ (err = None -> remaining = []))
         /\ (forall e, err = Some e -> exists msg, e = Errorf (msg +:+ ": %!s(MISSING)"))
       end
     | _, _ => err = errInit /\ calls = []
     end.
Proof.
  unfold DeleteHelm2ReleaseMetadata.
  destruct (initHelm2Storage helper) as [helper' [storage [e|]]].
  { destruct storage; by repeat split. }
  destruct storage as [storage|]; [|by repeat split].
  unfold ListFilterAll, DriverList.
  destruct (v2Releases (cluster st) (StorageDriver storage)) as [e|records];
    [by repeat split|].
  remember (List.filter (fun rel => String.eqb (Name rel) releaseName) records)
    as matching eqn:Hdef.
  assert (Hnames : Forall (fun rel => Name rel = releaseName) matching).
  { rewrite Hdef. apply List.Forall_forall. intros rel Hin.
    apply List.filter_In in Hin as [_ Heq]. by apply String.eqb_eq. }
  clear Hdef. destruct (List.length matching =? 0)%nat eqn:Hlen.
  { apply Nat.eqb_eq in Hlen. destruct matching; [|done].
    split; [done|]. split; [by exists []|done]. }
  pose proof (DeleteHelm2ReleaseMetadata_releases_calls storage matching st []) as Hloop.
  destruct (DeleteHelm2ReleaseMetadata_releases _ _ _ _ _) as [[st' calls] err].
  destruct Hloop as (tried & remaining & -> & -> & Hnone & Hsome). simpl.
  split; [|split; [|done]].
  - apply Forall_app in Hnames as [Htried _]. apply Forall_fmap.
    by eapply Forall_impl; [exact Htried|].
  - exists (map (fun rel => (Name rel, Version rel)) remaining).
    split; [by rewrite map_app|]. intros Herr. by rewrite Hnone.
Qed.

End HelmDeletion.

(* ===================================================================== *)
(** * The further properties in the concrete setting *)
(* ===================================================================== *)


(** The index names [stageX] and the primary tier no longer holds it. *)
Lemma stale_index_entry_reported_witness :
  exists e,
    (GetStagesByDigest (FOREIGN := fixture.foreign) (EXTERNALS := fixture.externals)
       (fixture_further.managerWith fixture_further.indexOfX fixture_further.primaryGone
          None [])
       "install" "d1" fixture.start).1
    = Returned ([], Some e)
    /\ ShouldResetStagesStorageCache (H := fixture.foreign) (Some e) = true.
Proof.
  edestruct (@stale_index_entry_reported nat nat nat fixture.foreign fixture.externals
               (fixture_further.managerWith fixture_further.indexOfX
                  fixture_further.primaryGone None [])
               "install" "d1" fixture.start true [] [] fixture.stageX None 1%nat)
    as (e & Hrun & Hreset);
    [vm_compute; reflexivity ..|].
  exists e. rewrite Hrun. split; [reflexivity | exact Hreset].
Defined.

(** The lock is granted, the primary tier lists [stageX] and [stageY]
    and holds [stageX]. *)
Lemma refresh_is_listing_of_primary_witness :
  (atomicGetStagesByDigestWithStagesStorageCacheStore (FOREIGN := fixture.foreign)
     (EXTERNALS := fixture.externals)
     (fixture.manager fixture.primaryXY None []) "install" "d1" fixture.start).1
  = Returned ([fixture.descX], None).
Proof.
  edestruct (@refresh_is_listing_of_primary nat nat nat fixture.foreign fixture.externals
               (fixture.manager fixture.primaryXY None []) "install" "d1" fixture.start)
    as (s' & Hrun);
    [vm_compute; reflexivity | vm_compute; reflexivity
    | intros _; vm_compute; reflexivity |].
  rewrite Hrun. reflexivity.
Defined.

(** One cache tier, with the image present locally: it serves the
    image, nothing is to refill, and cache tiers after it change
    nothing. *)
Lemma first_cache_tier_serves_witness :
  FetchStage_caches (FOREIGN := fixture.foreign) (EXTERNALS := fixture.externals)
    (fixture.manager fixture.primaryXY None [fixture_further.cacheLocal])
    fixture.runtime fixture.stage [fixture_further.cacheLocal] [] fixture.start
  = FetchStage_caches (FOREIGN := fixture.foreign) (EXTERNALS := fixture.externals)
      (fixture.manager fixture.primaryXY None [fixture_further.cacheLocal])
      fixture.runtime fixture.stage
      [fixture_further.cacheLocal; fixture.cacheEmpty; fixture.cacheEmpty] [] fixture.start.
Proof.
  edestruct (@first_cache_tier_serves nat nat nat unit fixture.foreign fixture.externals
               (fixture.manager fixture.primaryXY None [fixture_further.cacheLocal])
               fixture.runtime fixture.stage fixture.start)
    as (rest & Htiers & Hserved);
    [vm_compute; reflexivity |].
  destruct Hserved as (hit & later & -> & Hothers).
  injection Htiers as <- _.
  pose proof (Hothers []) as Hone.
  pose proof (Hothers [fixture.cacheEmpty; fixture.cacheEmpty]) as Hthree.
  cbn [app] in Hone, Hthree. exact (eq_trans Hone (eq_sym Hthree)).
Defined.

(** The cache tier serves the image and the runtime cannot rename it. *)
Lemma rename_failure_panics_witness :
  (FetchStage (FOREIGN := fixture.foreign) (EXTERNALS := fixture.externals)
     (fixture.manager fixture.primaryXY None [fixture_further.cacheLocal])
     fixture_further.runtimeNoRename fixture.stage fixture.start).1
  = Panicked.
Proof.
  edestruct (@rename_failure_panics nat nat nat unit fixture.foreign fixture.externals
               (fixture.manager fixture.primaryXY None [fixture_further.cacheLocal])
               fixture_further.runtimeNoRename fixture.stage fixture.start)
    as (s' & Hrun);
    [vm_compute; reflexivity ..|].
  rewrite Hrun. reflexivity.
Defined.

(** One cache tier: the stage is renamed to the name of that tier. *)
Lemma CopyStageIntoCache_best_effort_witness :
  Forall2
    (fun name tier =>
       exists stageID,
         name = ConstructStageImageName tier "app" (Digest stageID) (UniqueID stageID))
    (omap renamedTo
       (trace (CopyStageIntoCache (FOREIGN := fixture.foreign)
                 (EXTERNALS := fixture.externals)
                 (fixture.manager fixture.primaryXY None [fixture.cacheEmpty])
                 fixture.stage fixture.runtime fixture.start).2))
    [fixture.cacheEmpty].
Proof.
  edestruct (@CopyStageIntoCache_best_effort nat nat nat unit fixture.foreign
               fixture.externals
               (fixture.manager fixture.primaryXY None [fixture.cacheEmpty])
               fixture.stage fixture.runtime fixture.start None)
    as (_ & evs & Htrace & Hnames);
    [vm_compute; reflexivity |].
  cbn [trace fixture.start app] in Htrace. rewrite <- Htrace in Hnames. exact Hnames.
Defined.

(** The copy of [stage] into a final repo that lists nothing records
    [stageX]. *)
Lemma failed_copy_not_recorded_witness :
  FinalStagesListCache fixture.afterCopy
  = FinalStagesListCache
      (getOrCreateFinalStagesListCache (FOREIGN := fixture.foreign)
         (fixture.manager fixture.primaryLocal (Some fixture.finalEmpty) [])
         fixture.start).2
  \/ (Returned None = Returned (None : option error)
      /\ exists l desc,
          FinalStagesListCache
            (getOrCreateFinalStagesListCache (FOREIGN := fixture.foreign)
               (fixture.manager fixture.primaryLocal (Some fixture.finalEmpty) [])
               fixture.start).2
          = Some l
          /\ @ImageGetStageDescription nat nat nat fixture.externals
               (GetImage fixture.stage)
               (world
                  (getOrCreateFinalStagesListCache (FOREIGN := fixture.foreign)
                     (fixture.manager fixture.primaryLocal (Some fixture.finalEmpty) [])
                     fixture.start).2)
             = Some desc
          /\ FinalStagesListCache fixture.afterCopy
             = Some (AddStageID l (descStageID desc))).
Proof.
  apply (@failed_copy_not_recorded nat nat nat unit fixture.foreign fixture.externals
           (fixture.manager fixture.primaryLocal (Some fixture.finalEmpty) [])
           fixture.stage fixture.runtime fixture.start (Returned None) fixture.afterCopy).
  vm_compute. reflexivity.
Defined.

(** The storage of the concrete cluster: "web" is listed and found. *)
Lemma listed_iff_data_witness :
  (exists names,
      (maintenance_helper.GetHelm2ReleasesList (H := fixture.foreign) fixture.cluster
         fixture.helper).2
      = (names, None)
      /\ In "web" names)
  <-> (exists data,
          (maintenance_helper.GetHelm2ReleaseData (H := fixture.foreign)
             fixture.SortByRevision fixture.cluster fixture.helper "web").2
          = (Some data, None)
          /\ maintenance_helper.Name (maintenance_helper.Release_ data) = "web").
Proof.
  apply (@listed_iff_data fixture.foreign fixture.SortByRevision
           fixture_SortByRevision_permutes fixture.cluster fixture.helper "web").
Defined.
